(** * Vox-E: the min-cut edit-region segmentation of
      [thre3d_atom/modules/refinement_functions.py]

    A shallow embedding of [gen_id], [build_graph],
    [set_and_visualize_refined_grid] and [get_edit_region], followed by the
    properties of the specification that concern them, and of
    [calc_loss_on_attn_grid] and the logging schedule of the module, with
    further properties of the code.

    Conventions of the embedding.
    - Tensor elements are taken from a [Scalar] structure: the element type
      with the arithmetic, [exp], [sqrt] and the comparisons the code applies
      to it.  The program is written once over this interface; it is run on
      exact rationals ([Qc_scalar]) and reasoned about analytically on the
      reals ([R_scalar]).  The rounding of float32 enters only through
      [f32_scalar], IEEE 754 binary32 with [exp] left open, on which the
      affinity is evaluated; a property stated over the reals says nothing
      of rounding, NaN or overflow.
    - A tensor of shape (X, Y, Z, 1) is a [Grid] of scalars, one of shape
      (X, Y, Z, C) a [Grid] of channel vectors.
    - torch indices are int64; a dense grid held in memory has fewer than
      2^63 cells, so index arithmetic never wraps and is done in [Z].
    - Exceptions are values of [exn]; the PyMaxflow graph [g] is threaded
      through as explicit state, so that what has been added to it when an
      exception is raised stays observable.
    - The max-flow solver (PyMaxflow) and [torch.randperm] are external: they
      are arguments of [build_graph]. *)

From stdpp Require Import gmap list.
From Stdlib Require Import ZArith QArith Qcanon Reals Lra Lia Permutation Sorted.
From Stdlib Require SpecFloat.

Local Open Scope Z_scope.

(** ** Tensor elements *)

Class Scalar := {
  num : Type;
  lit : Q -> num;                 (* a float literal of the source *)
  fadd : num -> num -> num;
  fsub : num -> num -> num;
  fmul : num -> num -> num;
  fdiv : num -> num -> num;
  fneg : num -> num;
  fexp : num -> num;              (* torch.exp *)
  fsqrt : num -> num;             (* torch.sqrt *)
  feqb : num -> num -> bool;      (* a == b *)
  fltb : num -> num -> bool;      (* a < b *)
  fleb : num -> num -> bool       (* a <= b *)
}.

(** The identities of [*1.0], [*0.0] and [+0.0] that the affinity formula
    relies on; they hold for the reals, the rationals and finite floats. *)
Class ScalarLaws (S : Scalar) : Prop := {
  fmul_one : forall a : num, fmul a (lit 1) = a;
  fmul_zero : forall a : num, fmul a (lit 0) = lit 0;
  fadd_zero : forall a : num, fadd a (lit 0) = a
}.

(** Exact rational arithmetic.  [exp] and [sqrt] are rational approximants
    (exact at 0, and [sqrt] at rational squares); they serve to execute the
    model. *)
Definition Qc_exp (a : Qc) : Qc :=
  if Qle_bool 0 a
  then (1 + a + a * a / Q2Qc 2)%Qc
  else (1 / (1 - a + a * a / Q2Qc 2))%Qc.

Definition Qc_sqrt (a : Qc) : Qc :=
  let n := Qnum a in
  let d := Zpos (Qden a) in
  Q2Qc (Qmake (Z.sqrt (n * d * 1000000)) (Pos.mul (Qden a) 1000)).

#[export] Instance Qc_scalar : Scalar := {|
  num := Qc;
  lit := Q2Qc;
  fadd := Qcplus;
  fsub := Qcminus;
  fmul := Qcmult;
  fdiv := Qcdiv;
  fneg := Qcopp;
  fexp := Qc_exp;
  fsqrt := Qc_sqrt;
  feqb := Qc_eq_bool;
  fltb := fun a b => negb (Qle_bool b a);
  fleb := fun a b => Qle_bool a b
|}.

(** Real arithmetic, for the analytic properties of the affinity. *)
#[export] Instance R_scalar : Scalar := {|
  num := R;
  lit := Q2R;
  fadd := Rplus;
  fsub := Rminus;
  fmul := Rmult;
  fdiv := Rdiv;
  fneg := Ropp;
  fexp := exp;
  fsqrt := sqrt;
  feqb := fun a b => if Req_dec_T a b then true else false;
  fltb := fun a b => if Rlt_dec a b then true else false;
  fleb := fun a b => if Rle_dec a b then true else false
|}.

(** IEEE 754 binary32, the element type of the tensors of the program:
    24 bits of precision, round to nearest even, with signed zeros,
    infinities and NaN.  Addition, subtraction, multiplication, division and
    square root are the correctly rounded operations of the standard.
    [torch.exp] is not one of them: it is a parameter.  A literal is the
    quotient of its numerator and denominator, which is exact for 0.0, 1.0
    and 5.0 and correctly rounded for 0.1. *)
Definition f32_prec : Z := 24.
Definition f32_emax : Z := 128.

Definition f32_of_Z (n : Z) : SpecFloat.spec_float :=
  SpecFloat.binary_normalize f32_prec f32_emax n 0 false.

Definition f32_lit (q : Q) : SpecFloat.spec_float :=
  SpecFloat.SFdiv f32_prec f32_emax (f32_of_Z (Qnum q)) (f32_of_Z (Zpos (Qden q))).

Definition f32_scalar (exp : SpecFloat.spec_float -> SpecFloat.spec_float)
  : Scalar := {|
  num := SpecFloat.spec_float;
  lit := f32_lit;
  fadd := SpecFloat.SFadd f32_prec f32_emax;
  fsub := SpecFloat.SFsub f32_prec f32_emax;
  fmul := SpecFloat.SFmul f32_prec f32_emax;
  fdiv := SpecFloat.SFdiv f32_prec f32_emax;
  fneg := SpecFloat.SFopp;
  fexp := exp;
  fsqrt := SpecFloat.SFsqrt f32_prec f32_emax;
  feqb := SpecFloat.SFeqb;
  fltb := SpecFloat.SFltb;
  fleb := SpecFloat.SFleb
|}.

(** ** Exceptions and the state of the graph under construction *)

(** Where in the source an exception is raised. *)
Inductive site :=
  | DensityAssert     (* get_edit_region, first assert *)
  | FeatureAssert     (* get_edit_region, second assert *)
  | MaxPool           (* torch.nn.MaxPool3d on an empty axis *)
  | SqueezeMask       (* idx_grid[non_zero_densities.cpu().squeeze()] *)
  | GenId             (* gen_id on a row that kept a unit axis *)
  | MaskSelect        (* edit_attn[non_zero_densities], obj_attn[...] *)
  | TorchMax          (* torch.max of an empty tensor *)
  | TopK              (* torch.topk with k larger than the input *)
  | ObjSubsample      (* obj_idxs[idx] *)
  | DictLookup        (* idx_dict[...] *)
  | FeatureIndex      (* features[...] *)
  | ProbsIndex        (* probs[nidx] *)
  | GridAssign.       (* masked assignment in set_and_visualize_refined_grid *)

Inductive exn :=
  | AssertionError (s : site)
  | RuntimeError (s : site)
  | IndexError (s : site)
  | KeyError (s : site).

Inductive result (A : Type) :=
  | Ok (a : A)
  | Raise (e : exn).
Arguments Ok {A} a.
Arguments Raise {A} e.

Abbreviation coord := (Z * Z * Z)%type.

(** PyMaxflow: [get_segment] answers 0 for the source side and 1 for the
    sink side. *)
Inductive terminal := SOURCE | SINK.

(** A dense tensor over the three spatial axes. *)
Record Grid (A : Type) := {
  gshape : nat * nat * nat;
  gdata : coord -> A
}.
Arguments gshape {A} _.
Arguments gdata {A} _ _.

(** A terminal capacity: a scalar or [np.inf]. *)
Inductive capacity (A : Type) :=
  | Fin (w : A)
  | Inf.
Arguments Fin {A} w.
Arguments Inf {A}.

(** The content of a [maxflow.Graph[float]]. *)
Record flow_graph (A : Type) := {
  g_nodes : nat;                                   (* g.add_nodes *)
  g_tedges : list (nat * capacity A * capacity A); (* g.add_tedge(node, source, sink) *)
  g_edges : list (nat * nat * A * A)               (* g.add_edge(i, j, cap, rcap) *)
}.
Arguments g_nodes {A} _.
Arguments g_tedges {A} _.
Arguments g_edges {A} _.
Arguments Build_flow_graph {A} _ _ _.

(** The tensors of a [VolumetricModel] that the refinement reads. *)
Record volumetric_model (A : Type) := {
  _densities : Grid A;
  _features : Grid (list A);
  attn : Grid A
}.
Arguments _densities {A} _.
Arguments _features {A} _.
Arguments attn {A} _.
Arguments Build_volumetric_model {A} _ _ _.

(** The two grids assigned in turn to [vol_mod_output.thre3d_repr.attn]: the
    first is rendered and logged as "GT Attn Map" and then replaced by the
    second, which is what the output model keeps. *)
Record refined_grids_of (A : Type) := {
  greater_than_grid : Grid A;
  graphcut_grid : Grid A
}.
Arguments greater_than_grid {A} _.
Arguments graphcut_grid {A} _.
Arguments Build_refined_grids_of {A} _ _.

Abbreviation VolumetricModel := (volumetric_model num).
Abbreviation refined_grids := (refined_grids_of num).

Abbreviation cap := (capacity num).
Abbreviation Graph := (flow_graph num).

Section Model.
Context {S : Scalar}.

Definition empty_graph : Graph :=
  {| g_nodes := 0; g_tedges := []; g_edges := [] |}.

Definition empty_graph_with (n : nat) : Graph :=
  {| g_nodes := n; g_tedges := []; g_edges := [] |}.

(** Computations on the graph [g] that may raise. *)
Definition M (A : Type) : Type := Graph -> Graph * result A.

#[export] Instance result_ret : MRet result := fun A a => Ok a.
#[export] Instance result_bind : MBind result := fun A B k r =>
  match r with
  | Ok a => k a
  | Raise e => Raise e
  end.

Definition raise {A} (e : exn) : M A := fun g => (g, Raise e).
Definition lift {A} (r : result A) : M A := fun g => (g, r).

#[export] Instance M_ret : MRet M := fun A a g => (g, Ok a).
#[export] Instance M_bind : MBind M := fun A B k m g =>
  match m g with
  | (g', Ok a) => k a g'
  | (g', Raise e) => (g', Raise e)
  end.

Fixpoint for_each {A} (l : list A) (body : A -> M unit) : M unit :=
  match l with
  | [] => mret tt
  | a :: l' => body a;; for_each l' body
  end.

Definition add_nodes (n : nat) : M unit :=
  fun g => ({| g_nodes := g_nodes g + n; g_tedges := g_tedges g;
               g_edges := g_edges g |}, Ok tt).

Definition add_tedge (i : nat) (cs ck : cap) : M unit :=
  fun g => ({| g_nodes := g_nodes g; g_tedges := g_tedges g ++ [(i, cs, ck)];
               g_edges := g_edges g |}, Ok tt).

Definition add_edge (i j : nat) (w rw : num) : M unit :=
  fun g => ({| g_nodes := g_nodes g; g_tedges := g_tedges g;
               g_edges := g_edges g ++ [(i, j, w, rw)] |}, Ok tt).

(** ** Tensors *)

Definition in_range (n : nat) (i : Z) : bool :=
  (0 <=? i) && (i <? Z.of_nat n).

Definition in_bounds (sh : nat * nat * nat) (c : coord) : bool :=
  let '(x, y, z) := sh in
  let '(a, b, d) := c in
  in_range x a && in_range y b && in_range z d.

(** [t[[a],[b],[c]]]: raises IndexError outside the tensor.  The indices
    that reach it are never negative. *)
Definition tensor_index {A} (s : site) (t : Grid A) (c : coord) : result A :=
  if in_bounds (gshape t) c then Ok (gdata t c) else Raise (IndexError s).

Definition fmax (a b : num) : num := if fltb a b then b else a.

(** [torch.max(v)] of a one-dimensional tensor. *)
Definition torch_max (v : list num) : result num :=
  match v with
  | [] => Raise (RuntimeError TorchMax)
  | a :: v' => Ok (fold_left fmax v' a)
  end.

Definition arange (n : nat) : list Z := map Z.of_nat (seq 0 n).

(** [torch.nn.MaxPool3d(3, stride=1, padding=1)] applied to a tensor of shape
    (X, Y, Z, 1).  torch reads a four-dimensional input as (C, D, H, W): the
    first axis is the channel axis, and the 3x3x3 window slides over the
    remaining three, (Y, Z, 1), padded with minus infinity. *)
Definition window (n : nat) (i : Z) : list Z :=
  List.filter (in_range n) [i - 1; i; i + 1].

Definition pool_window (sh : nat * nat * nat) (c : coord) : list coord :=
  let '(_, y, z) := sh in
  let '(a, b, d) := c in
  flat_map (fun b' => map (fun d' => (a, b', d')) (window z d)) (window y b).

Definition max_pool3d (t : Grid num) (c : coord) : num :=
  match map (gdata t) (pool_window (gshape t) c) with
  | [] => gdata t c
  | v :: vs => fold_left fmax vs v
  end.

(** [non_zero_densities = m(densities) > 0.0] *)
Definition non_zero_densities (densities : Grid num) (c : coord) : bool :=
  fltb (lit 0) (max_pool3d densities c).

(** [idx_grid], flattened in the row-major order of boolean-mask selection. *)
Definition idx_grid (sh : nat * nat * nat) : list coord :=
  let '(x, y, z) := sh in
  flat_map (fun a => flat_map (fun b => map (fun d => (a, b, d)) (arange z))
                              (arange y)) (arange x).

Definition idx_values_of (densities : Grid num) : list coord :=
  List.filter (non_zero_densities densities) (idx_grid (gshape densities)).

(** [gen_id(t_in, x, y)] *)
Definition gen_id (t_in : coord) (x y : nat) : Z :=
  let '(t0, t1, t2) := t_in in
  t0 + t1 * Z.of_nat x + t2 * Z.of_nat x * Z.of_nat y.

(** [idx_dict[gen_id(idx_values[i], x, y)] = i] for [i in range(num_nodes)]. *)
Definition idx_dict_of (idx_values : list coord) (x y : nat) : gmap Z nat :=
  fold_left (fun d it => <[gen_id (snd it) x y := fst it]> d)
            (combine (seq 0 (length idx_values)) idx_values) ∅.

(** ** [build_graph]: attention probabilities and seeds (lines 205-228) *)

Definition shape_eqb (s1 s2 : nat * nat * nat) : bool :=
  let '(x1, y1, z1) := s1 in
  let '(x2, y2, z2) := s2 in
  ((x1 =? x2) && (y1 =? y2) && (z1 =? z2))%nat.

(** [t[non_zero_densities]]: the mask must have the shape of [t]; the
    selected values come in the order of [idx_values]. *)
Definition mask_select (t densities : Grid num) (idx_values : list coord)
  : result (list num) :=
  if shape_eqb (gshape t) (gshape densities)
  then Ok (map (gdata t) idx_values)
  else Raise (IndexError MaskSelect).

(** [torch.nn.Softmax(dim=-1)] on the pair (edit, object). *)
Definition softmax_fn (p : num * num) : num * num :=
  let s := fadd (fexp (fst p)) (fexp (snd p)) in
  (fdiv (fexp (fst p)) s, fdiv (fexp (snd p)) s).

Definition attention_probs (edit_attn_vals obj_attn_vals : list num)
  : list (num * num) :=
  map softmax_fn (combine edit_attn_vals obj_attn_vals).

(** [mask.nonzero().squeeze()]: the positions where the mask holds. *)
Definition nonzero (mask : list bool) : list nat :=
  map fst (List.filter snd (combine (seq 0 (length mask)) mask)).

(** [mask.sum()] *)
Definition mask_sum (mask : list bool) : nat :=
  length (List.filter (fun b => b) mask).

(** [torch.topk(v, k).indices]: the positions of the [k] largest entries,
    largest first; a [k] beyond the length of [v] is a RuntimeError.  Among
    equal entries the earlier position is listed first. *)
Fixpoint insert_desc (x : nat * num) (l : list (nat * num)) : list (nat * num) :=
  match l with
  | [] => [x]
  | y :: l' => if fltb (snd x) (snd y) then y :: insert_desc x l' else x :: y :: l'
  end.

Definition sort_desc (l : list (nat * num)) : list (nat * num) :=
  fold_right insert_desc [] l.

Definition torch_topk (v : list num) (k : nat) : result (list nat) :=
  if (length v <? k)%nat then Raise (RuntimeError TopK)
  else Ok (firstn k (map fst (sort_desc (combine (seq 0 (length v)) v)))).

(** [t[idx]] for an index tensor [idx]. *)
Fixpoint index_select {A} (s : site) (t : list A) (idx : list nat) : result (list A) :=
  match idx with
  | [] => Ok []
  | j :: idx' =>
      match nth_error t j with
      | Some a => r ← index_select s t idx'; Ok (a :: r)
      | None => Raise (IndexError s)
      end
  end.

(** The constants written in the source, under the names the specification
    gives them. *)
Definition edit_mask_thresh : Q := 992 # 1000.
Definition min_num_edit_voxels : nat := 300.
Definition top_k_edit_thresh : nat := 300.
Definition top_k_obj_thresh : nat := 200.
Definition num_obj_voxels_thresh : nat := 5000.

(** The primary edit rule: [probs[..., 0] >= 0.992 * top_prob_edit]. *)
Definition best_voxels_edit_mask (probs : list (num * num)) (top_prob_edit : num)
  : list bool :=
  map (fun p => fleb (fmul (lit edit_mask_thresh) top_prob_edit) (fst p)) probs.

(** Lines 211-228: the two index tensors that seed the terminals. *)
Definition select_seeds (randperm : nat -> list nat)
    (edit_attn_vals obj_attn_vals : list num) (probs : list (num * num))
  : result (list nat * list nat) :=
  top_prob_edit ← torch_max (map fst probs);
  let mask := best_voxels_edit_mask probs top_prob_edit in
  let top_k_best_edit_idxs := nonzero mask in
  let obj_mask := map (fun p => fltb (fst p) (snd p)) probs in
  let obj_idxs := nonzero obj_mask in
  let perm := randperm (length obj_idxs) in
  let idx := firstn num_obj_voxels_thresh perm in
  top_k_best_obj_idxs ← index_select ObjSubsample obj_idxs idx;
  if (mask_sum mask <? min_num_edit_voxels)%nat then
    edit_topk ← torch_topk edit_attn_vals top_k_edit_thresh;
    obj_topk ← torch_topk obj_attn_vals top_k_obj_thresh;
    Ok (edit_topk, obj_topk)
  else Ok (top_k_best_edit_idxs, top_k_best_obj_idxs).

(** [i in t] for an index tensor [t]. *)
Definition contains (t : list nat) (i : nat) : bool := existsb (Nat.eqb i) t.

(** ** [build_graph]: terminal and neighbour edges (lines 263-300) *)

Definition g_neighbor_offsets : list coord :=
  [(-1, 0, 0); (0, -1, 0); (0, 0, -1); (1, 0, 0); (0, 1, 0); (0, 0, 1)].

Definition coord_add (c o : coord) : coord :=
  let '(a, b, d) := c in
  let '(oa, ob, od) := o in
  (a + oa, b + ob, d + od).

(** [((c >= n).sum() > 0)]: some component reaches [n]. *)
Definition any_ge (c : coord) (n : nat) : bool :=
  let '(a, b, d) := c in
  (Z.of_nat n <=? a) || (Z.of_nat n <=? b) || (Z.of_nat n <=? d).

(** [((c < 0).sum() > 0)] *)
Definition any_neg (c : coord) : bool :=
  let '(a, b, d) := c in
  (a <? 0) || (b <? 0) || (d <? 0).

Definition fsum (l : list num) : num := fold_left fadd l (lit 0).

Definition fsq (a : num) : num := fmul a a.

(** [torch.sqrt(((u - v) ** 2).sum())] *)
Definition l2 (u v : list num) : num :=
  fsqrt (fsum (map (fun p => fsq (fsub (fst p) (snd p))) (combine u v))).

(** [probs[nidx]]: the three rows of [probs] at the positions given by the
    components of the coordinate [nidx]. *)
Definition probs_rows (probs : list (num * num)) (nidx : coord)
  : result (list (num * num)) :=
  let '(a, b, d) := nidx in
  if forallb (in_range (length probs)) [a; b; d]
  then Ok (map (fun k => nth (Z.to_nat k) probs (lit 0, lit 0)) [a; b; d])
  else Raise (IndexError ProbsIndex).

(** [torch.sqrt(((probs[i] - probs[nidx]) ** 2).sum())] *)
Definition l2_probs_of (probs : list (num * num)) (i : nat) (nidx : coord)
  : result num :=
  rows ← probs_rows probs nidx;
  let p := nth i probs (lit 0, lit 0) in
  Ok (fsqrt (fsum (flat_map (fun r => [fsq (fsub (fst p) (fst r));
                                       fsq (fsub (snd p) (snd r))]) rows))).

(** [w = K * exp(-(l2_colors * 1.0 + l2_probs * 0.0) / sigma)] *)
Definition affinity (K sigma l2_colors l2_probs : num) : num :=
  fmul K (fexp (fdiv (fneg (fadd (fmul l2_colors (lit 1)) (fmul l2_probs (lit 0))))
                     sigma)).

Section Loop.
Variables (features : Grid (list num)) (densities : Grid num).
Variables (probs : list (num * num)) (idx_dict : gmap Z nat).
Variables (K sigma : num).

(** One pass of the loop over [g_neighbor_offsets] for node [i] at [nidx]:
    [None] stands for [continue], [Some e] for the call of [g.add_edge]. *)
Definition neighbor_edge (i : nat) (nidx n_offset : coord)
  : result (option (nat * nat * num * num)) :=
  let '(x, y, z) := gshape densities in
  let n := coord_add nidx n_offset in
  if any_ge n x || any_ge n y || any_ge n z then Ok None
  else if any_neg n then Ok None
  else if fleb (gdata densities n) (lit 0) then Ok None
  else
    match idx_dict !! gen_id n x y with
    | None => Raise (KeyError DictLookup)
    | Some neighbor_node_idx =>
        node_feature ← tensor_index FeatureIndex features nidx;
        neighbor_feature ← tensor_index FeatureIndex features n;
        l2_probs ← l2_probs_of probs i nidx;
        let l2_colors := l2 node_feature neighbor_feature in
        let w := affinity K sigma l2_colors l2_probs in
        Ok (Some (i, neighbor_node_idx, w, w))
    end.

Definition add_neighbor_edge (i : nat) (nidx n_offset : coord) : M unit :=
  e ← lift (neighbor_edge i nidx n_offset);
  match e with
  | None => mret tt
  | Some (a, b, w, rw) => add_edge a b w rw
  end.

(** The terminal edge of node [i]: edit membership is tested first. *)
Definition add_terminal (top_k_best_edit_idxs top_k_best_obj_idxs : list nat)
    (i : nat) : M unit :=
  if contains top_k_best_edit_idxs i then add_tedge i Inf (Fin (lit 0))
  else if contains top_k_best_obj_idxs i then add_tedge i (Fin (lit 0)) Inf
  else mret tt.

Definition node_body (top_k_best_edit_idxs top_k_best_obj_idxs : list nat)
    (idx_values : list coord) (i : nat) : M unit :=
  add_terminal top_k_best_edit_idxs top_k_best_obj_idxs i;;
  let nidx := nth i idx_values (0, 0, 0) in
  for_each g_neighbor_offsets (add_neighbor_edge i nidx).

End Loop.

(** ** [build_graph] *)

(** A spatial axis of length one is dropped by [squeeze()]: the rows of
    [idx_values] then keep a unit axis and [gen_id] fails on the first. *)
Definition has_unit_axis (sh : nat * nat * nat) : bool :=
  let '(x, y, z) := sh in ((x =? 1) || (y =? 1) || (z =? 1))%nat.

(** ... and the squeezed mask no longer fits [idx_grid] unless the dropped
    axes are trailing ones. *)
Definition squeeze_mismatch (sh : nat * nat * nat) : bool :=
  let '(x, y, z) := sh in
  (((x =? 1) || (y =? 1)) && negb ((y =? 1) && (z =? 1)))%nat.

Definition has_empty_axis (sh : nat * nat * nat) : bool :=
  let '(x, y, z) := sh in ((x =? 0) || (y =? 0) || (z =? 0))%nat.

Definition get_graph : M Graph := fun g => (g, Ok g).

Definition build_graph_body (solver : Graph -> nat -> terminal)
    (randperm : nat -> list nat)
    (features : Grid (list num)) (densities edit_attn obj_attn : Grid num)
    (K sigma : num) : M (list terminal * list coord) :=
  let '(x, y, z) := gshape densities in
  if has_empty_axis (gshape densities) then raise (RuntimeError MaxPool) else
  if squeeze_mismatch (gshape densities) then raise (IndexError SqueezeMask) else
  let idx_values := idx_values_of densities in
  let num_nodes := length idx_values in
  add_nodes num_nodes;;
  (if has_unit_axis (gshape densities) && (0 <? num_nodes)%nat
   then raise (IndexError GenId) else mret tt);;
  let idx_dict := idx_dict_of idx_values x y in
  edit_attn_vals ← lift (mask_select edit_attn densities idx_values);
  obj_attn_vals ← lift (mask_select obj_attn densities idx_values);
  let probs := attention_probs edit_attn_vals obj_attn_vals in
  seeds ← lift (select_seeds randperm edit_attn_vals obj_attn_vals probs);
  for_each (seq 0 num_nodes)
    (node_body features densities probs idx_dict K sigma
               (fst seeds) (snd seeds) idx_values);;
  g ← get_graph;
  let segments := map (solver g) (seq 0 num_nodes) in
  mret (segments, idx_values).

(** [build_graph] starts from a fresh [maxflow.Graph]; the graph it leaves
    behind is returned with the outcome. *)
Definition build_graph (solver : Graph -> nat -> terminal)
    (randperm : nat -> list nat)
    (features : Grid (list num)) (densities edit_attn obj_attn : Grid num)
    (K sigma : num) : Graph * result (list terminal * list coord) :=
  build_graph_body solver randperm features densities edit_attn obj_attn K sigma
                   empty_graph.

(** ** [set_and_visualize_refined_grid] *)

(** Broadcasting of two shapes, axis by axis. *)
Definition broadcast_dim (a b : nat) : option nat :=
  if (a =? b)%nat then Some a
  else if (a =? 1)%nat then Some b
  else if (b =? 1)%nat then Some a
  else None.

Definition broadcast_shape (s1 s2 : nat * nat * nat) : option (nat * nat * nat) :=
  let '(x1, y1, z1) := s1 in
  let '(x2, y2, z2) := s2 in
  x ← broadcast_dim x1 x2; y ← broadcast_dim y1 y2; z ← broadcast_dim z1 z2;
  Some (x, y, z).

(** Reading a tensor through a broadcast: a unit axis is read at 0. *)
Definition bget {A} (t : Grid A) (c : coord) : A :=
  let '(x, y, z) := gshape t in
  let '(a, b, d) := c in
  gdata t (if (x =? 1)%nat then 0 else a,
           if (y =? 1)%nat then 0 else b,
           if (z =? 1)%nat then 0 else d).

(** The three sentinels written into the attention grid. *)
Definition background : num := fmul (lit 1) (lit (-20 # 1)).  (* ones_like * -20.0 *)
Definition inside_density : num := lit (-10 # 1).
Definition selected : num := lit 0.

Definition ones_like_times (t : Grid num) (v : num) : Grid num :=
  {| gshape := gshape t; gdata := fun _ => v |}.

(** [t[mask] = v] for a mask of the shape of [t]. *)
Definition mask_assign (t : Grid num) (mask : coord -> bool) (v : num) : Grid num :=
  {| gshape := gshape t; gdata := fun c => if mask c then v else gdata t c |}.

Definition coord_eqb (c1 c2 : coord) : bool :=
  let '(a1, b1, d1) := c1 in
  let '(a2, b2, d2) := c2 in
  (a1 =? a2) && (b1 =? b2) && (d1 =? d2).

(** [t[idx[0], idx[1], idx[2], 0] = v] *)
Definition index_assign (t : Grid num) (idx : coord) (v : num) : result (Grid num) :=
  if in_bounds (gshape t) idx
  then Ok {| gshape := gshape t;
             gdata := fun c => if coord_eqb c idx then v else gdata t c |}
  else Raise (IndexError GridAssign).

Fixpoint index_assign_all (t : Grid num) (idxs : list coord) (v : num)
  : result (Grid num) :=
  match idxs with
  | [] => Ok t
  | idx :: idxs' => t' ← index_assign t idx v; index_assign_all t' idxs' v
  end.

(** [idxs[ids == 0]]: the coordinates of the nodes on the source side. *)
Definition edit_ids_of (ids : list terminal) (idxs : list coord) : list coord :=
  map snd (List.filter (fun p => match fst p with SOURCE => true | SINK => false end)
                       (combine ids idxs)).

Definition set_and_visualize_refined_grid
    (edit_densities edit_attn object_attn : Grid num)
    (ids : list terminal) (idxs : list coord) : result refined_grids :=
  let nonzero_densities := non_zero_densities edit_densities in
  (* first visualize greater than grid *)
  let gt_grid := ones_like_times edit_attn background in
  gt_mask_shape ← match broadcast_shape (gshape edit_attn) (gshape object_attn) with
                  | Some sh => Ok sh
                  | None => Raise (RuntimeError GridAssign)
                  end;
  if negb (shape_eqb gt_mask_shape (gshape edit_attn))
  then Raise (IndexError GridAssign) else
  let gt_mask := fun c => fltb (bget object_attn c) (bget edit_attn c) in
  let first := mask_assign gt_grid gt_mask selected in
  (* then visualize id based grid (graphcut output) *)
  let gt_grid := ones_like_times edit_attn background in
  if negb (shape_eqb (gshape edit_densities) (gshape edit_attn))
  then Raise (IndexError GridAssign) else
  let gt_grid := mask_assign gt_grid nonzero_densities inside_density in
  if negb (length ids =? length idxs)%nat
  then Raise (IndexError GridAssign) else
  let edit_ids := edit_ids_of ids idxs in
  second ← index_assign_all gt_grid edit_ids selected;
  Ok {| greater_than_grid := first; graphcut_grid := second |}.

(** ** [get_edit_region] *)

(** [torch.eq(t1, t2).all().item()]: a RuntimeError when the shapes do not
    broadcast. *)
Definition torch_eq_all {A} (eqb : A -> A -> result bool) (s : site)
    (t1 t2 : Grid A) : result bool :=
  match broadcast_shape (gshape t1) (gshape t2) with
  | None => Raise (RuntimeError s)
  | Some sh =>
      fold_left (fun acc c => b ← acc; e ← eqb (bget t1 c) (bget t2 c); Ok (b && e))
                (idx_grid sh) (Ok true)
  end.

Definition scalar_eq (a b : num) : result bool := Ok (feqb a b).

(** Equality along the channel axis, which broadcasts like the others. *)
Definition channels_eq (s : site) (u v : list num) : result bool :=
  match broadcast_dim (length u) (length v) with
  | None => Raise (RuntimeError s)
  | Some n =>
      let at_ (w : list num) (k : nat) :=
        nth (if (length w =? 1)%nat then 0%nat else k) w (lit 0) in
      Ok (forallb (fun k => feqb (at_ u k) (at_ v k)) (seq 0 n))
  end.

(** [torch.sigmoid] *)
Definition sigmoid (a : num) : num :=
  fdiv (lit 1) (fadd (lit 1) (fexp (fneg a))).

Definition sigmoid_features (t : Grid (list num)) : Grid (list num) :=
  {| gshape := gshape t; gdata := fun c => map sigmoid (gdata t c) |}.

(** [get_edit_region] with [produce_scatter_plot=False]; rendering and
    logging leave the grids untouched and are left out. *)
Definition get_edit_region (solver : Graph -> nat -> terminal)
    (randperm : nat -> list nat)
    (vol_mod_edit vol_mod_object : VolumetricModel) (K sigma : num)
  : Graph * result refined_grids :=
  match torch_eq_all scalar_eq DensityAssert
          (_densities vol_mod_edit) (_densities vol_mod_object) with
  | Raise e => (empty_graph, Raise e)
  | Ok false => (empty_graph, Raise (AssertionError DensityAssert))
  | Ok true =>
  match torch_eq_all (channels_eq FeatureAssert) FeatureAssert
          (_features vol_mod_edit) (_features vol_mod_object) with
  | Raise e => (empty_graph, Raise e)
  | Ok false => (empty_graph, Raise (AssertionError FeatureAssert))
  | Ok true =>
      let densities := _densities vol_mod_edit in
      let edit_attn := attn vol_mod_edit in
      let obj_attn := attn vol_mod_object in
      let features := sigmoid_features (_features vol_mod_edit) in
      match build_graph solver randperm features densities edit_attn obj_attn
                        K sigma with
      | (g, Raise e) => (g, Raise e)
      | (g, Ok (ids, idxs)) =>
          (g, set_and_visualize_refined_grid densities edit_attn obj_attn ids idxs)
      end
  end
  end.

End Model.

(** * Auxiliary definitions

    What the statements below speak of: the contributions of the loops of
    [build_graph] as lists, the seeds as a function of the inputs, and the
    capacity of a cut. *)

Section Spec.
Context {S : Scalar}.

Definition extend (g : Graph) (ts : list (nat * cap * cap))
    (es : list (nat * nat * num * num)) : Graph :=
  {| g_nodes := g_nodes g; g_tedges := g_tedges g ++ ts;
     g_edges := g_edges g ++ es |}.

Definition opt_list {A} (o : option A) : list A :=
  match o with Some a => [a] | None => [] end.

(** What one neighbour step and one node contribute. *)
Definition offset_edges features densities probs idx_dict K sigma
    (i : nat) (nidx : coord) (off : coord)
    (es : list (nat * nat * num * num)) : Prop :=
  exists r, neighbor_edge features densities probs idx_dict K sigma i nidx off = Ok r
            /\ es = opt_list r.

Definition node_edges features densities probs idx_dict K sigma
    (idx_values : list coord) (i : nat)
    (es : list (nat * nat * num * num)) : Prop :=
  exists ess,
    Forall2 (offset_edges features densities probs idx_dict K sigma i
                          (nth i idx_values (0, 0, 0)))
            g_neighbor_offsets ess
    /\ es = concat ess.

(** [add_terminal] as a list: at most one terminal edge per node, the edit
    test first. *)
Definition terminal_of (edit obj : list nat) (i : nat) : list (nat * cap * cap) :=
  if contains edit i then [(i, Inf, Fin (lit 0))]
  else if contains obj i then [(i, Fin (lit 0), Inf)]
  else [].

(** The values selected by the mask, the probabilities and the seeds, as
    [build_graph] computes them from its arguments. *)
Definition probs_of (densities edit_attn obj_attn : Grid num) : list (num * num) :=
  attention_probs (map (gdata edit_attn) (idx_values_of densities))
                  (map (gdata obj_attn) (idx_values_of densities)).

Definition seeds_of (randperm : nat -> list nat)
    (densities edit_attn obj_attn : Grid num) : result (list nat * list nat) :=
  let idx_values := idx_values_of densities in
  edit_attn_vals ← mask_select edit_attn densities idx_values;
  obj_attn_vals ← mask_select obj_attn densities idx_values;
  select_seeds randperm edit_attn_vals obj_attn_vals
               (attention_probs edit_attn_vals obj_attn_vals).

Definition dict_of (densities : Grid num) : gmap Z nat :=
  idx_dict_of (idx_values_of densities)
              (fst (fst (gshape densities))) (snd (fst (gshape densities))).

Definition cap_add (a b : cap) : cap :=
  match a, b with
  | Fin u, Fin v => Fin (fadd u v)
  | _, _ => Inf
  end.

Definition cap_sum (l : list cap) : cap := fold_right cap_add (Fin (lit 0)) l.

Definition cap_le (a b : cap) : Prop :=
  match a, b with
  | _, Inf => True
  | Fin u, Fin v => fleb u v = true
  | Inf, Fin _ => False
  end.

(** What a labelling [L] of the nodes pays for a terminal edge and for an
    edge between nodes. *)
Definition tedge_cut (L : nat -> terminal) (t : nat * cap * cap) : cap :=
  let '(i, cs, ck) := t in
  match L i with SOURCE => ck | SINK => cs end.

Definition edge_cut (L : nat -> terminal) (e : nat * nat * num * num) : cap :=
  let '(i, j, w, rw) := e in
  match L i, L j with
  | SOURCE, SINK => Fin w
  | SINK, SOURCE => Fin rw
  | _, _ => Fin (lit 0)
  end.

Definition cut_capacity (g : Graph) (L : nat -> terminal) : cap :=
  cap_add (cap_sum (map (tedge_cut L) (g_tedges g)))
          (cap_sum (map (edge_cut L) (g_edges g))).

(** The contract of the max-flow solver: its labelling is a minimum cut. *)
Definition is_min_cut (g : Graph) (L : nat -> terminal) : Prop :=
  forall L', cap_le (cut_capacity g L) (cut_capacity g L').

Definition is_fin (a : cap) : Prop := exists w, a = Fin w.

(** The two bounds tests of the neighbour loop: every component of the
    neighbour is below each of x, y and z, and none is negative. *)
Definition passes_bounds_checks (sh : nat * nat * nat) (n : coord) : bool :=
  let '(x, y, z) := sh in
  negb (any_ge n x || any_ge n y || any_ge n z) && negb (any_neg n).

(** The calls of [g.add_edge] from node [a] to node [b]. *)
Definition edge_additions (g : Graph) (a b : nat) : list (nat * nat * num * num) :=
  List.filter (fun e => let '(i, j, _, _) := e in ((i =? a) && (j =? b))%nat)
              (g_edges g).

Definition tedge_node (t : nat * cap * cap) : nat := fst (fst t).

Definition seeded (g : Graph) (i : nat) : bool :=
  existsb (fun t => Nat.eqb (tedge_node t) i) (g_tedges g).

Definition terminal_eqb (a b : terminal) : bool :=
  match a, b with
  | SOURCE, SOURCE | SINK, SINK => true
  | _, _ => false
  end.

(** Every terminal edge is infinite towards the side [L0] gives its node,
    and both ends of every edge carry a terminal edge. *)
Definition fully_seeded (g : Graph) (L0 : nat -> terminal) : bool :=
  forallb (fun t => match t with
                    | (i, Inf, Fin _) => terminal_eqb (L0 i) SOURCE
                    | (i, Fin _, Inf) => terminal_eqb (L0 i) SINK
                    | _ => false
                    end) (g_tedges g)
  && forallb (fun e => let '(i, j, _, _) := e in seeded g i && seeded g j)
             (g_edges g).

End Spec.

(** * Concrete grids

    The inputs on which the model is run below, over exact rationals. *)

Abbreviation qnum := (@num Qc_scalar).

Definition mk_grid {A} (n : nat) (f : coord -> A) : Grid A :=
  {| gshape := (n, n, n); gdata := f |}.

Definition id_perm (n : nat) : list nat := seq 0 n.

(** The labelling that follows the infinite terminal edges of the graph. *)
Definition follow_seeds (g : flow_graph qnum) (i : nat) : terminal :=
  if existsb (fun t => match t with
                       | (j, Inf, _) => Nat.eqb i j
                       | _ => false
                       end) (g_tedges g)
  then SOURCE else SINK.

(** A 7x7x7 grid: density everywhere but at the origin, features that vary
    along the first axis, and object attention dominating on part of the
    last plane. *)
Definition ex_densities : Grid qnum :=
  mk_grid 7 (fun '(a, b, d) =>
    if (a =? 0) && (b =? 0) && (d =? 0) then Q2Qc 0 else Q2Qc 1).

Definition ex_features : Grid (list qnum) :=
  mk_grid 7 (fun '(a, b, d) => [Q2Qc (a # 8); Q2Qc (1 # 2)]).

Definition ex_edit_attn : Grid qnum := mk_grid 7 (fun _ => Q2Qc 0).

Definition ex_obj_attn : Grid qnum :=
  mk_grid 7 (fun '(a, b, d) => if (a =? 6) && (b <? 6) then Q2Qc 1 else Q2Qc 0).

Definition ex_K : qnum := Q2Qc 5.
Definition ex_sigma : qnum := Q2Qc (1 # 10).

Abbreviation ex_run :=
  (build_graph (S := Qc_scalar) follow_seeds id_perm ex_features ex_densities
               ex_edit_attn ex_obj_attn ex_K ex_sigma).

Definition is_ok {A} (r : result A) : bool :=
  match r with Ok _ => true | Raise _ => false end.

Definition ok_or {A} (d : A) (r : result A) : A :=
  match r with Ok a => a | Raise _ => d end.

Definition ex_graph : flow_graph qnum := fst ex_run.
Definition ex_segments : list terminal := fst (ok_or ([], []) (snd ex_run)).
Definition ex_idxs : list coord := snd (ok_or ([], []) (snd ex_run)).

Abbreviation ex_seeds :=
  (seeds_of (S := Qc_scalar) id_perm ex_densities ex_edit_attn ex_obj_attn).

Definition ex_edit : list nat := fst (ok_or ([], []) ex_seeds).
Definition ex_obj : list nat := snd (ok_or ([], []) ex_seeds).

(** The first edge added in the run on the first grid. *)
Definition ex_edge : nat * nat * qnum * qnum :=
  nth 0 (g_edges ex_graph) (0%nat, 0%nat, Q2Qc 0, Q2Qc 0).

(** A second 7x7x7 grid, dense everywhere, on which the primary rule selects
    the origin only and the fallback takes over. *)
Definition fb_densities : Grid qnum := mk_grid 7 (fun _ => Q2Qc 1).

Definition fb_edit_attn : Grid qnum :=
  mk_grid 7 (fun '(a, b, d) =>
    if (a =? 0) && (b =? 0) && (d =? 0) then Q2Qc 1 else Q2Qc 0).

Definition fb_obj_attn : Grid qnum := mk_grid 7 (fun _ => Q2Qc 0).

Abbreviation fb_run :=
  (build_graph (S := Qc_scalar) follow_seeds id_perm ex_features fb_densities
               fb_edit_attn fb_obj_attn ex_K ex_sigma).

Abbreviation fb_seeds :=
  (seeds_of (S := Qc_scalar) id_perm fb_densities fb_edit_attn fb_obj_attn).

Definition fb_graph : flow_graph qnum := fst fb_run.
Definition fb_segments : list terminal := fst (ok_or ([], []) (snd fb_run)).
Definition fb_idxs : list coord := snd (ok_or ([], []) (snd fb_run)).
Definition fb_edit : list nat := fst (ok_or ([], []) fb_seeds).
Definition fb_obj : list nat := snd (ok_or ([], []) fb_seeds).

Definition fb_edit_attn_vals : list qnum :=
  map (gdata fb_edit_attn) (idx_values_of (S := Qc_scalar) fb_densities).
Definition fb_obj_attn_vals : list qnum :=
  map (gdata fb_obj_attn) (idx_values_of (S := Qc_scalar) fb_densities).

(** A 2x2x2 grid, dense everywhere, with equal attentions. *)
Definition small_densities : Grid qnum := mk_grid 2 (fun _ => Q2Qc 1).
Definition small_attn : Grid qnum := mk_grid 2 (fun _ => Q2Qc 0).
Definition small_features : Grid (list qnum) := mk_grid 2 (fun _ => [Q2Qc 0]).

Definition small_attn_vals : list qnum :=
  map (gdata small_attn) (idx_values_of (S := Qc_scalar) small_densities).

(** The 2x2x2 grid without density: no voxel is active. *)
Definition zero_densities : Grid qnum := mk_grid 2 (fun _ => Q2Qc 0).

Definition zero_model : volumetric_model qnum :=
  {| _densities := zero_densities; _features := small_features;
     attn := small_attn |}.

(** Two models on the dense 2x2x2 grid whose attention fields differ in
    shape: the object attention is 3x2x2. *)
Definition wide_attn : Grid qnum :=
  {| gshape := (3, 2, 2)%nat; gdata := fun _ => Q2Qc 0 |}.

Definition small_model : volumetric_model qnum :=
  {| _densities := small_densities; _features := small_features;
     attn := small_attn |}.

Definition wide_model : volumetric_model qnum :=
  {| _densities := small_densities; _features := small_features;
     attn := wide_attn |}.

(** Models on the dense 2x2x2 grid whose density grid, respectively feature
    grid, is 3x2x2: these shapes do not broadcast against 2x2x2. *)
Definition wide_densities : Grid qnum :=
  {| gshape := (3, 2, 2)%nat; gdata := fun _ => Q2Qc 1 |}.

Definition wide_features : Grid (list qnum) :=
  {| gshape := (3, 2, 2)%nat; gdata := fun _ => [Q2Qc 0] |}.

Definition wide_density_model : volumetric_model qnum :=
  {| _densities := wide_densities; _features := small_features;
     attn := small_attn |}.

Definition wide_feature_model : volumetric_model qnum :=
  {| _densities := small_densities; _features := wide_features;
     attn := small_attn |}.

(** Feature vectors in binary32: the origin, 1.75 and the next float above
    1.75, with K = 5.0 and sigma = 0.1 as [get_edit_region] sets them. *)
Definition f32_origin : list SpecFloat.spec_float := [SpecFloat.S754_zero false].

Definition f32_near : list SpecFloat.spec_float :=
  [SpecFloat.S754_finite false 14680064 (-23)].

Definition f32_far : list SpecFloat.spec_float :=
  [SpecFloat.S754_finite false 14680065 (-23)].

Definition f32_K : SpecFloat.spec_float := f32_lit 5.
Definition f32_sigma : SpecFloat.spec_float := f32_lit (1 # 10).

(** The pipeline on the first 7x7x7 grid. *)
Definition ex_raw_features : Grid (list qnum) :=
  mk_grid 7 (fun '(a, b, d) => [Q2Qc (a # 8); Q2Qc 0]).

Definition ex_vol_edit : volumetric_model qnum :=
  {| _densities := ex_densities; _features := ex_raw_features;
     attn := ex_edit_attn |}.

Definition ex_vol_object : volumetric_model qnum :=
  {| _densities := ex_densities; _features := ex_raw_features;
     attn := ex_obj_attn |}.

Abbreviation ex_region :=
  (get_edit_region (S := Qc_scalar) follow_seeds id_perm ex_vol_edit
                   ex_vol_object ex_K ex_sigma).

Definition no_grids : refined_grids_of qnum :=
  {| greater_than_grid := ex_edit_attn; graphcut_grid := ex_edit_attn |}.

Definition ex_output : Grid qnum := graphcut_grid (ok_or no_grids (snd ex_region)).

(** The first edge of the graph that the pipeline builds on the first grid. *)
Definition ex_region_edge : nat * nat * qnum * qnum :=
  nth 0 (g_edges (fst ex_region)) (0%nat, 0%nat, Q2Qc 0, Q2Qc 0).

(** The dense 7x7x7 grid of the second example with constant features as
    edit model, against an object model whose density and feature grids have
    the shape 1x7x7 and the same values. *)
Definition flat_densities : Grid qnum :=
  {| gshape := (1, 7, 7)%nat; gdata := fun _ => Q2Qc 1 |}.

Definition const_features : Grid (list qnum) :=
  mk_grid 7 (fun _ => [Q2Qc (1 # 2); Q2Qc 0]).

Definition flat_features : Grid (list qnum) :=
  {| gshape := (1, 7, 7)%nat; gdata := fun _ => [Q2Qc (1 # 2); Q2Qc 0] |}.

Definition fb_vol_edit : volumetric_model qnum :=
  {| _densities := fb_densities; _features := const_features;
     attn := fb_edit_attn |}.

Definition flat_vol_object : volumetric_model qnum :=
  {| _densities := flat_densities; _features := flat_features;
     attn := fb_obj_attn |}.

Abbreviation flat_region :=
  (get_edit_region (S := Qc_scalar) follow_seeds id_perm fb_vol_edit
                   flat_vol_object ex_K ex_sigma).

(** The materializer applied to the labelling of the first run. *)
Abbreviation ex_refined :=
  (set_and_visualize_refined_grid (S := Qc_scalar) ex_densities ex_edit_attn
                                  ex_obj_attn ex_segments ex_idxs).

(** * The remaining functions of [refinement_functions.py]

    [calc_loss_on_attn_grid] and the logging schedule shared by
    [visualize_and_log_attention_maps], [calc_loss_on_attn_grid] and
    [log_and_vis_render_diff].  The images are flattened: the operations are
    elementwise or sums.  What is sent to wandb is left out. *)

Inductive log_exn :=
  | ReshapeError          (* attn_render.reshape(attn_map.shape) *)
  | ZeroDivisionError     (* global_step % log_freq *)
  | EmptyMaxError.        (* torch.max of an empty image, when logging *)

(** [(global_step % log_freq == 0) or (global_step == 0)]; [None] is the
    ZeroDivisionError of the modulo. *)
Definition log_due (global_step log_freq : Z) : option bool :=
  if log_freq =? 0 then None
  else Some ((global_step mod log_freq =? 0) || (global_step =? 0)).

Section Loss.
Context {S : Scalar}.

(** [torch.abs] *)
Definition fabs (a : num) : num := if fltb a (lit 0) then fneg a else a.

(** [mask = zeros_like(attn_map); mask[attn_render > 0.0] = 1.0] *)
Definition render_mask (attn_render : list num) : list num :=
  map (fun r => if fltb (lit 0) r then lit 1 else lit 0) attn_render.

(** [diff * mask.float()] *)
Definition diff_masked (attn_render attn_map : list num) : list num :=
  map (fun p => fmul (fst p) (snd p))
      (combine (map (fun p => fabs (fsub (fst p) (snd p)))
                    (combine attn_render attn_map))
               (render_mask attn_render)).

Definition calc_loss_on_attn_grid (attn_render attn_map : list num)
    (global_step log_freq : Z) : log_exn + num :=
  if negb (length attn_render =? length attn_map)%nat then inl ReshapeError else
  let mask := render_mask attn_render in
  let masked := diff_masked attn_render attn_map in
  match log_due global_step log_freq with
  | None => inl ZeroDivisionError
  | Some due =>
      if due && (length attn_map =? 0)%nat then inl EmptyMaxError
      else inr (fdiv (fsum masked) (fsum mask))
  end.

End Loss.

(** ** Further concrete inputs *)

(** The edge entries of the first run between nodes 1 and 2, the voxels
    (0, 0, 1) and (0, 0, 2): one per direction. *)
Definition ex_edge_fwd : nat * nat * qnum * qnum :=
  nth 5 (g_edges ex_graph) (0%nat, 0%nat, Q2Qc 0, Q2Qc 0).

Definition ex_edge_bwd : nat * nat * qnum * qnum :=
  nth 6 (g_edges ex_graph) (0%nat, 0%nat, Q2Qc 0, Q2Qc 0).

(** The attention probabilities of the first grid and their maximum. *)
Abbreviation ex_probs :=
  (probs_of (S := Qc_scalar) ex_densities ex_edit_attn ex_obj_attn).

Definition ex_top : qnum :=
  ok_or (Q2Qc 0) (torch_max (S := Qc_scalar) (map fst ex_probs)).

(** The call of [build_graph] that [get_edit_region] makes on the first
    grid: the features go through the sigmoid. *)
Abbreviation ex_region_run :=
  (build_graph (S := Qc_scalar) follow_seeds id_perm
               (sigmoid_features ex_raw_features) ex_densities ex_edit_attn
               ex_obj_attn ex_K ex_sigma).

Definition ex_region_graph : flow_graph qnum := fst ex_region_run.
Definition ex_region_ids : list terminal := fst (ok_or ([], []) (snd ex_region_run)).
Definition ex_region_idxs : list coord := snd (ok_or ([], []) (snd ex_region_run)).

(** A render of three pixels, positive at the first only, and two target
    maps that agree there. *)
Definition px_render : list qnum := [Q2Qc 1; Q2Qc 0; Q2Qc (-1)].
Definition px_map : list qnum := [Q2Qc 3; Q2Qc 5; Q2Qc 7].
Definition px_map_alt : list qnum := [Q2Qc 3; Q2Qc 9; Q2Qc 11].

(** A render and a target map over the reals. *)
Definition re_render : list R := [1; 0]%R.
Definition re_map : list R := [1; 5]%R.

(** A dense 2x2x2 density grid over the reals. *)
Definition re_densities : Grid R := mk_grid 2 (fun _ => 1%R).

(** * Properties *)

Section Facts.
Context {S : Scalar}.

(** ** The loops of [build_graph] only append to the graph *)

Lemma extend_nil g : extend g [] [] = g.
Proof. destruct g; unfold extend; simpl. by rewrite !app_nil_r. Qed.

Lemma extend_extend g ts es ts' es' :
  extend (extend g ts es) ts' es' = extend g (ts ++ ts') (es ++ es').
Proof. unfold extend; simpl. by rewrite !app_assoc. Qed.

Lemma bind_ok {A B} (m : M A) (k : A -> M B) g g' b :
  (m ≫= k) g = (g', Ok b) ->
  exists g1 a, m g = (g1, Ok a) /\ k a g1 = (g', Ok b).
Proof.
  unfold mbind, M_bind. destruct (m g) as [g1 [a|e]]; intros H.
  - by exists g1, a.
  - discriminate.
Qed.

Lemma for_each_extend {A} (T : A -> list (nat * cap * cap))
    (E : A -> list (nat * nat * num * num) -> Prop) (body : A -> M unit) :
  (forall a g g', body a g = (g', Ok tt) ->
                  exists es, E a es /\ g' = extend g (T a) es) ->
  forall l g g', for_each l body g = (g', Ok tt) ->
    exists ess, Forall2 E l ess /\ g' = extend g (flat_map T l) (concat ess).
Proof.
  intros Hbody l. induction l as [|a l IH]; intros g g' Hrun; simpl in Hrun.
  - exists []. split; [constructor|]. inversion Hrun. by rewrite extend_nil.
  - apply bind_ok in Hrun as (g1 & [] & Ha & Hl).
    apply Hbody in Ha as (es & HE & ->).
    apply IH in Hl as (ess & HF & ->).
    exists (es :: ess). split; [by constructor|].
    simpl. by rewrite extend_extend.
Qed.

Lemma add_neighbor_edge_extend features densities probs idx_dict K sigma i nidx off g g' :
  add_neighbor_edge features densities probs idx_dict K sigma i nidx off g = (g', Ok tt) ->
  exists es, offset_edges features densities probs idx_dict K sigma i nidx off es
             /\ g' = extend g [] es.
Proof.
  unfold add_neighbor_edge. intros H.
  apply bind_ok in H as (g1 & r & Hr & Hk).
  unfold lift in Hr. inversion Hr; subst g1.
  exists (opt_list r). split; [by exists r|].
  destruct r as [[[[a b] w] rw]|]; simpl in *.
  - unfold add_edge in Hk. inversion Hk. unfold extend; simpl.
    by rewrite app_nil_r.
  - inversion Hk. by rewrite extend_nil.
Qed.

Lemma add_terminal_extend edit obj i g :
  add_terminal edit obj i g = (extend g (terminal_of edit obj i) [], Ok tt).
Proof.
  unfold add_terminal, terminal_of.
  destruct (contains edit i); [|destruct (contains obj i)].
  - unfold add_tedge, extend; simpl. by rewrite app_nil_r.
  - unfold add_tedge, extend; simpl. by rewrite app_nil_r.
  - by rewrite extend_nil.
Qed.

Lemma node_body_extend features densities probs idx_dict K sigma edit obj idx_values i g g' :
  node_body features densities probs idx_dict K sigma edit obj idx_values i g
    = (g', Ok tt) ->
  exists es, node_edges features densities probs idx_dict K sigma idx_values i es
             /\ g' = extend g (terminal_of edit obj i) es.
Proof.
  unfold node_body. intros H.
  apply bind_ok in H as (g1 & [] & Ht & Hl).
  rewrite add_terminal_extend in Ht. inversion Ht; subst g1.
  apply (for_each_extend (fun _ => [])
           (offset_edges features densities probs idx_dict K sigma i
                         (nth i idx_values (0, 0, 0)))) in Hl
    as (ess & HF & ->).
  - exists (concat ess). split; [by exists ess|].
    rewrite extend_extend. simpl. by rewrite app_nil_r.
  - intros a h h' Ha. by apply add_neighbor_edge_extend.
Qed.

(** ** Coordinates, node indices and [idx_dict] *)

Lemma in_range_spec n i : in_range n i = true <-> 0 <= i < Z.of_nat n.
Proof. unfold in_range. rewrite andb_true_iff, Z.leb_le, Z.ltb_lt. tauto. Qed.

Lemma in_bounds_spec x y z a b d :
  in_bounds (x, y, z) (a, b, d) = true <->
  0 <= a < Z.of_nat x /\ 0 <= b < Z.of_nat y /\ 0 <= d < Z.of_nat z.
Proof.
  unfold in_bounds. rewrite !andb_true_iff, !in_range_spec. tauto.
Qed.

Lemma In_arange n i : In i (arange n) <-> 0 <= i < Z.of_nat n.
Proof.
  unfold arange. rewrite in_map_iff. split.
  - intros (k & <- & Hk%in_seq). lia.
  - intros H. exists (Z.to_nat i). rewrite in_seq. lia.
Qed.

Lemma NoDup_arange n : List.NoDup (arange n).
Proof.
  unfold arange. apply Finite.Injective_map_NoDup.
  - intros a b. lia.
  - apply seq_NoDup.
Qed.

Lemma NoDup_flat_map_disjoint {A B} (f : A -> list B) (l : list A) :
  List.NoDup l ->
  (forall a, In a l -> List.NoDup (f a)) ->
  (forall a1 a2 b, In a1 l -> In a2 l -> In b (f a1) -> In b (f a2) -> a1 = a2) ->
  List.NoDup (flat_map f l).
Proof.
  induction 1 as [|a l Hnot Hnd IH]; intros Hf Hdis; simpl; [constructor|].
  apply List.NoDup_app.
  - apply Hf. by left.
  - apply IH.
    + intros a' Ha'. apply Hf. by right.
    + intros a1 a2 b H1 H2. apply Hdis; by right.
  - intros b Hb (a' & Ha' & Hb')%in_flat_map.
    assert (a = a') as -> by (eapply Hdis; eauto; [by left | by right]).
    contradiction.
Qed.

Lemma In_idx_grid sh c : In c (idx_grid sh) <-> in_bounds sh c = true.
Proof.
  destruct sh as [[x y] z], c as [[a b] d]. unfold idx_grid.
  rewrite in_bounds_spec, in_flat_map. split.
  - intros (a' & Ha & (b' & Hb & (d' & Heq & Hd)%in_map_iff)%in_flat_map).
    inversion Heq; subst. by rewrite !In_arange in *.
  - intros (Ha & Hb & Hd). exists a. rewrite In_arange. split; [done|].
    apply in_flat_map. exists b. rewrite In_arange. split; [done|].
    apply in_map_iff. exists d. by rewrite In_arange.
Qed.

Lemma NoDup_idx_grid sh : List.NoDup (idx_grid sh).
Proof.
  destruct sh as [[x y] z]. unfold idx_grid.
  apply NoDup_flat_map_disjoint; [apply NoDup_arange | |].
  - intros a _. apply NoDup_flat_map_disjoint; [apply NoDup_arange | |].
    + intros b _. apply Finite.Injective_map_NoDup; [|apply NoDup_arange].
      intros d d' Heq. by inversion Heq.
    + intros b1 b2 c _ _ (d1 & <- & _)%in_map_iff (d2 & Heq & _)%in_map_iff.
      by inversion Heq.
  - intros a1 a2 c _ _
      (b1 & _ & (d1 & <- & _)%in_map_iff)%in_flat_map
      (b2 & _ & (d2 & Heq & _)%in_map_iff)%in_flat_map.
    by inversion Heq.
Qed.

Lemma In_idx_values densities c :
  In c (idx_values_of densities) <->
  in_bounds (gshape densities) c = true /\ non_zero_densities densities c = true.
Proof. unfold idx_values_of. by rewrite filter_In, In_idx_grid. Qed.

Lemma NoDup_idx_values densities : List.NoDup (idx_values_of densities).
Proof. apply List.NoDup_filter, NoDup_idx_grid. Qed.

(** [gen_id] separates the coordinates of the grid. *)
Lemma gen_id_inj x y z c1 c2 :
  in_bounds (x, y, z) c1 = true -> in_bounds (x, y, z) c2 = true ->
  gen_id c1 x y = gen_id c2 x y -> c1 = c2.
Proof.
  destruct c1 as [[a1 b1] d1], c2 as [[a2 b2] d2].
  rewrite !in_bounds_spec. unfold gen_id.
  intros (Ha1 & Hb1 & Hd1) (Ha2 & Hb2 & Hd2) Heq.
  set (X := Z.of_nat x) in *. set (Y := Z.of_nat y) in *.
  assert (Ha : a1 = a2).
  { assert (H1 : (a1 + (b1 + d1 * Y) * X) mod X = a1)
      by (rewrite Z.mod_add by lia; apply Z.mod_small; lia).
    assert (H2 : (a2 + (b2 + d2 * Y) * X) mod X = a2)
      by (rewrite Z.mod_add by lia; apply Z.mod_small; lia).
    replace (a1 + (b1 + d1 * Y) * X) with (a2 + (b2 + d2 * Y) * X) in H1 by lia.
    congruence. }
  subst a2.
  assert (Hq : b1 + d1 * Y = b2 + d2 * Y) by nia.
  assert (Hb : b1 = b2).
  { assert (H1 : (b1 + d1 * Y) mod Y = b1)
      by (rewrite Z.mod_add by lia; apply Z.mod_small; lia).
    assert (H2 : (b2 + d2 * Y) mod Y = b2)
      by (rewrite Z.mod_add by lia; apply Z.mod_small; lia).
    congruence. }
  subst b2.
  assert (d1 = d2) by nia. by subst.
Qed.

(** The dictionary built by the loop of line 202. *)
Lemma fold_insert_lookup (key : coord -> Z) (l : list (nat * coord))
    (d : gmap Z nat) k v :
  List.NoDup (map (fun it => key (snd it)) l) ->
  fold_left (fun d it => <[key (snd it) := fst it]> d) l d !! k = Some v <->
  (exists c, In (v, c) l /\ key c = k) \/
  (d !! k = Some v /\ forall it, In it l -> key (snd it) <> k).
Proof.
  revert d. induction l as [|[i c] l IH]; intros d Hnd; simpl.
  - split; [intros H; right; by split | intros [(c & [] & _) | [H _]]; done].
  - inversion Hnd as [|? ? Hnot Hnd']; subst. rewrite IH by done. split.
    + intros [(c' & Hin & Hk) | [Hlk Hall]].
      * left. exists c'. split; [by right | done].
      * destruct (decide (key c = k)) as [Heq | Hne].
        -- rewrite <- Heq, lookup_insert_eq in Hlk. inversion Hlk; subst.
           left. exists c. split; [by left | done].
        -- rewrite lookup_insert_ne in Hlk by done. right. split; [done|].
           intros it [<- | Hin]; [done | by apply Hall].
    + intros [(c' & [Heq | Hin] & Hk) | [Hlk Hall]].
      * inversion Heq; subst. right. split; [by rewrite lookup_insert_eq|].
        intros it Hin Hk. apply Hnot. apply in_map_iff. by exists it.
      * left. by exists c'.
      * right. split.
        -- rewrite lookup_insert_ne; [done|]. apply (Hall (i, c)). by left.
        -- intros it Hin. apply Hall. by right.
Qed.

Lemma In_combine_seq {A} (l : list A) i a :
  In (i, a) (combine (seq 0 (length l)) l) <-> nth_error l i = Some a.
Proof.
  assert (G : forall s, In (i, a) (combine (seq s (length l)) l) <->
                        (s <= i)%nat /\ nth_error l (i - s) = Some a).
  { induction l as [|b l IH]; intros s; simpl.
    - split; [done | intros [_ H]; by destruct (i - s)%nat].
    - rewrite IH. split.
      + intros [Heq | [Hle Hn]].
        * inversion Heq; subst. by rewrite Nat.sub_diag.
        * split; [lia|]. by replace (i - s)%nat with (Datatypes.S (i - Datatypes.S s)) by lia.
      + intros [Hle Hn]. destruct (i - s)%nat as [|m] eqn:Hm.
        * left. inversion Hn. f_equal. lia.
        * right. split; [lia|]. by replace (i - Datatypes.S s)%nat with m by lia. }
  rewrite G, Nat.sub_0_r. split; [by intros [_ H] | split; [lia | done]].
Qed.

Lemma idx_dict_lookup densities k i :
  let '(x, y, z) := gshape densities in
  idx_dict_of (idx_values_of densities) x y !! k = Some i <->
  exists c, nth_error (idx_values_of densities) i = Some c /\ gen_id c x y = k.
Proof.
  destruct (gshape densities) as [[x y] z] eqn:Hsh. unfold idx_dict_of.
  assert (Hmap : map (fun it : nat * coord => gen_id (snd it) x y)
                   (combine (seq 0 (length (idx_values_of densities)))
                            (idx_values_of densities))
                 = map (fun c => gen_id c x y) (idx_values_of densities)).
  { rewrite <- (map_map snd (fun c => gen_id c x y)). f_equal.
    generalize 0%nat. induction (idx_values_of densities) as [|c l IH];
      intros s; simpl; [done | by rewrite IH]. }
  assert (Hnd : List.NoDup (map (fun it : nat * coord => gen_id (snd it) x y)
                   (combine (seq 0 (length (idx_values_of densities)))
                            (idx_values_of densities)))).
  { rewrite Hmap. apply NoDup_map_NoDup_ForallPairs; [|apply NoDup_idx_values].
    intros c1 c2 [H1 _]%In_idx_values [H2 _]%In_idx_values Heq.
    rewrite Hsh in H1, H2. by apply (gen_id_inj x y z). }
  pose proof (fold_insert_lookup (fun c => gen_id c x y) _ ∅ k i Hnd) as H.
  simpl in H. etransitivity; [exact H|]. split.
  - intros [(c & Hin & Hk) | [Hlk _]]; [|by rewrite lookup_empty in Hlk].
    exists c. by rewrite <- In_combine_seq.
  - intros (c & Hn & Hk). left. exists c. by rewrite In_combine_seq.
Qed.

(** ** What a run of [build_graph] that returns has done *)

Lemma lift_ok {A} (r : result A) g g' a :
  lift r g = (g', Ok a) -> r = Ok a /\ g' = g.
Proof. unfold lift. intros H. by inversion H. Qed.

Lemma mask_select_ok t densities idx_values v :
  mask_select t densities idx_values = Ok v ->
  shape_eqb (gshape t) (gshape densities) = true /\ v = map (gdata t) idx_values.
Proof.
  unfold mask_select. destruct (shape_eqb _ _); intros H; by inversion H.
Qed.

Lemma build_graph_ok solver randperm features densities edit_attn obj_attn
    K sigma g segments idxs :
  build_graph solver randperm features densities edit_attn obj_attn K sigma
    = (g, Ok (segments, idxs)) ->
  let idx_values := idx_values_of densities in
  let num_nodes := length idx_values in
  exists edit obj ess,
    seeds_of randperm densities edit_attn obj_attn = Ok (edit, obj)
    /\ idxs = idx_values
    /\ g_nodes g = num_nodes
    /\ g_tedges g = flat_map (terminal_of edit obj) (seq 0 num_nodes)
    /\ Forall2 (node_edges features densities
                            (probs_of densities edit_attn obj_attn)
                            (dict_of densities) K sigma idx_values)
                (seq 0 num_nodes) ess
    /\ g_edges g = concat ess
    /\ segments = map (solver g) (seq 0 num_nodes).
Proof.
  unfold build_graph, build_graph_body, seeds_of, probs_of, dict_of.
  destruct (gshape densities) as [[x y] z] eqn:Hsh; simpl fst; simpl snd.
  destruct (has_empty_axis _); [discriminate|].
  destruct (squeeze_mismatch _); [discriminate|].
  intros H.
  apply bind_ok in H as (g1 & [] & Hadd & H).
  apply bind_ok in H as (g2 & [] & Hguard & H).
  apply bind_ok in H as (g3 & ev & Hev & H).
  apply bind_ok in H as (g4 & ov & Hov & H).
  apply bind_ok in H as (g5 & [edit obj] & Hseeds & H).
  apply bind_ok in H as (g6 & [] & Hloop & H).
  apply bind_ok in H as (g7 & g8 & Hget & H).
  apply lift_ok in Hev as [Hev ->], Hov as [Hov ->], Hseeds as [Hseeds ->].
  unfold add_nodes in Hadd. inversion Hadd; subst g1; clear Hadd.
  assert (g2 = empty_graph_with (length (idx_values_of densities))) as ->.
  { destruct (_ && _); [discriminate|]. by inversion Hguard. }
  unfold get_graph in Hget. inversion Hget; subst g7 g8; clear Hget.
  inversion H; subst g segments idxs; clear H.
  destruct (mask_select_ok _ _ _ _ Hev) as [_ ->].
  destruct (mask_select_ok _ _ _ _ Hov) as [_ ->].
  simpl in Hloop.
  apply (for_each_extend (terminal_of edit obj)
           (node_edges features densities
              (attention_probs (map (gdata edit_attn) (idx_values_of densities))
                               (map (gdata obj_attn) (idx_values_of densities)))
              (idx_dict_of (idx_values_of densities) x y)
              K sigma (idx_values_of densities)))
    in Hloop as (ess & HF & ->).
  - exists edit, obj, ess. rewrite Hev, Hov. simpl. by rewrite Hseeds.
  - intros i h h' Hi. by apply node_body_extend.
Qed.

(** ** Cuts of the graph *)

Lemma cap_add_fin a b : is_fin (cap_add a b) <-> is_fin a /\ is_fin b.
Proof.
  destruct a as [u|], b as [v|]; simpl; split.
  - intros _. split; eexists; reflexivity.
  - intros _. eexists; reflexivity.
  - intros [w Hw]; discriminate.
  - intros [_ [w Hw]]; discriminate.
  - intros [w Hw]; discriminate.
  - intros [[w Hw] _]; discriminate.
  - intros [w Hw]; discriminate.
  - intros [[w Hw] _]; discriminate.
Qed.

Lemma cap_sum_fin l : is_fin (cap_sum l) <-> Forall is_fin l.
Proof.
  induction l as [|a l IH]; simpl.
  - split; [constructor | intros _; eexists; reflexivity].
  - rewrite cap_add_fin, IH. split.
    + intros [Ha Hl]. by constructor.
    + intros H. by inversion H.
Qed.

Lemma edge_cut_fin L e : is_fin (edge_cut L e).
Proof.
  destruct e as [[[i j] w] rw]. unfold edge_cut.
  destruct (L i), (L j); eexists; reflexivity.
Qed.

Lemma cut_capacity_fin g L :
  is_fin (cut_capacity g L) <-> Forall (fun t => is_fin (tedge_cut L t)) (g_tedges g).
Proof.
  unfold cut_capacity. rewrite cap_add_fin, !cap_sum_fin, !Forall_map.
  split; [tauto|]. intros H. split; [done|].
  apply Forall_forall. intros e _. apply edge_cut_fin.
Qed.

Lemma cap_le_fin a b : cap_le a b -> is_fin b -> is_fin a.
Proof.
  destruct a as [u|], b as [v|]; simpl; intros H [w Hw];
    try discriminate; try contradiction. eexists; reflexivity.
Qed.

Lemma In_terminal_of edit obj j t :
  In t (terminal_of edit obj j) ->
  (t = (j, Inf, Fin (lit 0)) /\ contains edit j = true) \/
  (t = (j, Fin (lit 0), Inf) /\ contains edit j = false /\ contains obj j = true).
Proof.
  unfold terminal_of.
  destruct (contains edit j); [|destruct (contains obj j)]; simpl.
  - intros [<- | []]. by left.
  - intros [<- | []]. by right.
  - intros [].
Qed.

(** The labelling that puts exactly the edit seeds on the source side cuts no
    infinite terminal edge. *)
Lemma seed_labelling_fin edit obj n g :
  g_tedges g = flat_map (terminal_of edit obj) (seq 0 n) ->
  is_fin (cut_capacity g (fun i => if contains edit i then SOURCE else SINK)).
Proof.
  intros Hg. apply cut_capacity_fin. rewrite Hg. apply List.Forall_forall.
  intros t (j & _ & Ht)%in_flat_map.
  apply In_terminal_of in Ht as [[-> He] | (-> & He & _)]; simpl; rewrite He;
    eexists; reflexivity.
Qed.

Lemma nth_error_idx_values_inj densities i j c :
  nth_error (idx_values_of densities) i = Some c ->
  nth_error (idx_values_of densities) j = Some c -> i = j.
Proof.
  intros Hi Hj.
  apply (proj1 (NoDup_nth_error (idx_values_of densities))
               (NoDup_idx_values densities)).
  - apply nth_error_Some. congruence.
  - congruence.
Qed.

(** C8. The coordinate-to-node-index mapping of one run is a bijection
    between the active voxels of the grid and [0, num_nodes): [gen_id] is
    injective on the coordinates of the grid; every active voxel has exactly
    one index, which [idx_dict] returns under its id; voxels that share an
    index are equal; every index below [num_nodes] belongs to an active
    voxel, and [idx_dict] has no entry for an inactive one. *)
Theorem node_index_bijection (densities : Grid num) :
  let sh := gshape densities in
  let x := fst (fst sh) in
  let y := snd (fst sh) in
  let idx_values := idx_values_of densities in
  let idx_dict := idx_dict_of idx_values x y in
  let num_nodes := length idx_values in
  (forall c1 c2, in_bounds sh c1 = true -> in_bounds sh c2 = true ->
                 gen_id c1 x y = gen_id c2 x y -> c1 = c2)
  /\ (forall c, in_bounds sh c = true -> non_zero_densities densities c = true ->
        exists i, (i < num_nodes)%nat
                  /\ nth_error idx_values i = Some c
                  /\ idx_dict !! gen_id c x y = Some i
                  /\ forall j, nth_error idx_values j = Some c -> j = i)
  /\ (forall c1 c2 i, in_bounds sh c1 = true -> in_bounds sh c2 = true ->
        idx_dict !! gen_id c1 x y = Some i -> idx_dict !! gen_id c2 x y = Some i ->
        c1 = c2)
  /\ (forall i, (i < num_nodes)%nat ->
        exists c, nth_error idx_values i = Some c
                  /\ in_bounds sh c = true
                  /\ non_zero_densities densities c = true
                  /\ idx_dict !! gen_id c x y = Some i)
  /\ (forall c i, in_bounds sh c = true -> idx_dict !! gen_id c x y = Some i ->
        non_zero_densities densities c = true /\ (i < num_nodes)%nat).
Proof.
  pose proof (idx_dict_lookup densities) as Hdict.
  destruct (gshape densities) as [[x y] z] eqn:Hsh. simpl.
  assert (Hin : forall i c, nth_error (idx_values_of densities) i = Some c ->
            in_bounds (x, y, z) c = true /\ non_zero_densities densities c = true).
  { intros i c Hn. apply nth_error_In in Hn. apply In_idx_values in Hn.
    by rewrite Hsh in Hn. }
  split; [|split; [|split; [|split]]].
  - intros c1 c2. apply gen_id_inj.
  - intros c Hb Ha.
    assert (Hc : In c (idx_values_of densities))
      by (apply In_idx_values; by rewrite Hsh).
    apply In_nth_error in Hc as [i Hi]. exists i. split; [|split; [|split]].
    + apply nth_error_Some. congruence.
    + done.
    + apply Hdict. by exists c.
    + intros j Hj. by apply (nth_error_idx_values_inj densities j i c).
  - intros c1 c2 i Hb1 Hb2 H1 H2.
    apply Hdict in H1 as (c1' & Hn1 & Hk1), H2 as (c2' & Hn2 & Hk2).
    assert (c1' = c2') by congruence. subst c2'.
    destruct (Hin _ _ Hn1) as [Hb _].
    apply (gen_id_inj x y z) in Hk1, Hk2; try done. congruence.
  - intros i Hi. destruct (nth_error (idx_values_of densities) i) as [c|] eqn:Hn.
    + exists c. destruct (Hin _ _ Hn) as [Hb Ha]. split; [done|].
      split; [done|]. split; [done|]. apply Hdict. by exists c.
    + apply nth_error_None in Hn. lia.
  - intros c i Hb Hlk. apply Hdict in Hlk as (c' & Hn & Hk).
    destruct (Hin _ _ Hn) as [Hb' Ha'].
    apply (gen_id_inj x y z) in Hk; try done. subst c'. split; [done|].
    apply nth_error_Some. congruence.
Qed.

Lemma In_tedges_of edit obj n i cs ck :
  In (i, cs, ck) (flat_map (terminal_of edit obj) (seq 0 n)) <->
  (i < n)%nat /\ In (i, cs, ck) (terminal_of edit obj i).
Proof.
  rewrite in_flat_map. split.
  - intros (j & Hj%in_seq & Ht).
    assert (j = i) as ->.
    { apply In_terminal_of in Ht as [[Heq _] | [Heq _]]; by inversion Heq. }
    split; [lia | done].
  - intros [Hi Ht]. exists i. split; [apply in_seq; lia | done].
Qed.

(** C10. A node index that is in both seed index tensors gets the terminal
    edge of an edit seed, (inf, 0), and no other: [add_terminal] tests edit
    membership first. *)
Theorem edit_seed_wins solver randperm features densities edit_attn obj_attn
    K sigma g segments idxs edit obj i :
  build_graph solver randperm features densities edit_attn obj_attn K sigma
    = (g, Ok (segments, idxs)) ->
  seeds_of randperm densities edit_attn obj_attn = Ok (edit, obj) ->
  (i < g_nodes g)%nat ->
  contains edit i = true ->
  contains obj i = true ->
  In (i, Inf, Fin (lit 0)) (g_tedges g)
  /\ forall cs ck, In (i, cs, ck) (g_tedges g) -> cs = Inf /\ ck = Fin (lit 0).
Proof.
  intros Hrun Hseeds Hi He Ho.
  apply build_graph_ok in Hrun
    as (edit' & obj' & ess & Hseeds' & _ & Hn & Ht & _).
  rewrite Hseeds in Hseeds'. inversion Hseeds'; subst edit' obj'.
  rewrite Ht, <- Hn. split.
  - apply In_tedges_of. split; [done|]. unfold terminal_of. rewrite He. by left.
  - intros cs ck [_ Hin]%In_tedges_of. unfold terminal_of in Hin.
    rewrite He in Hin. destruct Hin as [Heq | []]. by inversion Heq.
Qed.

(** C1. In the labelling of a solver that returns a minimum cut, every node
    whose index is in the edit seed tensor is on the source side (EDIT), and
    every node whose index is in the object seed tensor and not in the edit
    one is on the sink side (OBJECT): cutting their infinite terminal edge
    costs more than the cut that follows the seeds. *)
Theorem seeds_respected solver randperm features densities edit_attn obj_attn
    K sigma g segments idxs edit obj i :
  build_graph solver randperm features densities edit_attn obj_attn K sigma
    = (g, Ok (segments, idxs)) ->
  seeds_of randperm densities edit_attn obj_attn = Ok (edit, obj) ->
  is_min_cut g (solver g) ->
  (i < g_nodes g)%nat ->
  (contains edit i = true -> nth_error segments i = Some SOURCE)
  /\ (contains obj i = true -> contains edit i = false ->
      nth_error segments i = Some SINK).
Proof.
  intros Hrun Hseeds Hmin Hi.
  apply build_graph_ok in Hrun
    as (edit' & obj' & ess & Hseeds' & _ & Hn & Ht & _ & He & ->).
  rewrite Hseeds in Hseeds'. inversion Hseeds'; subst edit' obj'.
  assert (Hseg : nth_error (map (solver g) (seq 0 (length (idx_values_of densities)))) i
                 = Some (solver g i)).
  { rewrite nth_error_map, nth_error_seq.
    destruct (Nat.ltb_spec i (length (idx_values_of densities))); [done | lia]. }
  rewrite Hseg.
  assert (Hfin : is_fin (cut_capacity g (solver g))).
  { eapply cap_le_fin; [apply Hmin|]. eapply seed_labelling_fin, Ht. }
  apply cut_capacity_fin in Hfin. rewrite List.Forall_forall in Hfin.
  split.
  - intros Hedit.
    assert (Hin : In (i, Inf, Fin (lit 0)) (g_tedges g)).
    { rewrite Ht. apply In_tedges_of. split; [lia|].
      unfold terminal_of. rewrite Hedit. by left. }
    apply Hfin in Hin. simpl in Hin.
    destruct (solver g i); [done|]. destruct Hin as [w Hw]. discriminate.
  - intros Hobj Hedit.
    assert (Hin : In (i, Fin (lit 0), Inf) (g_tedges g)).
    { rewrite Ht. apply In_tedges_of. split; [lia|].
      unfold terminal_of. rewrite Hedit, Hobj. by left. }
    apply Hfin in Hin. simpl in Hin.
    destruct (solver g i); [|done]. destruct Hin as [w Hw]. discriminate.
Qed.

(** ** The edges between nodes *)

Lemma result_bind_ok {A B} (r : result A) (k : A -> result B) b :
  r ≫= k = Ok b -> exists a, r = Ok a /\ k a = Ok b.
Proof. destruct r as [a|e]; simpl; intros H; [by exists a | discriminate]. Qed.

Lemma tensor_index_ok {A} s (t : Grid A) c a :
  tensor_index s t c = Ok a -> a = gdata t c.
Proof. unfold tensor_index. destruct (in_bounds _ _); intros H; by inversion H. Qed.

Lemma passes_bounds_checks_in_bounds sh n :
  passes_bounds_checks sh n = true -> in_bounds sh n = true.
Proof.
  destruct sh as [[x y] z], n as [[a b] d].
  unfold passes_bounds_checks, any_ge, any_neg.
  rewrite in_bounds_spec, andb_true_iff, !negb_true_iff, !orb_false_iff.
  rewrite !Z.leb_gt, !Z.ltb_ge. lia.
Qed.

Lemma neighbor_edge_inv features densities probs idx_dict K sigma i nidx off r :
  neighbor_edge features densities probs idx_dict K sigma i nidx off = Ok r ->
  let n := coord_add nidx off in
  let x := fst (fst (gshape densities)) in
  let y := snd (fst (gshape densities)) in
  (r = None /\ (passes_bounds_checks (gshape densities) n = false
                \/ fleb (gdata densities n) (lit 0) = true))
  \/ (passes_bounds_checks (gshape densities) n = true
      /\ fleb (gdata densities n) (lit 0) = false
      /\ exists j l2p,
           idx_dict !! gen_id n x y = Some j
           /\ l2_probs_of probs i nidx = Ok l2p
           /\ r = Some (i, j,
                       affinity K sigma
                         (l2 (gdata features nidx) (gdata features n)) l2p,
                       affinity K sigma
                         (l2 (gdata features nidx) (gdata features n)) l2p)).
Proof.
  unfold neighbor_edge, passes_bounds_checks.
  destruct (gshape densities) as [[x y] z]; simpl fst; simpl snd.
  destruct (any_ge _ x || any_ge _ y || any_ge _ z); simpl.
  { intros H; inversion H. left. by split; [|left]. }
  destruct (any_neg _); simpl.
  { intros H; inversion H. left. by split; [|left]. }
  destruct (fleb _ _).
  { intros H; inversion H. left. by split; [|right]. }
  destruct (idx_dict !! _) as [j|]; [|discriminate].
  intros H.
  apply result_bind_ok in H as (nf & Hnf & H).
  apply result_bind_ok in H as (nbf & Hnbf & H).
  apply result_bind_ok in H as (l2p & Hl2p & H).
  apply tensor_index_ok in Hnf, Hnbf. subst nf nbf.
  inversion H. right. split; [done|]. split; [done|]. by exists j, l2p.
Qed.

Lemma In_concat_Forall2 {A B} (E : A -> list B -> Prop) l ess b :
  Forall2 E l ess -> In b (concat ess) ->
  exists a es, In a l /\ E a es /\ In b es.
Proof.
  induction 1 as [|a es l ess HE HF IH]; simpl; [done|].
  intros [Hb | Hb]%in_app_or.
  - exists a, es. split; [by left | done].
  - destruct (IH Hb) as (a' & es' & Ha' & HE' & Hb'). exists a', es'.
    split; [by right | done].
Qed.

Lemma Forall2_In_l {A B} (E : A -> B -> Prop) l l' a :
  Forall2 E l l' -> In a l -> exists b, In b l' /\ E a b.
Proof.
  induction 1 as [|a' b' l l' HE HF IH]; simpl; [done|].
  intros [<- | Ha].
  - exists b'. split; [by left | done].
  - destruct (IH Ha) as (b & Hb & HEb). exists b. split; [by right | done].
Qed.

(** Every edge of a returning run was added by one pass of the neighbour
    loop. *)
Lemma In_edges_inv features densities probs idx_dict K sigma idx_values n ess e :
  Forall2 (node_edges features densities probs idx_dict K sigma idx_values)
          (seq 0 n) ess ->
  In e (concat ess) ->
  exists i off,
    (i < n)%nat /\ In off g_neighbor_offsets
    /\ neighbor_edge features densities probs idx_dict K sigma i
                     (nth i idx_values (0, 0, 0)) off = Ok (Some e).
Proof.
  intros HF He.
  destruct (In_concat_Forall2 _ _ _ _ HF He) as (i & es & Hi & (ess' & HF' & ->) & He').
  destruct (In_concat_Forall2 _ _ _ _ HF' He') as (off & es' & Hoff & (r & Hr & ->) & He'').
  exists i, off. apply in_seq in Hi. split; [lia|]. split; [done|].
  destruct r as [e'|]; simpl in He''; [|done].
  destruct He'' as [<- | []]. done.
Qed.

(** ... and every pass of the loop went through without raising. *)
Lemma neighbor_edge_total features densities probs idx_dict K sigma idx_values n ess i off :
  Forall2 (node_edges features densities probs idx_dict K sigma idx_values)
          (seq 0 n) ess ->
  (i < n)%nat -> In off g_neighbor_offsets ->
  exists r, neighbor_edge features densities probs idx_dict K sigma i
                          (nth i idx_values (0, 0, 0)) off = Ok r
            /\ forall e, r = Some e -> In e (concat ess).
Proof.
  intros HF Hi Hoff.
  assert (Hin : In i (seq 0 n)) by (apply in_seq; lia).
  destruct (Forall2_In_l _ _ _ _ HF Hin) as (es & Hes & (ess' & HF' & ->)).
  destruct (Forall2_In_l _ _ _ _ HF' Hoff) as (es' & Hes' & (r & Hr & ->)).
  exists r. split; [done|]. intros e ->.
  apply in_concat. exists (concat ess'). split; [done|].
  apply in_concat. exists [e]. split; [done | by left].
Qed.

Lemma dict_of_lookup densities k i :
  dict_of densities !! k = Some i <->
  exists c, nth_error (idx_values_of densities) i = Some c
            /\ gen_id c (fst (fst (gshape densities))) (snd (fst (gshape densities))) = k.
Proof.
  pose proof (idx_dict_lookup densities k i) as H. unfold dict_of.
  by destruct (gshape densities) as [[x y] z].
Qed.

Lemma gen_id_inj_grid (densities : Grid num) c1 c2 :
  in_bounds (gshape densities) c1 = true -> in_bounds (gshape densities) c2 = true ->
  gen_id c1 (fst (fst (gshape densities))) (snd (fst (gshape densities)))
  = gen_id c2 (fst (fst (gshape densities))) (snd (fst (gshape densities))) ->
  c1 = c2.
Proof. destruct (gshape densities) as [[x y] z]. apply gen_id_inj. Qed.

Lemma coord_add_offset_neq c off :
  In off g_neighbor_offsets -> coord_add c off <> c.
Proof.
  destruct c as [[a b] d]. unfold g_neighbor_offsets. simpl.
  intros [<- | [<- | [<- | [<- | [<- | [<- | []]]]]]]; simpl; intros H;
    inversion H; lia.
Qed.

Lemma coord_add_inj c o1 o2 : coord_add c o1 = coord_add c o2 -> o1 = o2.
Proof.
  destruct c as [[a b] d], o1 as [[a1 b1] d1], o2 as [[a2 b2] d2]. simpl.
  intros H. inversion H. f_equal; [f_equal|]; lia.
Qed.

Lemma nth_error_nth_default {A} (l : list A) i d :
  (i < length l)%nat -> nth_error l i = Some (nth i l d).
Proof. intros H. by apply nth_error_nth'. Qed.

(** The step of the neighbour loop that leads from node [i] to a neighbour
    that passed the three tests. *)
Lemma neighbor_edge_node features densities probs K sigma i off r :
  (i < length (idx_values_of densities))%nat ->
  neighbor_edge features densities probs (dict_of densities) K sigma i
                (nth i (idx_values_of densities) (0, 0, 0)) off = Ok r ->
  let va := nth i (idx_values_of densities) (0, 0, 0) in
  let n := coord_add va off in
  (r = None /\ (passes_bounds_checks (gshape densities) n = false
                \/ fleb (gdata densities n) (lit 0) = true))
  \/ (passes_bounds_checks (gshape densities) n = true
      /\ fleb (gdata densities n) (lit 0) = false
      /\ exists j l2p,
           nth_error (idx_values_of densities) j = Some n
           /\ r = Some (i, j,
                       affinity K sigma (l2 (gdata features va) (gdata features n)) l2p,
                       affinity K sigma (l2 (gdata features va) (gdata features n)) l2p)).
Proof.
  intros Hi Hr. apply neighbor_edge_inv in Hr as [Hnone | (Hb & Hd & j & l2p & Hlk & _ & ->)];
    [by left | right].
  split; [done|]. split; [done|]. exists j, l2p. split; [|done].
  apply dict_of_lookup in Hlk as (c & Hc & Hk).
  assert (Hcb : in_bounds (gshape densities) c = true).
  { apply nth_error_In in Hc. by apply In_idx_values in Hc as [? _]. }
  apply gen_id_inj_grid in Hk; [by subst c | done |].
  by apply passes_bounds_checks_in_bounds.
Qed.

Lemma filter_nil_iff {A} (P : A -> bool) l :
  (forall a, In a l -> P a = false) -> List.filter P l = [].
Proof.
  induction l as [|a l IH]; simpl; intros H; [done|].
  rewrite (H a) by (by left). apply IH. intros b Hb. apply H. by right.
Qed.

Lemma filter_concat_single {A B} (E : A -> list B -> Prop) (P : B -> bool)
    l ess a x :
  Forall2 E l ess -> List.NoDup l -> In a l ->
  (forall a' es, In a' l -> a' <> a -> E a' es -> List.filter P es = []) ->
  (forall es, E a es -> List.filter P es = x) ->
  List.filter P (concat ess) = x.
Proof.
  assert (Hnone : forall l ess, Forall2 E l ess -> ~ In a l ->
            (forall a' es, In a' l -> a' <> a -> E a' es -> List.filter P es = []) ->
            List.filter P (concat ess) = []).
  { induction 1 as [|a' es l' ess' HE HF IH]; simpl; intros Hnot Hoth; [done|].
    rewrite List.filter_app, (Hoth a' es); try done.
    - simpl. apply IH; [tauto|]. intros a'' es' Hin. apply Hoth. by right.
    - by left.
    - intros ->. apply Hnot. by left. }
  induction 1 as [|a' es l' ess' HE HF IH]; simpl; intros Hnd Ha Hoth Hsame; [done|].
  inversion Hnd as [|? ? Hnot Hnd']; subst. rewrite List.filter_app.
  destruct Ha as [-> | Ha].
  - rewrite (Hsame es HE), (Hnone l' ess' HF Hnot).
    + by rewrite app_nil_r.
    + intros a'' es' Hin. apply Hoth. by right.
  - rewrite (Hoth a' es); try done.
    + simpl. apply IH; try done. intros a'' es' Hin. apply Hoth. by right.
    + by left.
    + intros ->. contradiction.
Qed.

Lemma NoDup_g_neighbor_offsets : List.NoDup g_neighbor_offsets.
Proof.
  unfold g_neighbor_offsets.
  repeat (apply List.NoDup_cons; [simpl; intuition discriminate |]).
  apply List.NoDup_nil.
Qed.

Lemma edge_of_run solver randperm features densities edit_attn obj_attn
    K sigma g segments idxs a b w rw :
  build_graph solver randperm features densities edit_attn obj_attn K sigma
    = (g, Ok (segments, idxs)) ->
  In (a, b, w, rw) (g_edges g) ->
  exists va off l2p,
    nth_error (idx_values_of densities) a = Some va
    /\ In off g_neighbor_offsets
    /\ nth_error (idx_values_of densities) b = Some (coord_add va off)
    /\ passes_bounds_checks (gshape densities) (coord_add va off) = true
    /\ fleb (gdata densities (coord_add va off)) (lit 0) = false
    /\ w = affinity K sigma
             (l2 (gdata features va) (gdata features (coord_add va off))) l2p
    /\ rw = w.
Proof.
  intros Hrun Hin.
  apply build_graph_ok in Hrun as (edit & obj & ess & _ & _ & _ & _ & HF & He & _).
  rewrite He in Hin.
  destruct (In_edges_inv _ _ _ _ _ _ _ _ _ _ HF Hin) as (i & off & Hi & Hoff & Hr).
  apply neighbor_edge_node in Hr as [[Hnone _] | (Hb & Hd & j & l2p & Hj & Hr)];
    [discriminate | | done].
  inversion Hr; subst a b w rw.
  exists (nth i (idx_values_of densities) (0, 0, 0)), off, l2p.
  split; [by apply nth_error_nth_default|]. done.
Qed.

(** C6 (as the code has it). In the graph of a returning run every edge
    joins the nodes of two distinct active voxels of the grid that are face
    neighbours, with the same weight in both directions, and its target
    voxel passes the bounds tests of lines 278-283 and has positive density.
    The calls of [add_edge] for an ordered pair of nodes (a, b) are counted:
    exactly one when the voxel of b is a face neighbour of the voxel of a,
    passes the bounds tests and has positive density; none when the voxel of
    b fails the bounds tests or has a density that is not positive (it is
    a node all the same when a neighbour in its plane has density), and none
    when it is not a face neighbour.  The bounds tests compare every
    coordinate with each of x, y and z, so that on a grid that is not a cube
    they reject voxels of the grid. *)
Theorem edges_join_dense_neighbours solver randperm features densities
    edit_attn obj_attn K sigma g segments idxs :
  build_graph solver randperm features densities edit_attn obj_attn K sigma
    = (g, Ok (segments, idxs)) ->
  let sh := gshape densities in
  let idx_values := idx_values_of densities in
  (forall a b w rw, In (a, b, w, rw) (g_edges g) ->
     rw = w /\ a <> b
     /\ exists va off,
          nth_error idx_values a = Some va
          /\ In off g_neighbor_offsets
          /\ nth_error idx_values b = Some (coord_add va off)
          /\ in_bounds sh va = true
          /\ in_bounds sh (coord_add va off) = true
          /\ non_zero_densities densities va = true
          /\ non_zero_densities densities (coord_add va off) = true
          /\ passes_bounds_checks sh (coord_add va off) = true
          /\ fleb (gdata densities (coord_add va off)) (lit 0) = false)
  /\ (forall a va off,
        nth_error idx_values a = Some va ->
        In off g_neighbor_offsets ->
        passes_bounds_checks sh (coord_add va off) = true ->
        fleb (gdata densities (coord_add va off)) (lit 0) = false ->
        exists b w,
          nth_error idx_values b = Some (coord_add va off)
          /\ edge_additions g a b = [(a, b, w, w)])
  /\ (forall a b vb,
        nth_error idx_values b = Some vb ->
        passes_bounds_checks sh vb = false
        \/ fleb (gdata densities vb) (lit 0) = true ->
        edge_additions g a b = [])
  /\ (forall a b va vb,
        nth_error idx_values a = Some va ->
        nth_error idx_values b = Some vb ->
        (forall off, In off g_neighbor_offsets -> vb <> coord_add va off) ->
        edge_additions g a b = [])
  /\ (forall c0 c1 c2,
        passes_bounds_checks sh (c0, c1, c2) = true <->
        let '(x, y, z) := sh in
        let m := Z.of_nat (Nat.min x (Nat.min y z)) in
        0 <= c0 < m /\ 0 <= c1 < m /\ 0 <= c2 < m).
Proof.
  intros Hrun sh idx_values. subst sh idx_values.
  assert (Hsound : forall a b w rw, In (a, b, w, rw) (g_edges g) ->
            exists va off l2p,
              nth_error (idx_values_of densities) a = Some va
              /\ In off g_neighbor_offsets
              /\ nth_error (idx_values_of densities) b = Some (coord_add va off)
              /\ passes_bounds_checks (gshape densities) (coord_add va off) = true
              /\ fleb (gdata densities (coord_add va off)) (lit 0) = false
              /\ w = affinity K sigma
                       (l2 (gdata features va) (gdata features (coord_add va off))) l2p
              /\ rw = w)
    by (intros a b w rw; by apply (edge_of_run _ _ _ _ _ _ _ _ _ _ _ _ _ _ _ Hrun)).
  split; [|split; [|split; [|split]]].
  - intros a b w rw Hin.
    destruct (Hsound _ _ _ _ Hin) as (va & off & l2p & Ha & Hoff & Hb & Hpb & Hd & _ & Hrw).
    split; [done|]. split.
    + intros ->. rewrite Ha in Hb. inversion Hb as [Heq].
      symmetry in Heq. by apply coord_add_offset_neq in Heq.
    + exists va, off.
      pose proof (nth_error_In _ _ Ha) as [Ha1 Ha2]%In_idx_values.
      pose proof (nth_error_In _ _ Hb) as [Hb1 Hb2]%In_idx_values.
      done.
  - intros a va off Ha Hoff Hpb Hd.
    pose proof Hrun as Hok.
    apply build_graph_ok in Hok as (edit & obj & ess & _ & _ & _ & _ & HF & He & _).
    assert (Hlt : (a < length (idx_values_of densities))%nat)
      by (apply nth_error_Some; congruence).
    assert (Hva : nth a (idx_values_of densities) (0, 0, 0) = va).
    { apply (nth_error_nth_default _ _ (0, 0, 0)) in Hlt. congruence. }
    destruct (neighbor_edge_total _ _ _ _ _ _ _ _ _ a off HF Hlt Hoff) as (r & Hr & _).
    pose proof Hr as Hr'.
    apply neighbor_edge_node in Hr' as [[_ [Hc | Hc]] | (_ & _ & b & l2p & Hb & ->)];
      [rewrite Hva in Hc; congruence
      | rewrite Hva in Hc; congruence | | done].
    rewrite Hva in Hb, Hr. exists b. eexists. split; [exact Hb|].
    unfold edge_additions. rewrite He.
    apply (filter_concat_single _ _ _ _ a _ HF); [apply seq_NoDup | apply in_seq; lia | |].
    + intros a' es Ha' Hne (ess' & HF' & ->). apply filter_nil_iff.
      intros [[[i j] w] rw] Hin.
      destruct (In_concat_Forall2 _ _ _ _ HF' Hin) as (off' & es' & _ & (r' & Hr' & ->) & Hin').
      destruct r' as [e'|]; [|done]. destruct Hin' as [-> | []].
      apply neighbor_edge_inv in Hr' as [[Hn _] | (_ & _ & j' & l2p' & _ & _ & Heq)];
        [discriminate|].
      inversion Heq; subst.
      destruct (Nat.eqb_spec a' a); [contradiction | done].
    + intros es (ess' & HF' & ->). rewrite Hva in HF'.
      apply (filter_concat_single _ _ _ _ off _ HF');
        [apply NoDup_g_neighbor_offsets | done | |].
      * intros off' es' Hoff' Hne (r' & Hr' & ->).
        apply filter_nil_iff. intros e' Hin'.
        destruct r' as [e''|]; [|done]. destruct Hin' as [<- | []].
        rewrite <- Hva in Hr'.
        apply neighbor_edge_node in Hr' as [[Hn _] | (_ & _ & j' & l2p' & Hj' & Heq)];
          [discriminate | | done].
        inversion Heq; subst e''. rewrite Hva in Hj'.
        destruct (Nat.eqb_spec j' b) as [-> | Hnb]; [|by rewrite andb_false_r].
        rewrite Hb in Hj'. inversion Hj' as [Hc].
        apply coord_add_inj in Hc. congruence.
      * intros es' (r' & Hr' & ->). rewrite Hr in Hr'. inversion Hr'; subst r'.
        simpl. by rewrite !Nat.eqb_refl.
  - intros a b vb Hb Hd. unfold edge_additions. apply filter_nil_iff.
    intros [[[i j] w] rw] Hin.
    destruct (Hsound _ _ _ _ Hin) as (va & off & l2p & _ & _ & Hj & Hpb' & Hd' & _).
    destruct (Nat.eqb_spec j b) as [-> | Hnb]; [|by rewrite andb_false_r].
    rewrite Hb in Hj. inversion Hj; subst vb. destruct Hd; congruence.
  - intros a b va vb Ha Hb Hfar. unfold edge_additions. apply filter_nil_iff.
    intros [[[i j] w] rw] Hin.
    destruct (Hsound _ _ _ _ Hin) as (va' & off & l2p & Hi & Hoff & Hj & _).
    destruct (Nat.eqb_spec i a) as [-> | Hna]; [|done].
    destruct (Nat.eqb_spec j b) as [-> | Hnb]; [|by rewrite andb_false_r].
    rewrite Ha in Hi. inversion Hi; subst va'.
    rewrite Hb in Hj. inversion Hj as [Hvb]. by apply Hfar in Hvb.
  - intros c0 c1 c2. destruct (gshape densities) as [[x y] z].
    unfold passes_bounds_checks, any_ge, any_neg.
    rewrite andb_true_iff, !negb_true_iff, !orb_false_iff.
    rewrite !Z.leb_gt, !Z.ltb_ge. lia.
Qed.

(** ** The seeds *)

Lemma insert_desc_perm x l : Permutation (insert_desc x l) (x :: l).
Proof.
  induction l as [|y l IH]; simpl; [done|].
  destruct (fltb (snd x) (snd y)); [|done].
  rewrite IH. apply perm_swap.
Qed.

Lemma sort_desc_perm l : Permutation (sort_desc l) l.
Proof.
  induction l as [|x l IH]; simpl; [done|].
  rewrite insert_desc_perm. by constructor.
Qed.

Lemma map_fst_combine_seq {A} (l : list A) s :
  map fst (combine (seq s (length l)) l) = seq s (length l).
Proof.
  revert s. induction l as [|a l IH]; intros s; simpl; [done | by rewrite IH].
Qed.

Lemma torch_topk_ok (v : list num) k :
  (k <= length v)%nat ->
  exists idx, torch_topk v k = Ok idx
              /\ length idx = k
              /\ List.NoDup idx
              /\ forall i, In i idx -> (i < length v)%nat.
Proof.
  intros Hk. unfold torch_topk.
  destruct (Nat.ltb_spec (length v) k) as [Hlt | _]; [lia|].
  set (sorted := map fst (sort_desc (combine (seq 0 (length v)) v))).
  assert (Hperm : Permutation sorted (seq 0 (length v))).
  { unfold sorted. rewrite sort_desc_perm. by rewrite map_fst_combine_seq. }
  exists (firstn k sorted). split; [done|]. split; [|split].
  - rewrite length_firstn. apply Permutation_length in Hperm.
    rewrite length_seq in Hperm. lia.
  - assert (Hnd : List.NoDup sorted).
    { eapply Permutation_NoDup; [symmetry; exact Hperm | apply seq_NoDup]. }
    rewrite <- (firstn_skipn k sorted) in Hnd. by apply NoDup_app_remove_r in Hnd.
  - intros i Hi. assert (Hin : In i sorted).
    { rewrite <- (firstn_skipn k sorted). apply in_or_app. by left. }
    eapply Permutation_in in Hin; [|exact Hperm]. apply in_seq in Hin. lia.
Qed.

Lemma torch_topk_short (v : list num) k :
  (length v < k)%nat -> torch_topk v k = Raise (RuntimeError TopK).
Proof.
  intros Hk. unfold torch_topk.
  by destruct (Nat.ltb_spec (length v) k) as [_ | Hge]; [|lia].
Qed.

Lemma index_select_ok {A} s (t : list A) idx :
  (forall j, In j idx -> (j < length t)%nat) ->
  exists r, index_select s t idx = Ok r.
Proof.
  induction idx as [|j idx IH]; intros H; simpl; [by eexists|].
  destruct (nth_error t j) as [a|] eqn:Hj.
  - destruct IH as [r ->]; [intros k Hk; apply H; by right|]. by eexists.
  - apply nth_error_None in Hj. specialize (H j (or_introl eq_refl)). lia.
Qed.

Lemma obj_subsample_ok randperm (obj_idxs : list nat) :
  (forall n, Permutation (randperm n) (seq 0 n)) ->
  exists r, index_select ObjSubsample obj_idxs
              (firstn num_obj_voxels_thresh (randperm (length obj_idxs))) = Ok r.
Proof.
  intros Hperm. apply index_select_ok. intros j Hj.
  assert (Hin : In j (randperm (length obj_idxs))).
  { rewrite <- (firstn_skipn num_obj_voxels_thresh). apply in_or_app. by left. }
  eapply Permutation_in in Hin; [|apply Hperm]. apply in_seq in Hin. lia.
Qed.

(** On a comparison that behaves as an order, [torch_topk] returns positions
    whose entries are not smaller than any entry left out. *)
Lemma insert_desc_sorted x l :
  (forall a b : num, fltb a b = true -> fltb b a = false) ->
  (forall a b c : num, fltb a b = false -> fltb b c = false -> fltb a c = false) ->
  StronglySorted (fun p q => fltb (snd p) (snd q) = false) l ->
  StronglySorted (fun p q => fltb (snd p) (snd q) = false) (insert_desc x l).
Proof.
  intros Hasym Htrans. induction 1 as [|y l Hl IH Hy]; simpl.
  - constructor; constructor.
  - destruct (fltb (snd x) (snd y)) eqn:Hxy.
    + constructor; [exact IH|].
      apply List.Forall_forall. intros z Hz.
      eapply Permutation_in in Hz; [|apply insert_desc_perm].
      destruct Hz as [<- | Hz]; [by apply Hasym|].
      rewrite List.Forall_forall in Hy. by apply Hy.
    + constructor; [by constructor|].
      constructor; [exact Hxy|].
      rewrite List.Forall_forall in Hy. apply List.Forall_forall.
      intros z Hz. eapply Htrans; [exact Hxy | by apply Hy].
Qed.

Lemma sort_desc_sorted l :
  (forall a b : num, fltb a b = true -> fltb b a = false) ->
  (forall a b c : num, fltb a b = false -> fltb b c = false -> fltb a c = false) ->
  StronglySorted (fun p q => fltb (snd p) (snd q) = false) (sort_desc l).
Proof.
  intros Hasym Htrans. induction l as [|x l IH]; simpl; [constructor|].
  by apply insert_desc_sorted.
Qed.

Lemma StronglySorted_app_inv {A} (R : A -> A -> Prop) l1 l2 a b :
  StronglySorted R (l1 ++ l2) -> In a l1 -> In b l2 -> R a b.
Proof.
  induction l1 as [|x l1 IH]; simpl; [done|].
  intros Hs [<- | Ha] Hb.
  - apply StronglySorted_inv in Hs as [_ Hall].
    rewrite List.Forall_forall in Hall. apply Hall, in_or_app. by right.
  - apply StronglySorted_inv in Hs as [Hs _]. by apply IH.
Qed.

Lemma In_combine_seq_nth (v : list num) i a d :
  In (i, a) (combine (seq 0 (length v)) v) -> a = nth i v d.
Proof.
  intros Hin%In_combine_seq. symmetry. by apply nth_error_nth.
Qed.

Lemma torch_topk_largest (v : list num) k idx i j d :
  (forall a b : num, fltb a b = true -> fltb b a = false) ->
  (forall a b c : num, fltb a b = false -> fltb b c = false -> fltb a c = false) ->
  torch_topk v k = Ok idx ->
  In i idx -> (j < length v)%nat -> ~ In j idx ->
  fltb (nth i v d) (nth j v d) = false.
Proof.
  intros Hasym Htrans Htop Hi Hj Hnj. unfold torch_topk in Htop.
  destruct (length v <? k)%nat; [discriminate|]. inversion Htop; subst idx; clear Htop.
  set (sorted := sort_desc (combine (seq 0 (length v)) v)) in *.
  assert (Hsorted : StronglySorted (fun p q => fltb (snd p) (snd q) = false) sorted)
    by (by apply sort_desc_sorted).
  assert (Hperm : Permutation sorted (combine (seq 0 (length v)) v))
    by apply sort_desc_perm.
  rewrite <- (firstn_skipn k sorted) in Hsorted.
  rewrite firstn_map in Hi, Hnj.
  apply in_map_iff in Hi as ([i' a] & Heq & Hia). simpl in Heq; subst i'.
  assert (Hja : In (j, nth j v d) sorted).
  { eapply Permutation_in; [symmetry; exact Hperm|].
    apply In_combine_seq. by apply nth_error_nth'. }
  rewrite <- (firstn_skipn k sorted) in Hja.
  apply in_app_or in Hja as [Hja | Hja].
  { exfalso. apply Hnj. apply in_map_iff. by exists (j, nth j v d). }
  pose proof (StronglySorted_app_inv _ _ _ _ _ Hsorted Hia Hja) as HR.
  simpl in HR.
  assert (Ha : a = nth i v d).
  { apply In_combine_seq_nth. eapply Permutation_in; [exact Hperm|].
    rewrite <- (firstn_skipn k sorted). apply in_or_app. by left. }
  by rewrite <- Ha.
Qed.

(** C2 (as the code has it). When the primary rule selects fewer than 300
    voxels, the fallback asks [torch.topk] for the 300 largest raw edit
    attentions and the 200 largest raw object attentions.  With at least 300
    active voxels this gives exactly 300 distinct edit seeds; with fewer,
    [torch.topk] (or, for an empty set, [torch.max]) raises a RuntimeError and
    no seeds are returned. *)
Theorem fallback_top_k (randperm : nat -> list nat)
    (edit_attn_vals obj_attn_vals : list num) :
  (forall n, Permutation (randperm n) (seq 0 n)) ->
  length obj_attn_vals = length edit_attn_vals ->
  let probs := attention_probs edit_attn_vals obj_attn_vals in
  (forall top, torch_max (map fst probs) = Ok top ->
     (mask_sum (best_voxels_edit_mask probs top) < min_num_edit_voxels)%nat) ->
  ((top_k_edit_thresh <= length edit_attn_vals)%nat ->
     exists edit obj,
       select_seeds randperm edit_attn_vals obj_attn_vals probs = Ok (edit, obj)
       /\ torch_topk edit_attn_vals top_k_edit_thresh = Ok edit
       /\ length edit = top_k_edit_thresh
       /\ List.NoDup edit
       /\ (forall i, In i edit -> (i < length edit_attn_vals)%nat)
       /\ torch_topk obj_attn_vals top_k_obj_thresh = Ok obj
       /\ length obj = top_k_obj_thresh)
  /\ ((length edit_attn_vals < top_k_edit_thresh)%nat ->
      exists s, select_seeds randperm edit_attn_vals obj_attn_vals probs
                = Raise (RuntimeError s)).
Proof.
  intros Hperm Hlen probs Hfew. unfold select_seeds.
  destruct (torch_max (map fst probs)) as [top|e] eqn:Hmax; simpl.
  - specialize (Hfew top eq_refl).
    destruct (obj_subsample_ok randperm
                (nonzero (map (fun p => fltb (fst p) (snd p)) probs)) Hperm)
      as [sub ->]. simpl.
    destruct (Nat.ltb_spec (mask_sum (best_voxels_edit_mask probs top))
                           min_num_edit_voxels) as [_ | Hge]; [|lia].
    split.
    + intros Hk.
      destruct (torch_topk_ok edit_attn_vals top_k_edit_thresh Hk)
        as (edit & He & Hl & Hnd & Hb).
      destruct (torch_topk_ok obj_attn_vals top_k_obj_thresh)
        as (obj & Ho & Hlo & _); [unfold top_k_obj_thresh, top_k_edit_thresh in *; lia|].
      exists edit, obj. rewrite He, Ho. simpl. done.
    + intros Hk. exists TopK. by rewrite (torch_topk_short _ _ Hk).
  - split.
    + intros Hk. unfold torch_max in Hmax.
      destruct (map fst probs) eqn:Hp; [|discriminate].
      apply (f_equal length) in Hp. unfold probs, attention_probs in Hp.
      rewrite !length_map, length_combine in Hp.
      unfold top_k_edit_thresh in Hk. simpl in Hp. lia.
    + intros _. unfold torch_max in Hmax.
      destruct (map fst probs); inversion Hmax. by exists TorchMax.
Qed.

(** ** Degenerate inputs *)

Lemma shape_eqb_spec s1 s2 : shape_eqb s1 s2 = true <-> s1 = s2.
Proof.
  destruct s1 as [[x1 y1] z1], s2 as [[x2 y2] z2]. unfold shape_eqb.
  rewrite !andb_true_iff, !Nat.eqb_eq. split.
  - intros [[-> ->] ->]. done.
  - intros H. by inversion H.
Qed.

Lemma build_graph_empty solver randperm features densities edit_attn obj_attn
    K sigma :
  idx_values_of densities = [] ->
  exists g e,
    build_graph solver randperm features densities edit_attn obj_attn K sigma
      = (g, Raise e)
    /\ g = empty_graph
    /\ (has_empty_axis (gshape densities) = false ->
        squeeze_mismatch (gshape densities) = false ->
        gshape edit_attn = gshape densities ->
        gshape obj_attn = gshape densities ->
        e = RuntimeError TorchMax).
Proof.
  intros Hempty. unfold build_graph, build_graph_body. rewrite Hempty.
  destruct (gshape densities) as [[x y] z] eqn:Hsh.
  destruct (has_empty_axis _).
  { exists empty_graph. eexists. split; [reflexivity|]. split; [done|]. done. }
  destruct (squeeze_mismatch _).
  { exists empty_graph. eexists. split; [reflexivity|]. split; [done|]. done. }
  unfold mbind, M_bind, add_nodes; simpl. rewrite andb_false_r.
  unfold mret, M_ret, lift, mask_select. rewrite Hsh.
  destruct (shape_eqb (gshape edit_attn) (x, y, z)) eqn:He.
  - destruct (shape_eqb (gshape obj_attn) (x, y, z)) eqn:Ho.
    + simpl. exists empty_graph. eexists.
      split; [reflexivity|]. split; [done|]. done.
    + exists empty_graph. eexists. split; [reflexivity|]. split; [done|].
      intros _ _ _ Ho'. apply shape_eqb_spec in Ho'. congruence.
  - exists empty_graph. eexists. split; [reflexivity|]. split; [done|].
    intros _ _ He'. apply shape_eqb_spec in He'. congruence.
Qed.

(** C3 (as the code has it). When no voxel is active, [build_graph] raises
    and so does [get_edit_region]: no labelling and no output grid are
    produced, and the graph has no node.  On a grid whose axes are longer
    than one and whose attention fields have its shape, the exception is the
    RuntimeError of [torch.max] on the empty tensor of probabilities. *)
Theorem empty_active_set_raises solver randperm vol_mod_edit vol_mod_object
    K sigma :
  idx_values_of (_densities vol_mod_edit) = [] ->
  (exists g e,
     get_edit_region solver randperm vol_mod_edit vol_mod_object K sigma
       = (g, Raise e) /\ g_nodes g = 0%nat)
  /\ (forall features edit_attn obj_attn,
        exists e,
          build_graph solver randperm features (_densities vol_mod_edit)
                      edit_attn obj_attn K sigma = (empty_graph, Raise e)
          /\ (has_empty_axis (gshape (_densities vol_mod_edit)) = false ->
              squeeze_mismatch (gshape (_densities vol_mod_edit)) = false ->
              gshape edit_attn = gshape (_densities vol_mod_edit) ->
              gshape obj_attn = gshape (_densities vol_mod_edit) ->
              e = RuntimeError TorchMax)).
Proof.
  intros Hempty. split.
  - unfold get_edit_region.
    destruct (torch_eq_all scalar_eq _ _ _) as [[|]|e1];
      [|by exists empty_graph; eexists..].
    destruct (torch_eq_all (channels_eq _) _ _ _) as [[|]|e2];
      [|by exists empty_graph; eexists..].
    destruct (build_graph_empty solver randperm
                (sigmoid_features (_features vol_mod_edit))
                (_densities vol_mod_edit) (attn vol_mod_edit)
                (attn vol_mod_object) K sigma Hempty) as (g & e & -> & -> & _).
    by exists empty_graph, e.
  - intros features edit_attn obj_attn.
    destruct (build_graph_empty solver randperm features
                (_densities vol_mod_edit) edit_attn obj_attn K sigma Hempty)
      as (g & e & Hrun & -> & He).
    by exists e.
Qed.

(** Attention fields of different shapes: the call never returns normally,
    and with the assertions passing on a grid whose axes are longer than one
    the exception comes from the mask selection inside [build_graph]. *)
Lemma attention_mismatch_late solver randperm vol_mod_edit vol_mod_object
    K sigma :
  gshape (attn vol_mod_edit) <> gshape (attn vol_mod_object) ->
  exists g e,
    get_edit_region solver randperm vol_mod_edit vol_mod_object K sigma
      = (g, Raise e)
    /\ (torch_eq_all scalar_eq DensityAssert (_densities vol_mod_edit)
                     (_densities vol_mod_object) = Ok true ->
        torch_eq_all (channels_eq FeatureAssert) FeatureAssert
                     (_features vol_mod_edit) (_features vol_mod_object) = Ok true ->
        has_empty_axis (gshape (_densities vol_mod_edit)) = false ->
        has_unit_axis (gshape (_densities vol_mod_edit)) = false ->
        e = IndexError MaskSelect
        /\ g = empty_graph_with (length (idx_values_of (_densities vol_mod_edit)))).
Proof.
  intros Hne. unfold get_edit_region.
  destruct (torch_eq_all scalar_eq _ _ _) as [[|]|e1];
    [|by exists empty_graph; eexists; split..].
  destruct (torch_eq_all (channels_eq _) _ _ _) as [[|]|e2];
    [|by exists empty_graph; eexists; split..].
  unfold build_graph, build_graph_body.
  destruct (gshape (_densities vol_mod_edit)) as [[x y] z] eqn:Hsh.
  destruct (has_empty_axis _) eqn:Hempty.
  { exists empty_graph. eexists. split; [reflexivity | by intros _ _ ?]. }
  destruct (squeeze_mismatch _) eqn:Hsq.
  { exists empty_graph. eexists. split; [reflexivity|]. intros _ _ _ Hu.
    unfold squeeze_mismatch in Hsq. unfold has_unit_axis in Hu.
    apply andb_true_iff in Hsq as [Hxy _].
    apply orb_false_iff in Hu as [Hu _]. congruence. }
  destruct (has_unit_axis _ && _) eqn:Hunit.
  { eexists. eexists. split; [reflexivity|]. intros _ _ _ Hu.
    rewrite Hu in Hunit. discriminate. }
  unfold mbind, M_bind, add_nodes; simpl.
  unfold mret, M_ret, lift, mask_select. rewrite Hsh.
  destruct (shape_eqb (gshape (attn vol_mod_edit)) (x, y, z)) eqn:He.
  - destruct (shape_eqb (gshape (attn vol_mod_object)) (x, y, z)) eqn:Ho.
    + apply shape_eqb_spec in He, Ho. congruence.
    + eexists. eexists. split; [reflexivity|]. by intros _ _ _ _.
  - eexists. eexists. split; [reflexivity|]. by intros _ _ _ _.
Qed.

(** [torch.eq(t1, t2).all()] on two scalar grids whose shapes broadcast:
    the values are compared cell by cell, an axis of length one being
    repeated. *)
Lemma torch_eq_all_values s (t1 t2 : Grid num) sh :
  broadcast_shape (gshape t1) (gshape t2) = Some sh ->
  torch_eq_all scalar_eq s t1 t2
  = Ok (forallb (fun c => feqb (bget t1 c) (bget t2 c)) (idx_grid sh)).
Proof.
  intros Hsh. unfold torch_eq_all. rewrite Hsh.
  assert (G : forall l b0,
            fold_left (fun acc c => b ← acc; e ← scalar_eq (bget t1 c) (bget t2 c);
                                    Ok (b && e)) l (Ok b0)
            = Ok (b0 && forallb (fun c => feqb (bget t1 c) (bget t2 c)) l)).
  { induction l as [|c l IH]; intros b0; simpl; [by rewrite andb_true_r|].
    rewrite IH. by rewrite andb_assoc. }
  by rewrite G.
Qed.

(** C4 (as the code has it). [get_edit_region] has no check of the spatial
    dimensions as such: its two entry assertions compare values with
    [torch.eq], which broadcasts.  Density grids whose shapes do not
    broadcast raise the RuntimeError of [torch.eq] at entry, on the empty
    graph, and so do feature grids once the density assertion has passed.
    Density grids whose shapes broadcast are compared value by value, an
    axis of length one being repeated: a differing value raises the
    AssertionError at entry, and equal values pass the assertion, even when
    the two shapes differ.  The attention shapes are not looked at on entry:
    when the edit and the object attention fields differ in shape the call
    never returns normally, and with both assertions passing on a grid whose
    axes are longer than one the exception is the IndexError of the
    boolean-mask selection inside [build_graph], raised when the graph
    already has its nodes. *)
Theorem shape_mismatch_handling solver randperm vol_mod_edit vol_mod_object
    K sigma :
  (broadcast_shape (gshape (_densities vol_mod_edit))
                   (gshape (_densities vol_mod_object)) = None ->
   get_edit_region solver randperm vol_mod_edit vol_mod_object K sigma
   = (empty_graph, Raise (RuntimeError DensityAssert)))
  /\ (forall sh,
        broadcast_shape (gshape (_densities vol_mod_edit))
                        (gshape (_densities vol_mod_object)) = Some sh ->
        let same := forallb (fun c => feqb (bget (_densities vol_mod_edit) c)
                                           (bget (_densities vol_mod_object) c))
                            (idx_grid sh) in
        torch_eq_all scalar_eq DensityAssert (_densities vol_mod_edit)
                     (_densities vol_mod_object) = Ok same
        /\ (same = false ->
            get_edit_region solver randperm vol_mod_edit vol_mod_object K sigma
            = (empty_graph, Raise (AssertionError DensityAssert))))
  /\ (torch_eq_all scalar_eq DensityAssert (_densities vol_mod_edit)
                   (_densities vol_mod_object) = Ok true ->
      broadcast_shape (gshape (_features vol_mod_edit))
                      (gshape (_features vol_mod_object)) = None ->
      get_edit_region solver randperm vol_mod_edit vol_mod_object K sigma
      = (empty_graph, Raise (RuntimeError FeatureAssert)))
  /\ (gshape (attn vol_mod_edit) <> gshape (attn vol_mod_object) ->
      exists g e,
        get_edit_region solver randperm vol_mod_edit vol_mod_object K sigma
          = (g, Raise e)
        /\ (torch_eq_all scalar_eq DensityAssert (_densities vol_mod_edit)
                         (_densities vol_mod_object) = Ok true ->
            torch_eq_all (channels_eq FeatureAssert) FeatureAssert
                         (_features vol_mod_edit) (_features vol_mod_object) = Ok true ->
            has_empty_axis (gshape (_densities vol_mod_edit)) = false ->
            has_unit_axis (gshape (_densities vol_mod_edit)) = false ->
            e = IndexError MaskSelect
            /\ g = empty_graph_with
                     (length (idx_values_of (_densities vol_mod_edit))))).
Proof.
  split; [|split; [|split]].
  - intros Hsh. unfold get_edit_region, torch_eq_all. by rewrite Hsh.
  - intros sh Hsh same. split; [by apply torch_eq_all_values|].
    intros Hdiff. unfold get_edit_region.
    rewrite (torch_eq_all_values _ _ _ _ Hsh). fold same. by rewrite Hdiff.
  - intros Hd Hsh. unfold get_edit_region. rewrite Hd.
    unfold torch_eq_all. by rewrite Hsh.
  - apply attention_mismatch_late.
Qed.

(** ** The output grids *)

Lemma coord_eqb_spec c1 c2 : coord_eqb c1 c2 = true <-> c1 = c2.
Proof.
  destruct c1 as [[a1 b1] d1], c2 as [[a2 b2] d2]. unfold coord_eqb.
  rewrite !andb_true_iff, !Z.eqb_eq. split.
  - intros [[-> ->] ->]. done.
  - intros H. by inversion H.
Qed.

Lemma index_assign_all_ok t idxs v t' :
  index_assign_all t idxs v = Ok t' ->
  gshape t' = gshape t
  /\ forall c, gdata t' c = if existsb (coord_eqb c) idxs then v else gdata t c.
Proof.
  revert t. induction idxs as [|idx idxs IH]; intros t; simpl.
  - intros H. by inversion H.
  - intros H. apply result_bind_ok in H as (t1 & H1 & H2).
    unfold index_assign in H1. destruct (in_bounds _ _); [|discriminate].
    inversion H1; subst t1; clear H1.
    apply IH in H2 as [Hs Hd]. simpl in *. split; [done|].
    intros c. rewrite Hd. destruct (coord_eqb c idx); simpl; [|done].
    by destruct (existsb _ _).
Qed.

(** C5 (as the code has it). The grid that [set_and_visualize_refined_grid]
    leaves in the attention field of the output model holds the selected
    sentinel 0 at the voxels of the nodes labelled EDIT, the intermediate
    sentinel -10 at every other active voxel, and the background sentinel
    only at inactive voxels.  The grid with just the two sentinels 0 and
    background is the one assigned first, for the comparison rendering of
    edit attention against object attention. *)
Theorem graphcut_grid_values edit_densities edit_attn object_attn ids idxs grids :
  set_and_visualize_refined_grid edit_densities edit_attn object_attn ids idxs
    = Ok grids ->
  (forall c, gdata (graphcut_grid grids) c =
             if existsb (coord_eqb c) (edit_ids_of ids idxs) then selected
             else if non_zero_densities edit_densities c then inside_density
             else background)
  /\ (forall c, gdata (greater_than_grid grids) c =
                if fltb (bget object_attn c) (bget edit_attn c) then selected
                else background)
  /\ gshape (graphcut_grid grids) = gshape edit_attn
  /\ gshape (greater_than_grid grids) = gshape edit_attn.
Proof.
  unfold set_and_visualize_refined_grid. intros H.
  apply result_bind_ok in H as (sh & _ & H).
  destruct (negb (shape_eqb sh _)); [discriminate|].
  destruct (negb (shape_eqb (gshape edit_densities) _)); [discriminate|].
  destruct (negb (length ids =? length idxs)%nat); [discriminate|].
  apply result_bind_ok in H as (second & Hsecond & H).
  inversion H; subst grids; clear H. simpl.
  apply index_assign_all_ok in Hsecond as [Hs Hd]. simpl in *.
  split; [|split; [|split]]; try done.
Qed.

(** ** A graph in which every node is seeded *)

Lemma cap_sum_ext {A} (f f' : A -> cap) l :
  (forall a, In a l -> f a = f' a) -> cap_sum (map f l) = cap_sum (map f' l).
Proof.
  induction l as [|a l IH]; simpl; intros H; [done|].
  rewrite (H a) by (by left). rewrite IH; [done|]. intros b Hb. apply H. by right.
Qed.

Lemma fully_seeded_min_cut g L0 :
  (forall w : num, fleb w w = true) ->
  fully_seeded g L0 = true -> is_min_cut g L0.
Proof.
  intros Hrefl [Ht He]%andb_true_iff L'.
  rewrite forallb_forall in Ht, He.
  destruct (cut_capacity g L') as [w'|] eqn:HL'; [|by destruct (cut_capacity g L0)].
  assert (Hfin : is_fin (cut_capacity g L')) by (by exists w').
  apply cut_capacity_fin in Hfin. rewrite List.Forall_forall in Hfin.
  assert (Hagree : forall i, seeded g i = true -> L' i = L0 i).
  { intros i [t [Hin Hi%Nat.eqb_eq]]%existsb_exists.
    specialize (Ht t Hin). specialize (Hfin t Hin).
    destruct t as [[j cs] ck]. unfold tedge_node in Hi; simpl in Hi; subst j.
    simpl in Hfin.
    destruct cs as [u|], ck as [v|]; try discriminate;
      destruct (L' i), (L0 i); try done; destruct Hfin; discriminate. }
  assert (Heq : cut_capacity g L0 = cut_capacity g L').
  { unfold cut_capacity. f_equal; apply cap_sum_ext.
    - intros [[i cs] ck] Hin. simpl. rewrite Hagree; [done|].
      apply existsb_exists. exists (i, cs, ck). split; [done|].
      apply Nat.eqb_refl.
    - intros [[[i j] w] rw] Hin. specialize (He _ Hin). simpl in He.
      apply andb_true_iff in He as [Hi Hj]. simpl.
      by rewrite (Hagree i Hi), (Hagree j Hj). }
  rewrite Heq, HL'. simpl. apply Hrefl.
Qed.

(** ** The whole pipeline *)

Lemma get_edit_region_ok solver randperm vol_mod_edit vol_mod_object K sigma
    g grids :
  get_edit_region solver randperm vol_mod_edit vol_mod_object K sigma
    = (g, Ok grids) ->
  exists ids idxs,
    build_graph solver randperm (sigmoid_features (_features vol_mod_edit))
                (_densities vol_mod_edit) (attn vol_mod_edit)
                (attn vol_mod_object) K sigma = (g, Ok (ids, idxs))
    /\ set_and_visualize_refined_grid (_densities vol_mod_edit)
         (attn vol_mod_edit) (attn vol_mod_object) ids idxs = Ok grids.
Proof.
  unfold get_edit_region.
  destruct (torch_eq_all scalar_eq _ _ _) as [[|]|e1]; try discriminate.
  destruct (torch_eq_all (channels_eq _) _ _ _) as [[|]|e2]; try discriminate.
  destruct (build_graph _ _ _ _ _ _ _ _) as [g' [[ids idxs]|e]]; [|discriminate].
  intros H. inversion H; subst g'. by exists ids, idxs.
Qed.

(** In a run of [get_edit_region] the features that enter the affinity are
    the activated ones, [torch.sigmoid(_features)]. *)
Lemma edge_capacity_post_activation `{!ScalarLaws S} solver randperm
    vol_mod_edit vol_mod_object K sigma g grids a b w rw :
  get_edit_region solver randperm vol_mod_edit vol_mod_object K sigma
    = (g, Ok grids) ->
  In (a, b, w, rw) (g_edges g) ->
  exists v n,
    nth_error (idx_values_of (_densities vol_mod_edit)) a = Some v
    /\ nth_error (idx_values_of (_densities vol_mod_edit)) b = Some n
    /\ w = fmul K (fexp (fdiv (fneg (l2 (map sigmoid (gdata (_features vol_mod_edit) v))
                                        (map sigmoid (gdata (_features vol_mod_edit) n))))
                             sigma))
    /\ rw = w.
Proof.
  intros Hrun Hin. apply get_edit_region_ok in Hrun as (ids & idxs & Hrun & _).
  destruct (edge_of_run _ _ _ _ _ _ _ _ _ _ _ _ _ _ _ Hrun Hin)
    as (va & off & l2p & Ha & _ & Hb & _ & _ & Hw & Hrw).
  exists va, (coord_add va off). split; [done|]. split; [done|]. split; [|done].
  rewrite Hw. unfold affinity. by rewrite fmul_one, fmul_zero, fadd_zero.
Qed.

(** C7. In the graph of a returning run the capacity of every edge, in both
    directions, is K * exp(-||feature(v) - feature(n)||_2 / sigma) for the
    voxels v and n of its two nodes.  The norm is written out: the square
    root of the sum, over the channels, of the squared differences of the
    two feature vectors passed to [build_graph].  In a run of
    [get_edit_region] these are the post-activation vectors: a component a
    of [_features] enters the norm as 1 / (1 + exp(-a)).  The code computes
    exp(-(l2_colors * 1.0 + l2_probs * 0.0) / sigma); the element arithmetic
    is taken to satisfy x * 1 = x, x * 0 = 0 and x + 0 = x, as it does on
    finite floats. *)
Theorem edge_capacity_formula `{!ScalarLaws S} solver randperm K sigma :
  (forall features densities edit_attn obj_attn g segments idxs a b w rw,
     build_graph solver randperm features densities edit_attn obj_attn K sigma
       = (g, Ok (segments, idxs)) ->
     In (a, b, w, rw) (g_edges g) ->
     exists v n,
       nth_error (idx_values_of densities) a = Some v
       /\ nth_error (idx_values_of densities) b = Some n
       /\ w = fmul K (fexp (fdiv (fneg (fsqrt (fold_left fadd
                (map (fun p => fmul (fsub (fst p) (snd p)) (fsub (fst p) (snd p)))
                     (combine (gdata features v) (gdata features n)))
                (lit 0)))) sigma))
       /\ rw = w)
  /\ (forall vol_mod_edit vol_mod_object g grids a b w rw,
        get_edit_region solver randperm vol_mod_edit vol_mod_object K sigma
          = (g, Ok grids) ->
        In (a, b, w, rw) (g_edges g) ->
        let activated (c : coord) :=
          map (fun x => fdiv (lit 1) (fadd (lit 1) (fexp (fneg x))))
              (gdata (_features vol_mod_edit) c) in
        exists v n,
          nth_error (idx_values_of (_densities vol_mod_edit)) a = Some v
          /\ nth_error (idx_values_of (_densities vol_mod_edit)) b = Some n
          /\ w = fmul K (fexp (fdiv (fneg (fsqrt (fold_left fadd
                   (map (fun p => fmul (fsub (fst p) (snd p)) (fsub (fst p) (snd p)))
                        (combine (activated v) (activated n)))
                   (lit 0)))) sigma))
          /\ rw = w).
Proof.
  split.
  - intros features densities edit_attn obj_attn g segments idxs a b w rw Hrun Hin.
    destruct (edge_of_run _ _ _ _ _ _ _ _ _ _ _ _ _ _ _ Hrun Hin)
      as (va & off & l2p & Ha & _ & Hb & _ & _ & Hw & Hrw).
    exists va, (coord_add va off). split; [done|]. split; [done|]. split; [|done].
    rewrite Hw. unfold affinity, l2, fsum, fsq.
    by rewrite fmul_one, fmul_zero, fadd_zero.
  - intros vol_mod_edit vol_mod_object g grids a b w rw Hrun Hin activated.
    destruct (edge_capacity_post_activation _ _ _ _ _ _ _ _ _ _ _ _ Hrun Hin)
      as (v & n & Ha & Hb & Hw & Hrw).
    exists v, n. split; [done|]. split; [done|]. split; [|done].
    rewrite Hw. reflexivity.
Qed.

Lemma mask_sum_le mask : (mask_sum mask <= length mask)%nat.
Proof. unfold mask_sum. apply List.filter_length_le. Qed.

(** [build_graph] returns only when at least 300 voxels are active: either
    the primary rule finds 300 seeds or [torch.topk] is asked for 300. *)
Lemma build_graph_needs_300_voxels solver randperm features densities edit_attn
    obj_attn K sigma g r :
  build_graph solver randperm features densities edit_attn obj_attn K sigma
    = (g, Ok r) ->
  (300 <= length (idx_values_of densities))%nat.
Proof.
  destruct r as [segments idxs]. intros Hrun.
  apply build_graph_ok in Hrun as (edit & obj & ess & Hseeds & _).
  unfold seeds_of in Hseeds.
  apply result_bind_ok in Hseeds as (ev & Hev & Hseeds).
  apply result_bind_ok in Hseeds as (ov & Hov & Hseeds).
  apply mask_select_ok in Hev as [_ ->], Hov as [_ ->].
  unfold select_seeds in Hseeds.
  apply result_bind_ok in Hseeds as (top & _ & Hseeds).
  apply result_bind_ok in Hseeds as (sub & _ & Hseeds).
  destruct (Nat.ltb_spec
              (mask_sum (best_voxels_edit_mask
                 (attention_probs (map (gdata edit_attn) (idx_values_of densities))
                                  (map (gdata obj_attn) (idx_values_of densities)))
                 top)) min_num_edit_voxels) as [Hlt | Hge].
  - apply result_bind_ok in Hseeds as (et & Het & _).
    unfold torch_topk in Het.
    destruct (Nat.ltb_spec (length (map (gdata edit_attn) (idx_values_of densities)))
                           top_k_edit_thresh) as [Hl | Hl]; [discriminate|].
    rewrite length_map in Hl. exact Hl.
  - pose proof (mask_sum_le (best_voxels_edit_mask
                 (attention_probs (map (gdata edit_attn) (idx_values_of densities))
                                  (map (gdata obj_attn) (idx_values_of densities)))
                 top)) as Hle.
    assert (Hlen : length (best_voxels_edit_mask
                 (attention_probs (map (gdata edit_attn) (idx_values_of densities))
                                  (map (gdata obj_attn) (idx_values_of densities)))
                 top) = length (idx_values_of densities)).
    { unfold best_voxels_edit_mask, attention_probs.
      rewrite !length_map, length_combine, !length_map. lia. }
    rewrite Hlen in Hle. unfold min_num_edit_voxels in Hge. lia.
Qed.

End Facts.

(** ** The affinity over the reals *)

Lemma Q2R_0 : Q2R 0 = 0%R.
Proof. unfold Q2R; simpl. lra. Qed.

Lemma Q2R_1 : Q2R 1 = 1%R.
Proof. unfold Q2R; simpl. lra. Qed.

#[export] Instance R_laws : ScalarLaws R_scalar.
Proof.
  split; simpl; intros a; rewrite ?Q2R_0, ?Q2R_1; lra.
Qed.

Lemma affinity_real (K sigma d p : R) :
  affinity (S := R_scalar) K sigma d p = (K * exp (- d / sigma))%R.
Proof. unfold affinity. by rewrite fmul_one, fmul_zero, fadd_zero. Qed.

(** C9 (over the reals). Evaluated in exact real arithmetic, for K > 0 and
    sigma > 0 the affinity of line 297 is strictly decreasing in the feature
    distance: of two voxel pairs, the one whose feature vectors are closer
    in L2 norm gets the strictly larger edge weight.  The statement is about
    the real-valued formula; the float32 values that the program computes
    do not satisfy it. *)
Theorem affinity_strictly_decreasing (K sigma : R)
    (fv fn fv' fn' : list R) (p p' : R) :
  (0 < K)%R -> (0 < sigma)%R ->
  (l2 (S := R_scalar) fv fn < l2 (S := R_scalar) fv' fn')%R ->
  (affinity (S := R_scalar) K sigma (l2 (S := R_scalar) fv' fn') p'
   < affinity (S := R_scalar) K sigma (l2 (S := R_scalar) fv fn) p)%R.
Proof.
  intros HK Hs Hd. rewrite !affinity_real.
  apply Rmult_lt_compat_l; [done|]. apply exp_increasing.
  unfold Rdiv. apply Rmult_lt_compat_r; [by apply Rinv_0_lt_compat | lra].
Qed.

(** * Runs on the concrete grids *)

#[export] Instance Qc_laws : ScalarLaws Qc_scalar.
Proof.
  split; simpl; intros a.
  - apply Qcmult_1_r.
  - apply Qcmult_0_r.
  - apply Qcplus_0_r.
Qed.

Lemma is_ok_pair {A B} (r : result (A * B)) d :
  is_ok r = true -> r = Ok (fst (ok_or d r), snd (ok_or d r)).
Proof. destruct r as [[a b]|e]; simpl; [done | discriminate]. Qed.

Lemma ex_run_ok :
  build_graph (S := Qc_scalar) follow_seeds id_perm ex_features ex_densities
              ex_edit_attn ex_obj_attn ex_K ex_sigma
  = (ex_graph, Ok (ex_segments, ex_idxs)).
Proof.
  unfold ex_graph, ex_segments, ex_idxs.
  rewrite <- (is_ok_pair (snd ex_run)); [by destruct ex_run|].
  vm_compute. reflexivity.
Qed.

Lemma ex_seeds_ok :
  seeds_of (S := Qc_scalar) id_perm ex_densities ex_edit_attn ex_obj_attn
  = Ok (ex_edit, ex_obj).
Proof. apply is_ok_pair. vm_compute. reflexivity. Qed.

Lemma is_ok_eq {A} (r : result A) d : is_ok r = true -> r = Ok (ok_or d r).
Proof. destruct r; simpl; [done | discriminate]. Qed.

Lemma ex_min_cut : is_min_cut (S := Qc_scalar) ex_graph (follow_seeds ex_graph).
Proof.
  apply fully_seeded_min_cut.
  - intros w. simpl. apply Qle_bool_iff, Qle_refl.
  - vm_compute. reflexivity.
Qed.

Lemma ex_seed_membership :
  contains ex_edit 0 = true /\ contains ex_obj 294 = true
  /\ contains ex_edit 294 = false.
Proof. vm_compute. done. Qed.

(** Witness of C1: node 0 is an edit seed and node 294, at (6, 0, 0), an
    object seed of the run on the 7x7x7 grid. *)
Lemma seeds_respected_witness :
  nth_error ex_segments 0 = Some SOURCE /\ nth_error ex_segments 294 = Some SINK.
Proof.
  destruct ex_seed_membership as (He0 & Ho & He).
  split.
  - apply (seeds_respected (S := Qc_scalar) follow_seeds id_perm ex_features
             ex_densities ex_edit_attn ex_obj_attn ex_K ex_sigma
             ex_graph ex_segments ex_idxs ex_edit ex_obj 0
             ex_run_ok ex_seeds_ok ex_min_cut); [|exact He0].
    apply Nat.ltb_lt. vm_compute. reflexivity.
  - apply (seeds_respected (S := Qc_scalar) follow_seeds id_perm ex_features
             ex_densities ex_edit_attn ex_obj_attn ex_K ex_sigma
             ex_graph ex_segments ex_idxs ex_edit ex_obj 294
             ex_run_ok ex_seeds_ok ex_min_cut); [|exact Ho|exact He].
    apply Nat.ltb_lt. vm_compute. reflexivity.
Defined.

(** Counterexample of C6 as stated: on the 7x7x7 grid the voxels (1, 0, 0),
    node 49, and (0, 0, 0), node 0, are active face neighbours, yet
    [add_edge] is never called from node 49 to node 0, because the density
    at the origin is not positive; the call from node 0 to node 49 is
    made. *)
Lemma one_direction_counterexample :
  is_ok (snd ex_run) = true
  /\ nth_error ex_idxs 49 = Some (1, 0, 0)
  /\ nth_error ex_idxs 0 = Some (0, 0, 0)
  /\ (0, 0, 0) = coord_add (1, 0, 0) (-1, 0, 0)
  /\ In (-1, 0, 0) g_neighbor_offsets
  /\ edge_additions (S := Qc_scalar) ex_graph 49 0 = []
  /\ length (edge_additions (S := Qc_scalar) ex_graph 0 49) = 1%nat.
Proof.
  split; [vm_compute; reflexivity|].
  split; [vm_compute; reflexivity|].
  split; [vm_compute; reflexivity|].
  split; [reflexivity|].
  split; [by left|].
  split; vm_compute; reflexivity.
Qed.

Lemma In_ex_edge :
  In (fst (fst (fst ex_edge)), snd (fst (fst ex_edge)), snd (fst ex_edge),
      snd ex_edge) (g_edges ex_graph).
Proof.
  replace (_, _, _, _) with ex_edge by (by destruct ex_edge as [[[? ?] ?] ?]).
  apply nth_In. apply Nat.ltb_lt. vm_compute. reflexivity.
Qed.

(** Witness of C6: the first edge of the run, and the step from node 0 at
    the origin to its neighbour (1, 0, 0). *)
Lemma edges_join_dense_neighbours_witness :
  (snd ex_edge = snd (fst ex_edge)
   /\ fst (fst (fst ex_edge)) <> snd (fst (fst ex_edge)))
  /\ exists b w,
       nth_error (idx_values_of (S := Qc_scalar) ex_densities) b = Some (1, 0, 0)
       /\ edge_additions (S := Qc_scalar) ex_graph 0 b = [(0%nat, b, w, w)].
Proof.
  destruct (edges_join_dense_neighbours (S := Qc_scalar) follow_seeds id_perm
              ex_features ex_densities ex_edit_attn ex_obj_attn ex_K ex_sigma
              ex_graph ex_segments ex_idxs ex_run_ok) as (Hsound & Hcomplete & _).
  split.
  - destruct (Hsound _ _ _ _ In_ex_edge) as (Hrw & Hne & _). by split.
  - apply (Hcomplete 0%nat (0, 0, 0) (1, 0, 0)).
    + vm_compute. reflexivity.
    + right; right; right; by left.
    + vm_compute. reflexivity.
    + vm_compute. reflexivity.
Defined.

Lemma ex_region_ok :
  get_edit_region (S := Qc_scalar) follow_seeds id_perm ex_vol_edit
                  ex_vol_object ex_K ex_sigma
  = (fst ex_region, Ok (ok_or no_grids (snd ex_region))).
Proof.
  rewrite <- (is_ok_eq (snd ex_region)); [by destruct ex_region|].
  vm_compute. reflexivity.
Qed.

Lemma In_ex_region_edge :
  In (fst (fst (fst ex_region_edge)), snd (fst (fst ex_region_edge)),
      snd (fst ex_region_edge), snd ex_region_edge) (g_edges (fst ex_region)).
Proof.
  replace (_, _, _, _) with ex_region_edge
    by (by destruct ex_region_edge as [[[? ?] ?] ?]).
  apply nth_In. apply Nat.ltb_lt. vm_compute. reflexivity.
Qed.

(** Witness of C7: the first edge of the run of [build_graph] on the first
    grid, from node 0 to node 49, and the first edge of the graph that
    [get_edit_region] builds on it. *)
Lemma edge_capacity_formula_witness :
  (exists v n,
     nth_error (idx_values_of (S := Qc_scalar) ex_densities) (fst (fst (fst ex_edge)))
       = Some v
     /\ nth_error (idx_values_of (S := Qc_scalar) ex_densities) (snd (fst (fst ex_edge)))
        = Some n
     /\ snd (fst ex_edge)
        = fmul (Scalar := Qc_scalar) ex_K
            (fexp (fdiv (fneg (fsqrt (fold_left fadd
               (map (fun p => fmul (fsub (fst p) (snd p)) (fsub (fst p) (snd p)))
                    (combine (gdata ex_features v) (gdata ex_features n)))
               (lit 0)))) ex_sigma))
     /\ snd ex_edge = snd (fst ex_edge))
  /\ (exists v n,
        nth_error (idx_values_of (S := Qc_scalar) (_densities ex_vol_edit))
                  (fst (fst (fst ex_region_edge))) = Some v
        /\ nth_error (idx_values_of (S := Qc_scalar) (_densities ex_vol_edit))
                     (snd (fst (fst ex_region_edge))) = Some n
        /\ snd (fst ex_region_edge)
           = fmul (Scalar := Qc_scalar) ex_K
               (fexp (fdiv (fneg (fsqrt (fold_left fadd
                  (map (fun p => fmul (fsub (fst p) (snd p)) (fsub (fst p) (snd p)))
                       (combine
                          (map (fun x => fdiv (lit 1) (fadd (lit 1) (fexp (fneg x))))
                               (gdata (_features ex_vol_edit) v))
                          (map (fun x => fdiv (lit 1) (fadd (lit 1) (fexp (fneg x))))
                               (gdata (_features ex_vol_edit) n))))
                  (lit 0)))) ex_sigma))
        /\ snd ex_region_edge = snd (fst ex_region_edge)).
Proof.
  destruct (edge_capacity_formula (S := Qc_scalar) follow_seeds id_perm
              ex_K ex_sigma) as [Hgraph Hregion].
  split.
  - exact (Hgraph ex_features ex_densities ex_edit_attn ex_obj_attn
             ex_graph ex_segments ex_idxs _ _ _ _ ex_run_ok In_ex_edge).
  - exact (Hregion ex_vol_edit ex_vol_object (fst ex_region)
             (ok_or no_grids (snd ex_region)) _ _ _ _ ex_region_ok
             In_ex_region_edge).
Defined.

Lemma fb_run_ok :
  build_graph (S := Qc_scalar) follow_seeds id_perm ex_features fb_densities
              fb_edit_attn fb_obj_attn ex_K ex_sigma
  = (fb_graph, Ok (fb_segments, fb_idxs)).
Proof.
  unfold fb_graph, fb_segments, fb_idxs.
  rewrite <- (is_ok_pair (snd fb_run)); [by destruct fb_run|].
  vm_compute. reflexivity.
Qed.

Lemma fb_seeds_ok :
  seeds_of (S := Qc_scalar) id_perm fb_densities fb_edit_attn fb_obj_attn
  = Ok (fb_edit, fb_obj).
Proof. apply is_ok_pair. vm_compute. reflexivity. Qed.

(** Witness of C10: node 0 is among the 300 edit and the 200 object seeds of
    the fallback. *)
Lemma edit_seed_wins_witness :
  In (0%nat, Inf, Fin (lit (Scalar := Qc_scalar) 0)) (g_tedges fb_graph)
  /\ forall cs ck, In (0%nat, cs, ck) (g_tedges fb_graph) ->
                   cs = Inf /\ ck = Fin (lit (Scalar := Qc_scalar) 0).
Proof.
  apply (edit_seed_wins (S := Qc_scalar) follow_seeds id_perm ex_features
           fb_densities fb_edit_attn fb_obj_attn ex_K ex_sigma
           fb_graph fb_segments fb_idxs fb_edit fb_obj 0 fb_run_ok fb_seeds_ok).
  - apply Nat.ltb_lt. vm_compute. reflexivity.
  - vm_compute. reflexivity.
  - vm_compute. reflexivity.
Defined.

Lemma id_perm_perm n : Permutation (id_perm n) (seq 0 n).
Proof. apply Permutation_refl. Qed.

(** Witness of C2: the 343 active voxels of the second grid. *)
Lemma fallback_top_k_witness :
  exists edit obj,
    select_seeds (S := Qc_scalar) id_perm fb_edit_attn_vals fb_obj_attn_vals
                 (attention_probs fb_edit_attn_vals fb_obj_attn_vals)
      = Ok (edit, obj)
    /\ length edit = 300%nat /\ List.NoDup edit /\ length obj = 200%nat.
Proof.
  destruct (fallback_top_k (S := Qc_scalar) id_perm fb_edit_attn_vals
              fb_obj_attn_vals id_perm_perm) as [Hbig _].
  - vm_compute. reflexivity.
  - intros top Htop.
    assert (Hb : match torch_max (S := Qc_scalar)
                         (map fst (attention_probs fb_edit_attn_vals
                                                   fb_obj_attn_vals)) with
                 | Ok t => (mask_sum (best_voxels_edit_mask
                                        (attention_probs fb_edit_attn_vals
                                                         fb_obj_attn_vals) t)
                            <? min_num_edit_voxels)%nat
                 | Raise _ => true
                 end = true) by (vm_compute; reflexivity).
    rewrite Htop in Hb. by apply Nat.ltb_lt.
  - destruct Hbig as (edit & obj & Hsel & _ & Hl & Hnd & _ & _ & Hlo).
    + apply Nat.leb_le. vm_compute. reflexivity.
    + exists edit, obj. split; [exact Hsel|]. split; [exact Hl|].
      split; [exact Hnd | exact Hlo].
Defined.

(** Counterexample of C2 as stated: with 8 active voxels, all of which pass
    the primary rule, fewer than 300 do; yet the selector does not return 8
    seeds: [torch.topk] raises, and so does [build_graph]. *)
Lemma fallback_small_counterexample :
  length small_attn_vals = 8%nat
  /\ (forall top,
        torch_max (S := Qc_scalar)
          (map fst (attention_probs small_attn_vals small_attn_vals)) = Ok top ->
        (mask_sum (best_voxels_edit_mask
                     (attention_probs small_attn_vals small_attn_vals) top)
         < min_num_edit_voxels)%nat)
  /\ select_seeds (S := Qc_scalar) id_perm small_attn_vals small_attn_vals
       (attention_probs small_attn_vals small_attn_vals)
     = Raise (RuntimeError TopK)
  /\ build_graph (S := Qc_scalar) follow_seeds id_perm small_features
       small_densities small_attn small_attn ex_K ex_sigma
     = (empty_graph_with 8, Raise (RuntimeError TopK)).
Proof.
  split; [vm_compute; reflexivity|].
  split.
  { intros top Htop.
    assert (Hb : match torch_max (S := Qc_scalar)
                         (map fst (attention_probs small_attn_vals
                                                   small_attn_vals)) with
                 | Ok t => (mask_sum (best_voxels_edit_mask
                                        (attention_probs small_attn_vals
                                                         small_attn_vals) t)
                            <? min_num_edit_voxels)%nat
                 | Raise _ => true
                 end = true) by (vm_compute; reflexivity).
    rewrite Htop in Hb. by apply Nat.ltb_lt. }
  split; vm_compute; reflexivity.
Qed.

Lemma zero_model_inactive :
  idx_values_of (S := Qc_scalar) (_densities zero_model) = [].
Proof. vm_compute. reflexivity. Qed.

(** Counterexample of C3 as stated: with an empty active set the pipeline
    raises the RuntimeError of [torch.max]; there is neither an empty
    labelling nor an output grid. *)
Lemma empty_active_set_counterexample :
  idx_values_of (S := Qc_scalar) (_densities zero_model) = []
  /\ get_edit_region (S := Qc_scalar) follow_seeds id_perm zero_model zero_model
       ex_K ex_sigma
     = (empty_graph, Raise (RuntimeError TorchMax))
  /\ build_graph (S := Qc_scalar) follow_seeds id_perm small_features
       zero_densities small_attn small_attn ex_K ex_sigma
     = (empty_graph, Raise (RuntimeError TorchMax)).
Proof. split; [|split]; vm_compute; reflexivity. Qed.

(** Witness of C3. *)
Lemma empty_active_set_raises_witness :
  exists g e,
    get_edit_region (S := Qc_scalar) follow_seeds id_perm zero_model zero_model
      ex_K ex_sigma = (g, Raise e)
    /\ g_nodes g = 0%nat.
Proof.
  exact (proj1 (empty_active_set_raises (S := Qc_scalar) follow_seeds id_perm
                  zero_model zero_model ex_K ex_sigma zero_model_inactive)).
Defined.

Lemma wide_model_shape : gshape (attn small_model) <> gshape (attn wide_model).
Proof. simpl. discriminate. Qed.

(** Counterexample of C4 as stated, in two parts.  Attention fields of
    different shapes: both assertions of the entry pass, the eight nodes are
    added to the graph, and only then the mask selection on the object
    attention raises an IndexError.  Density and feature grids of different
    shapes, 7x7x7 against 1x7x7 with the same values: nothing is raised at
    all, and the call returns the grids with a graph of 343 nodes. *)
Lemma shape_mismatch_counterexample :
  (gshape (attn small_model) <> gshape (attn wide_model)
   /\ torch_eq_all (scalar_eq (S := Qc_scalar)) DensityAssert
        (_densities small_model) (_densities wide_model) = Ok true
   /\ torch_eq_all (channels_eq (S := Qc_scalar) FeatureAssert) FeatureAssert
        (_features small_model) (_features wide_model) = Ok true
   /\ get_edit_region (S := Qc_scalar) follow_seeds id_perm small_model wide_model
        ex_K ex_sigma
      = (empty_graph_with 8, Raise (IndexError MaskSelect))
   /\ ~ (exists e, get_edit_region (S := Qc_scalar) follow_seeds id_perm
                     small_model wide_model ex_K ex_sigma
                   = (empty_graph, Raise e)))
  /\ (gshape (_densities fb_vol_edit) <> gshape (_densities flat_vol_object)
      /\ gshape (_features fb_vol_edit) <> gshape (_features flat_vol_object)
      /\ is_ok (snd flat_region) = true
      /\ g_nodes (fst flat_region) = 343%nat).
Proof.
  assert (Hrun : get_edit_region (S := Qc_scalar) follow_seeds id_perm
                   small_model wide_model ex_K ex_sigma
                 = (empty_graph_with 8, Raise (IndexError MaskSelect)))
    by (vm_compute; reflexivity).
  split.
  - split; [exact wide_model_shape|].
    split; [vm_compute; reflexivity|].
    split; [vm_compute; reflexivity|].
    split; [exact Hrun|].
    intros [e He]. rewrite Hrun in He. discriminate.
  - split; [simpl; discriminate|].
    split; [simpl; discriminate|].
    split; vm_compute; reflexivity.
Qed.

(** Witness of C4: density and feature grids of shape 3x2x2 against 2x2x2,
    the density grids 7x7x7 and 1x7x7 with equal values, the dense and the
    empty 2x2x2 density grids, and attention fields of different shapes. *)
Lemma shape_mismatch_handling_witness :
  get_edit_region (S := Qc_scalar) follow_seeds id_perm small_model
                  wide_density_model ex_K ex_sigma
  = (empty_graph, Raise (RuntimeError DensityAssert))
  /\ torch_eq_all (scalar_eq (S := Qc_scalar)) DensityAssert
       (_densities fb_vol_edit) (_densities flat_vol_object)
     = Ok (forallb (fun c => feqb (Scalar := Qc_scalar)
                               (bget (_densities fb_vol_edit) c)
                               (bget (_densities flat_vol_object) c))
                   (idx_grid (7, 7, 7)%nat))
  /\ get_edit_region (S := Qc_scalar) follow_seeds id_perm small_model
                     zero_model ex_K ex_sigma
     = (empty_graph, Raise (AssertionError DensityAssert))
  /\ get_edit_region (S := Qc_scalar) follow_seeds id_perm small_model
                     wide_feature_model ex_K ex_sigma
     = (empty_graph, Raise (RuntimeError FeatureAssert))
  /\ exists g e,
       get_edit_region (S := Qc_scalar) follow_seeds id_perm small_model
                       wide_model ex_K ex_sigma = (g, Raise e).
Proof.
  split; [|split; [|split; [|split]]].
  - apply (proj1 (shape_mismatch_handling (S := Qc_scalar) follow_seeds id_perm
                    small_model wide_density_model ex_K ex_sigma)).
    reflexivity.
  - destruct (shape_mismatch_handling (S := Qc_scalar) follow_seeds id_perm
                fb_vol_edit flat_vol_object ex_K ex_sigma) as (_ & Hvalues & _).
    destruct (Hvalues (7, 7, 7)%nat eq_refl) as [Hsame _]. exact Hsame.
  - destruct (shape_mismatch_handling (S := Qc_scalar) follow_seeds id_perm
                small_model zero_model ex_K ex_sigma) as (_ & Hvalues & _).
    destruct (Hvalues (2, 2, 2)%nat eq_refl) as [_ Hdiff]. apply Hdiff.
    vm_compute. reflexivity.
  - destruct (shape_mismatch_handling (S := Qc_scalar) follow_seeds id_perm
                small_model wide_feature_model ex_K ex_sigma) as (_ & _ & Hfeat & _).
    apply Hfeat; [vm_compute; reflexivity | reflexivity].
  - destruct (shape_mismatch_handling (S := Qc_scalar) follow_seeds id_perm
                small_model wide_model ex_K ex_sigma) as (_ & _ & _ & Hattn).
    destruct (Hattn wide_model_shape) as (g & e & Hrun & _).
    by exists g, e.
Defined.

(** Counterexample of C5 as stated: in the grid left in the output model's
    attention field, the voxel (6, 0, 0), active and labelled OBJECT, holds
    the intermediate sentinel -10, which is neither the selected nor the
    background sentinel. *)
Lemma intermediate_sentinel_counterexample :
  is_ok (snd ex_region) = true
  /\ in_bounds (gshape ex_output) (6, 0, 0) = true
  /\ gdata ex_output (6, 0, 0) = inside_density (S := Qc_scalar)
  /\ inside_density (S := Qc_scalar) <> selected
  /\ inside_density (S := Qc_scalar) <> background.
Proof.
  split; [vm_compute; reflexivity|].
  split; [vm_compute; reflexivity|].
  split; [vm_compute; reflexivity|].
  split; intros H; apply (f_equal this) in H; vm_compute in H; discriminate.
Qed.

Lemma ex_refined_ok :
  set_and_visualize_refined_grid (S := Qc_scalar) ex_densities ex_edit_attn
                                 ex_obj_attn ex_segments ex_idxs
  = Ok (ok_or no_grids ex_refined).
Proof. apply is_ok_eq. vm_compute. reflexivity. Qed.

(** Witness of C5: the voxel (6, 0, 0) of the grid materialized from the
    labelling of the first run. *)
Lemma graphcut_grid_values_witness :
  gdata (graphcut_grid (ok_or no_grids ex_refined)) (6, 0, 0) =
  if existsb (coord_eqb (6, 0, 0)) (edit_ids_of ex_segments ex_idxs) then selected
  else if non_zero_densities ex_densities (6, 0, 0) then inside_density
  else background.
Proof.
  exact (proj1 (graphcut_grid_values (S := Qc_scalar) ex_densities ex_edit_attn
                  ex_obj_attn ex_segments ex_idxs _ ex_refined_ok) (6, 0, 0)).
Defined.

(** Counterexample of C9 as stated, in binary32 with K = 5.0 and
    sigma = 0.1: the feature distances 1.75 and 1.75 + 2^-23 are computed
    exactly and differ, but their quotients by sigma round to the same
    float, -17.5, so that the two weights are equal whatever [torch.exp]
    returns. *)
Lemma float32_tie_counterexample :
  SpecFloat.SFltb (f32_lit 0) f32_K = true
  /\ SpecFloat.SFltb (f32_lit 0) f32_sigma = true
  /\ (forall exp,
        fltb (Scalar := f32_scalar exp)
             (l2 (S := f32_scalar exp) f32_near f32_origin)
             (l2 (S := f32_scalar exp) f32_far f32_origin) = true)
  /\ (forall exp,
        affinity (S := f32_scalar exp) f32_K f32_sigma
                 (l2 (S := f32_scalar exp) f32_far f32_origin) (f32_lit 0)
        = affinity (S := f32_scalar exp) f32_K f32_sigma
                   (l2 (S := f32_scalar exp) f32_near f32_origin) (f32_lit 0)).
Proof.
  split; [vm_compute; reflexivity|].
  split; [vm_compute; reflexivity|].
  split.
  - intros exp. vm_compute. reflexivity.
  - intros exp. unfold affinity.
    change (@fmul (f32_scalar exp)) with (SpecFloat.SFmul f32_prec f32_emax).
    change (@fexp (f32_scalar exp)) with exp.
    do 2 f_equal. all: vm_compute; reflexivity.
Qed.

(** Witness of C9: K = 5, sigma = 1/10, distances 0 and 1. *)
Lemma affinity_strictly_decreasing_witness :
  (affinity (S := R_scalar) 5 (1 / 10) (l2 (S := R_scalar) [0] [1]) 0
   < affinity (S := R_scalar) 5 (1 / 10) (l2 (S := R_scalar) [0] [0]) 0)%R.
Proof.
  apply affinity_strictly_decreasing; [lra | lra |].
  unfold l2, fsum, fsq. simpl. rewrite Q2R_0.
  replace (0 + (0 - 0) * (0 - 0))%R with 0%R by lra.
  replace (0 + (0 - 1) * (0 - 1))%R with 1%R by lra.
  rewrite sqrt_0, sqrt_1. lra.
Defined.

(** * Further properties of [build_graph] *)

Section MoreFacts.
Context {S : Scalar}.

(** ** Seeds *)

Lemma nonzero_spec_from (mask : list bool) s i :
  In i (map fst (List.filter snd (combine (seq s (length mask)) mask))) <->
  (s <= i)%nat /\ nth_error mask (i - s) = Some true.
Proof.
  revert s. induction mask as [|b mask IH]; intros s; simpl.
  - split; [done | intros [_ H]; by destruct (i - s)%nat].
  - destruct b; simpl; rewrite IH.
    + split.
      * intros [<- | [Hle Hn]]; [by rewrite Nat.sub_diag|].
        split; [lia|]. by replace (i - s)%nat with (Datatypes.S (i - Datatypes.S s)) by lia.
      * intros [Hle Hn]. destruct (i - s)%nat as [|m] eqn:Hm; [left; lia|].
        right. split; [lia|]. by replace (i - Datatypes.S s)%nat with m by lia.
    + split.
      * intros [Hle Hn]. split; [lia|].
        by replace (i - s)%nat with (Datatypes.S (i - Datatypes.S s)) by lia.
      * intros [Hle Hn]. destruct (i - s)%nat as [|m] eqn:Hm; [discriminate|].
        split; [lia|]. by replace (i - Datatypes.S s)%nat with m by lia.
Qed.

Lemma In_nonzero mask i : In i (nonzero mask) <-> nth_error mask i = Some true.
Proof.
  unfold nonzero. rewrite nonzero_spec_from, Nat.sub_0_r.
  split; [by intros [_ H] | split; [lia | done]].
Qed.

Lemma NoDup_nonzero mask : List.NoDup (nonzero mask).
Proof.
  unfold nonzero.
  assert (G : forall s, List.NoDup
            (map fst (List.filter snd (combine (seq s (length mask)) mask)))).
  { induction mask as [|b mask IH]; intros s; simpl; [constructor|].
    destruct b; simpl; [|apply IH].
    constructor; [|apply IH]. rewrite nonzero_spec_from. lia. }
  apply G.
Qed.

Lemma length_nonzero mask : length (nonzero mask) = mask_sum mask.
Proof.
  unfold nonzero, mask_sum. rewrite length_map.
  generalize 0%nat. induction mask as [|b mask IH]; intros s; simpl; [done|].
  destruct b; simpl; by rewrite IH.
Qed.

Lemma index_select_inv {A} s (t : list A) idx r :
  index_select s t idx = Ok r ->
  Forall2 (fun j a => nth_error t j = Some a) idx r.
Proof.
  revert r. induction idx as [|j idx IH]; intros r; simpl.
  - intros H. inversion H. constructor.
  - destruct (nth_error t j) as [a|] eqn:Hj; [|discriminate].
    intros H. apply result_bind_ok in H as (r' & Hr' & H). inversion H; subst r.
    constructor; [done | by apply IH].
Qed.

Lemma Forall2_In_r {A B} (E : A -> B -> Prop) l l' b :
  Forall2 E l l' -> In b l' -> exists a, In a l /\ E a b.
Proof.
  induction 1 as [|a' b' l l' HE HF IH]; simpl; [done|].
  intros [<- | Hb].
  - exists a'. split; [by left | done].
  - destruct (IH Hb) as (a & Ha & HEa). exists a. split; [by right | done].
Qed.

Lemma torch_topk_inv (v : list num) k idx :
  torch_topk v k = Ok idx ->
  (k <= length v)%nat /\ length idx = k /\ List.NoDup idx
  /\ forall i, In i idx -> (i < length v)%nat.
Proof.
  intros H. destruct (Nat.le_gt_cases k (length v)) as [Hk | Hk].
  - destruct (torch_topk_ok v k Hk) as (idx' & H' & Hl & Hnd & Hb).
    rewrite H in H'. inversion H'; subst idx'. done.
  - rewrite torch_topk_short in H by done. discriminate.
Qed.

(** The two ways [select_seeds] returns. *)
Lemma select_seeds_inv randperm ev ov probs edit obj :
  select_seeds randperm ev ov probs = Ok (edit, obj) ->
  exists top,
    torch_max (map fst probs) = Ok top
    /\ let mask := best_voxels_edit_mask probs top in
       let obj_idxs := nonzero (map (fun p => fltb (fst p) (snd p)) probs) in
       ((mask_sum mask < min_num_edit_voxels)%nat
        /\ torch_topk ev top_k_edit_thresh = Ok edit
        /\ torch_topk ov top_k_obj_thresh = Ok obj)
       \/ ((min_num_edit_voxels <= mask_sum mask)%nat
           /\ edit = nonzero mask
           /\ index_select ObjSubsample obj_idxs
                (firstn num_obj_voxels_thresh (randperm (length obj_idxs))) = Ok obj).
Proof.
  unfold select_seeds. intros H.
  apply result_bind_ok in H as (top & Htop & H). exists top. split; [done|].
  apply result_bind_ok in H as (sub & Hsub & H). simpl.
  destruct (Nat.ltb_spec (mask_sum (best_voxels_edit_mask probs top))
                         min_num_edit_voxels) as [Hlt | Hge].
  - left. apply result_bind_ok in H as (et & Het & H).
    apply result_bind_ok in H as (ot & Hot & H). inversion H; subst. done.
  - right. inversion H; subst. done.
Qed.

Lemma seeds_of_inv randperm densities edit_attn obj_attn edit obj :
  seeds_of randperm densities edit_attn obj_attn = Ok (edit, obj) ->
  gshape edit_attn = gshape densities
  /\ gshape obj_attn = gshape densities
  /\ select_seeds randperm (map (gdata edit_attn) (idx_values_of densities))
       (map (gdata obj_attn) (idx_values_of densities))
       (probs_of densities edit_attn obj_attn) = Ok (edit, obj).
Proof.
  unfold seeds_of, probs_of. intros H.
  apply result_bind_ok in H as (ev & Hev & H).
  apply result_bind_ok in H as (ov & Hov & H).
  apply mask_select_ok in Hev as [He ->], Hov as [Ho ->].
  by apply shape_eqb_spec in He, Ho.
Qed.

Lemma length_probs_of densities edit_attn obj_attn :
  length (probs_of densities edit_attn obj_attn) = length (idx_values_of densities).
Proof.
  unfold probs_of, attention_probs.
  rewrite !length_map, length_combine, !length_map. lia.
Qed.

(** X1. [build_graph] hands the graph to the solver only with at least 300
    edit seeds, hence at least 300 active voxels, and with at most 5000
    object seeds: the primary rule is kept only when it selects 300 voxels
    or more, the fallback asks [torch.topk] for exactly 300 and 200, and the
    random subsample of the object-dominant voxels is cut at 5000. *)
Theorem seed_counts solver randperm features densities edit_attn obj_attn
    K sigma g r :
  build_graph solver randperm features densities edit_attn obj_attn K sigma
    = (g, Ok r) ->
  exists edit obj,
    seeds_of randperm densities edit_attn obj_attn = Ok (edit, obj)
    /\ (300 <= length edit)%nat
    /\ (length edit <= length (idx_values_of densities))%nat
    /\ (length obj <= 5000)%nat.
Proof.
  destruct r as [segments idxs]. intros Hrun.
  apply build_graph_ok in Hrun as (edit & obj & ess & Hseeds & _).
  exists edit, obj. split; [done|].
  apply seeds_of_inv in Hseeds as (_ & _ & Hsel).
  apply select_seeds_inv in Hsel as (top & _ & [(Hlt & He & Ho) | (Hge & -> & Ho)]).
  - apply torch_topk_inv in He as (Hk & Hl & _), Ho as (_ & Hlo & _).
    rewrite length_map in Hk.
    unfold top_k_edit_thresh, top_k_obj_thresh in *. lia.
  - rewrite length_nonzero. unfold min_num_edit_voxels in Hge.
    split; [lia|]. split.
    + etransitivity; [apply mask_sum_le|].
      unfold best_voxels_edit_mask. by rewrite length_map, length_probs_of.
    + apply index_select_inv, Forall2_length in Ho. rewrite <- Ho.
      rewrite length_firstn. unfold num_obj_voxels_thresh. lia.
Qed.

(** X2. Every seed index of a returning run is the index of a node, and the
    edit seeds are pairwise distinct. *)
Theorem seeds_are_nodes solver randperm features densities edit_attn obj_attn
    K sigma g r edit obj :
  build_graph solver randperm features densities edit_attn obj_attn K sigma
    = (g, Ok r) ->
  seeds_of randperm densities edit_attn obj_attn = Ok (edit, obj) ->
  List.NoDup edit
  /\ (forall i, In i edit -> (i < g_nodes g)%nat)
  /\ (forall i, In i obj -> (i < g_nodes g)%nat).
Proof.
  destruct r as [segments idxs]. intros Hrun Hseeds.
  apply build_graph_ok in Hrun as (edit' & obj' & ess & _ & _ & Hn & _).
  rewrite Hn. clear Hn.
  apply seeds_of_inv in Hseeds as (_ & _ & Hsel).
  assert (Hmask : forall (mask : list bool) i,
            length mask = length (idx_values_of densities) ->
            In i (nonzero mask) -> (i < length (idx_values_of densities))%nat).
  { intros mask i Hl Hi%In_nonzero. rewrite <- Hl. apply nth_error_Some. congruence. }
  apply select_seeds_inv in Hsel as (top & _ & [(Hlt & He & Ho) | (Hge & -> & Ho)]).
  - apply torch_topk_inv in He as (_ & _ & Hnd & Hb), Ho as (_ & _ & _ & Hbo).
    rewrite length_map in Hb, Hbo. done.
  - split; [apply NoDup_nonzero|]. split.
    + intros i. apply Hmask. unfold best_voxels_edit_mask.
      by rewrite length_map, length_probs_of.
    + intros i Hi. apply index_select_inv in Ho.
      destruct (Forall2_In_r _ _ _ _ Ho Hi) as (j & _ & Hj).
      apply nth_error_In in Hj. revert Hj. apply Hmask.
      by rewrite length_map, length_probs_of.
Qed.

(** ** Terminal edges and the labelling *)

Lemma filter_flat_map_single {A B} (f : A -> list B) (P : B -> bool) l a :
  List.NoDup l -> In a l ->
  (forall a' b, In a' l -> a' <> a -> In b (f a') -> P b = false) ->
  List.filter P (flat_map f l) = List.filter P (f a).
Proof.
  intros Hnd Ha Hoth. rewrite flat_map_concat_map.
  apply (filter_concat_single (fun a' es => es = f a') P l (map f l) a).
  - clear. induction l; simpl; constructor; done.
  - done.
  - done.
  - intros a' es Ha' Hne ->. apply filter_nil_iff. intros b Hb. by apply (Hoth a').
  - by intros es ->.
Qed.

Lemma filter_flat_map_none {A B} (f : A -> list B) (P : B -> bool) l :
  (forall a b, In a l -> In b (f a) -> P b = false) ->
  List.filter P (flat_map f l) = [].
Proof.
  intros H. apply filter_nil_iff. intros b (a & Ha & Hb)%in_flat_map. by apply (H a).
Qed.

(** X3. Each node of a returning run has at most one terminal edge: an
    object seed that is not an edit seed gets (0, inf), and a node that is
    in neither seed tensor gets none, so that its label is left to the
    cut. *)
Theorem terminal_edge_per_node solver randperm features densities edit_attn
    obj_attn K sigma g r edit obj i :
  build_graph solver randperm features densities edit_attn obj_attn K sigma
    = (g, Ok r) ->
  seeds_of randperm densities edit_attn obj_attn = Ok (edit, obj) ->
  let at_node := List.filter (fun t => Nat.eqb (tedge_node t) i) (g_tedges g) in
  (length at_node <= 1)%nat
  /\ (contains edit i = false -> contains obj i = true -> (i < g_nodes g)%nat ->
      at_node = [(i, Fin (lit 0), Inf)])
  /\ (contains edit i = false -> contains obj i = false -> at_node = []).
Proof.
  destruct r as [segments idxs]. intros Hrun Hseeds.
  apply build_graph_ok in Hrun as (edit' & obj' & ess & Hseeds' & _ & Hn & Ht & _).
  rewrite Hseeds in Hseeds'. inversion Hseeds'; subst edit' obj'.
  simpl. rewrite Ht, Hn.
  assert (Hother : forall j t, j <> i -> In t (terminal_of edit obj j) ->
            Nat.eqb (tedge_node t) i = false).
  { intros j t Hne Hin. apply Nat.eqb_neq.
    apply In_terminal_of in Hin as [[-> _] | [-> _]]; done. }
  assert (Hcase : List.filter (fun t => Nat.eqb (tedge_node t) i)
                    (flat_map (terminal_of edit obj)
                              (seq 0 (length (idx_values_of densities))))
                  = if (i <? length (idx_values_of densities))%nat
                    then terminal_of edit obj i else []).
  { destruct (Nat.ltb_spec i (length (idx_values_of densities))) as [Hlt | Hge].
    - rewrite (filter_flat_map_single _ _ _ i);
        [| apply seq_NoDup | apply in_seq; lia
         | intros j t _ Hne; by apply Hother].
      unfold terminal_of.
      destruct (contains edit i); [|destruct (contains obj i)]; simpl;
        unfold tedge_node; simpl; by rewrite ?Nat.eqb_refl.
    - apply filter_flat_map_none. intros j t Hj%in_seq. apply Hother. lia. }
  rewrite Hcase. unfold terminal_of.
  destruct (Nat.ltb_spec i (length (idx_values_of densities))) as [Hlt | Hge].
  - destruct (contains edit i), (contains obj i); simpl;
      (split; [lia|]); split; intros; congruence.
  - simpl. split; [lia|]. split; [intros; lia | done].
Qed.

(** X4. The labelling returned by [build_graph] has one entry per node, in
    the order of the returned coordinates; these are pairwise distinct and
    are exactly the voxels of the grid whose dilated density is positive. *)
Theorem labelling_covers_active_voxels solver randperm features densities
    edit_attn obj_attn K sigma g segments idxs :
  build_graph solver randperm features densities edit_attn obj_attn K sigma
    = (g, Ok (segments, idxs)) ->
  length segments = length idxs
  /\ g_nodes g = length idxs
  /\ List.NoDup idxs
  /\ (forall c, In c idxs <->
                in_bounds (gshape densities) c = true
                /\ non_zero_densities densities c = true)
  /\ (forall i, (i < length idxs)%nat -> nth_error segments i = Some (solver g i)).
Proof.
  intros Hrun.
  apply build_graph_ok in Hrun as (edit & obj & ess & _ & -> & Hn & _ & _ & _ & ->).
  split; [by rewrite length_map, length_seq|]. split; [done|].
  split; [apply NoDup_idx_values|]. split; [apply In_idx_values|].
  intros i Hi. rewrite nth_error_map, nth_error_seq.
  by destruct (Nat.ltb_spec i (length (idx_values_of densities))); [|lia].
Qed.

(** ** The neighbour loop *)

(** X5. Line 293 indexes [probs] with the coordinate of the node: in a run
    that returns, every node with a neighbour that passes the three tests
    has its three coordinates below the number of nodes (otherwise
    [probs[nidx]] raises an IndexError). *)
Theorem node_coordinates_index_probs solver randperm features densities
    edit_attn obj_attn K sigma g r a va off :
  build_graph solver randperm features densities edit_attn obj_attn K sigma
    = (g, Ok r) ->
  nth_error (idx_values_of densities) a = Some va ->
  In off g_neighbor_offsets ->
  passes_bounds_checks (gshape densities) (coord_add va off) = true ->
  fleb (gdata densities (coord_add va off)) (lit 0) = false ->
  let '(v0, v1, v2) := va in
  v0 < Z.of_nat (g_nodes g) /\ v1 < Z.of_nat (g_nodes g)
  /\ v2 < Z.of_nat (g_nodes g).
Proof.
  destruct r as [segments idxs]. intros Hrun Ha Hoff Hpb Hd.
  apply build_graph_ok in Hrun as (edit & obj & ess & _ & _ & Hn & _ & HF & _).
  assert (Hlt : (a < length (idx_values_of densities))%nat)
    by (apply nth_error_Some; congruence).
  assert (Hva : nth a (idx_values_of densities) (0, 0, 0) = va).
  { apply (nth_error_nth_default _ _ (0, 0, 0)) in Hlt. congruence. }
  destruct (neighbor_edge_total _ _ _ _ _ _ _ _ _ a off HF Hlt Hoff) as (e & Hr & _).
  rewrite Hva in Hr.
  apply neighbor_edge_inv in Hr as [[_ [Hc | Hc]] | (_ & _ & j & l2p & _ & Hl2 & _)];
    [congruence | congruence |].
  unfold l2_probs_of in Hl2. apply result_bind_ok in Hl2 as (rows & Hrows & _).
  unfold probs_rows in Hrows. destruct va as [[v0 v1] v2].
  destruct (forallb _ _) eqn:Hall; [|discriminate].
  simpl in Hall. rewrite !andb_true_iff, !in_range_spec in Hall.
  rewrite length_probs_of, <- Hn in Hall. lia.
Qed.

Lemma length_opt_list {A} (o : option A) : (length (opt_list o) <= 1)%nat.
Proof. destruct o; simpl; lia. Qed.

Lemma length_concat_le {A B} (E : A -> list B -> Prop) k l ess :
  Forall2 E l ess -> (forall a es, E a es -> (length es <= k)%nat) ->
  (length (concat ess) <= k * length l)%nat.
Proof.
  intros HF Hk. induction HF as [|a es l ess HE HF IH]; simpl; [lia|].
  rewrite length_app. specialize (Hk a es HE). lia.
Qed.

(** X6. The neighbour loop calls [add_edge] at most six times per node: the
    graph of a returning run has at most 6 * num_nodes edge entries. *)
Theorem at_most_six_edges_per_node solver randperm features densities
    edit_attn obj_attn K sigma g r :
  build_graph solver randperm features densities edit_attn obj_attn K sigma
    = (g, Ok r) ->
  (length (g_edges g) <= 6 * g_nodes g)%nat.
Proof.
  destruct r as [segments idxs]. intros Hrun.
  apply build_graph_ok in Hrun as (edit & obj & ess & _ & _ & Hn & _ & HF & -> & _).
  rewrite Hn.
  assert (Hnode : forall i es,
            node_edges features densities (probs_of densities edit_attn obj_attn)
                       (dict_of densities) K sigma (idx_values_of densities) i es ->
            (length es <= 6)%nat).
  { intros i es (ess' & HF' & ->).
    pose proof (length_concat_le _ 1 _ _ HF') as H. simpl in H. apply H.
    intros off es' (o & _ & ->). apply length_opt_list. }
  pose proof (length_concat_le _ 6 _ _ HF Hnode) as H.
  by rewrite length_seq in H.
Qed.

Lemma l2_sym (u v : list num) :
  (forall a b : num, fsq (fsub a b) = fsq (fsub b a)) -> l2 u v = l2 v u.
Proof.
  intros Hsq. unfold l2. do 2 f_equal.
  revert v. induction u as [|a u IH]; intros [|b v]; simpl; try done.
  by rewrite Hsq, IH.
Qed.

(** X7. The affinity does not depend on the direction: when [add_edge] is
    called from node a to node b and from node b to node a, both calls carry
    the same weight.  The square of a difference is assumed not to depend on
    the order of its operands, as for reals and floats. *)
Theorem weight_same_in_both_calls `{!ScalarLaws S} solver randperm features
    densities edit_attn obj_attn K sigma g r a b w rw w' rw' :
  (forall x y : num, fsq (fsub x y) = fsq (fsub y x)) ->
  build_graph solver randperm features densities edit_attn obj_attn K sigma
    = (g, Ok r) ->
  In (a, b, w, rw) (g_edges g) ->
  In (b, a, w', rw') (g_edges g) ->
  w' = w.
Proof.
  destruct r as [segments idxs]. intros Hsq Hrun H1 H2.
  destruct (edge_of_run _ _ _ _ _ _ _ _ _ _ _ _ _ _ _ Hrun H1)
    as (va & off & l2p & Ha & _ & Hb & _ & _ & -> & _).
  destruct (edge_of_run _ _ _ _ _ _ _ _ _ _ _ _ _ _ _ Hrun H2)
    as (vb & off' & l2p' & Hb' & _ & Ha' & _ & _ & -> & _).
  rewrite Hb in Hb'. inversion Hb'; subst vb.
  assert (Hc : coord_add (coord_add va off) off' = va) by congruence.
  unfold affinity. rewrite !fmul_one, !fmul_zero, !fadd_zero.
  rewrite Hc. by rewrite (l2_sym _ _ Hsq).
Qed.

(** X8. The bounds tests of lines 278-279 compare every component of the
    neighbour with each of x, y and z: the target voxel of every edge has all
    its coordinates below the shortest axis of the grid.  On a grid that is
    not a cube, voxels beyond that bound are never the target of an edge. *)
Theorem edge_targets_below_shortest_axis solver randperm features densities
    edit_attn obj_attn K sigma g r a b w rw n :
  build_graph solver randperm features densities edit_attn obj_attn K sigma
    = (g, Ok r) ->
  In (a, b, w, rw) (g_edges g) ->
  nth_error (idx_values_of densities) b = Some n ->
  let '(x, y, z) := gshape densities in
  let '(n0, n1, n2) := n in
  let m := Z.of_nat (Nat.min x (Nat.min y z)) in
  0 <= n0 < m /\ 0 <= n1 < m /\ 0 <= n2 < m.
Proof.
  destruct r as [segments idxs]. intros Hrun Hin Hn.
  destruct (edge_of_run _ _ _ _ _ _ _ _ _ _ _ _ _ _ _ Hrun Hin)
    as (va & off & l2p & _ & _ & Hb & Hpb & _).
  rewrite Hn in Hb. inversion Hb; subst n. clear Hb Hn.
  destruct (gshape densities) as [[x y] z].
  destruct (coord_add va off) as [[n0 n1] n2].
  unfold passes_bounds_checks, any_ge, any_neg in Hpb.
  rewrite andb_true_iff, !negb_true_iff, !orb_false_iff in Hpb.
  rewrite !Z.leb_gt, !Z.ltb_ge in Hpb. lia.
Qed.

Lemma NoDup_index_select {A} (t : list A) idx r :
  Forall2 (fun j a => nth_error t j = Some a) idx r ->
  List.NoDup t -> List.NoDup idx -> List.NoDup r.
Proof.
  intros HF Ht. induction HF as [|j a idx r Hj HF IH]; intros Hidx; [constructor|].
  inversion Hidx as [|? ? Hnot Hidx']; subst. constructor; [|by apply IH].
  intros Ha. destruct (Forall2_In_r _ _ _ _ HF Ha) as (j' & Hj' & Hja).
  assert (j = j'); [|by subst].
  apply (proj1 (NoDup_nth_error t) Ht); [|congruence].
  apply nth_error_Some. congruence.
Qed.

(** X9. When the primary rule is kept, the object seeds are a sample
    without repetition of the object-dominant voxels, those with
    p_object > p_edit, and there are min(5000, number of object-dominant
    voxels) of them, for every permutation [torch.randperm] returns. *)
Theorem object_seeds_subsample (randperm : nat -> list nat)
    (edit_attn_vals obj_attn_vals : list num) (probs : list (num * num))
    edit obj top :
  (forall n, Permutation (randperm n) (seq 0 n)) ->
  select_seeds randperm edit_attn_vals obj_attn_vals probs = Ok (edit, obj) ->
  torch_max (map fst probs) = Ok top ->
  (min_num_edit_voxels <= mask_sum (best_voxels_edit_mask probs top))%nat ->
  let dominant := map (fun p => fltb (fst p) (snd p)) probs in
  List.NoDup obj
  /\ (forall i, In i obj -> nth_error dominant i = Some true)
  /\ length obj = Nat.min num_obj_voxels_thresh (mask_sum dominant).
Proof.
  intros Hperm Hsel Htop Hge.
  apply select_seeds_inv in Hsel as (top' & Htop' & Hcase).
  rewrite Htop in Htop'. inversion Htop'; subst top'. simpl in Hcase.
  destruct Hcase as [(Hlt & _) | (_ & _ & Ho)]; [lia|].
  apply index_select_inv in Ho. simpl.
  set (dominant := map (fun p => fltb (fst p) (snd p)) probs) in *.
  assert (Hnd : List.NoDup (randperm (length (nonzero dominant)))).
  { eapply Permutation_NoDup; [symmetry; apply Hperm | apply seq_NoDup]. }
  split; [|split].
  - apply (NoDup_index_select _ _ _ Ho); [apply NoDup_nonzero|].
    rewrite <- (firstn_skipn num_obj_voxels_thresh) in Hnd.
    by apply NoDup_app_remove_r in Hnd.
  - intros i Hi. destruct (Forall2_In_r _ _ _ _ Ho Hi) as (j & _ & Hj).
    apply nth_error_In in Hj. by apply In_nonzero.
  - apply Forall2_length in Ho. rewrite <- Ho, length_firstn.
    rewrite (Permutation_length (Hperm _)), length_seq. by rewrite length_nonzero.
Qed.

(** ** The pipeline *)

Lemma broadcast_shape_refl s : broadcast_shape s s = Some s.
Proof.
  destruct s as [[x y] z]. unfold broadcast_shape, broadcast_dim.
  by rewrite !Nat.eqb_refl.
Qed.

Lemma shape_eqb_refl s : shape_eqb s s = true.
Proof. by apply shape_eqb_spec. Qed.

Lemma index_assign_all_total (t : Grid num) idxs v :
  (forall c, In c idxs -> in_bounds (gshape t) c = true) ->
  exists t', index_assign_all t idxs v = Ok t'.
Proof.
  revert t. induction idxs as [|c idxs IH]; intros t Hb; simpl; [by eexists|].
  unfold index_assign. rewrite (Hb c) by (by left). simpl.
  apply IH. simpl. intros c' Hc'. apply Hb. by right.
Qed.

Lemma In_combine_nth_error {A B} (l : list A) (l' : list B) a b :
  In (a, b) (combine l l') <->
  exists j, nth_error l j = Some a /\ nth_error l' j = Some b.
Proof.
  revert l'. induction l as [|x l IH]; intros [|y l']; simpl.
  - split; [done | intros ([|j] & H & _); discriminate].
  - split; [done | intros ([|j] & H & _); discriminate].
  - split; [done | intros ([|j] & _ & H); discriminate].
  - rewrite IH. split.
    + intros [Heq | (j & Hj)]; [inversion Heq; by exists 0%nat | by exists (Datatypes.S j)].
    + intros ([|j] & H1 & H2); simpl in *; [left; congruence | right; by exists j].
Qed.

Lemma In_edit_ids_of ids idxs c :
  In c (edit_ids_of ids idxs) <->
  exists j, nth_error ids j = Some SOURCE /\ nth_error idxs j = Some c.
Proof.
  unfold edit_ids_of. rewrite in_map_iff. split.
  - intros ([t c'] & Hc & [Hin Ht]%filter_In). simpl in *. subst c'.
    destruct t; [|discriminate]. by apply In_combine_nth_error.
  - intros Hj. exists (SOURCE, c). split; [done|].
    apply filter_In. split; [by apply In_combine_nth_error | done].
Qed.

Lemma existsb_coord_eqb c l : existsb (coord_eqb c) l = true <-> In c l.
Proof.
  rewrite existsb_exists. split.
  - intros (c' & Hin & ->%coord_eqb_spec). done.
  - intros Hin. exists c. split; [done | by apply coord_eqb_spec].
Qed.

Lemma set_and_visualize_total edit_densities edit_attn object_attn ids idxs :
  gshape edit_attn = gshape edit_densities ->
  gshape object_attn = gshape edit_densities ->
  length ids = length idxs ->
  (forall c, In c idxs -> in_bounds (gshape edit_densities) c = true) ->
  exists grids,
    set_and_visualize_refined_grid edit_densities edit_attn object_attn ids idxs
      = Ok grids.
Proof.
  intros He Ho Hl Hb. unfold set_and_visualize_refined_grid.
  rewrite He, Ho, broadcast_shape_refl. simpl. rewrite shape_eqb_refl. simpl.
  rewrite Hl, Nat.eqb_refl. simpl.
  destruct (index_assign_all_total
              (mask_assign (ones_like_times edit_attn background)
                           (non_zero_densities edit_densities) inside_density)
              (edit_ids_of ids idxs) selected) as [t' Ht'].
  - simpl. rewrite He. intros c (j & _ & Hj)%In_edit_ids_of.
    apply Hb. by apply nth_error_In in Hj.
  - rewrite Ht'. by eexists.
Qed.

(** X10. Once [build_graph] has returned inside [get_edit_region], the grid
    assignments of [set_and_visualize_refined_grid] cannot raise: the masks
    have the shape of the grid and every labelled coordinate is inside it.
    With the two assertions of the entry passing, the grids are produced
    whenever [build_graph] returns (rendering and logging are not part of
    the model). *)
Theorem get_edit_region_returns solver randperm vol_mod_edit vol_mod_object
    K sigma g ids idxs :
  torch_eq_all scalar_eq DensityAssert (_densities vol_mod_edit)
               (_densities vol_mod_object) = Ok true ->
  torch_eq_all (channels_eq FeatureAssert) FeatureAssert
               (_features vol_mod_edit) (_features vol_mod_object) = Ok true ->
  build_graph solver randperm (sigmoid_features (_features vol_mod_edit))
              (_densities vol_mod_edit) (attn vol_mod_edit)
              (attn vol_mod_object) K sigma = (g, Ok (ids, idxs)) ->
  exists grids,
    get_edit_region solver randperm vol_mod_edit vol_mod_object K sigma
      = (g, Ok grids).
Proof.
  intros Hd Hf Hrun. unfold get_edit_region. rewrite Hd, Hf, Hrun.
  apply build_graph_ok in Hrun as (edit & obj & ess & Hseeds & -> & _ & _ & _ & _ & ->).
  apply seeds_of_inv in Hseeds as (He & Ho & _).
  destruct (set_and_visualize_total (_densities vol_mod_edit) (attn vol_mod_edit)
              (attn vol_mod_object)
              (map (solver g) (seq 0 (length (idx_values_of (_densities vol_mod_edit)))))
              (idx_values_of (_densities vol_mod_edit)) He Ho) as [grids Hgrids].
  - by rewrite length_map, length_seq.
  - intros c Hc. by apply In_idx_values in Hc as [? _].
  - rewrite Hgrids. by exists grids.
Qed.

Lemma graphcut_grid_data edit_densities edit_attn object_attn ids idxs grids :
  set_and_visualize_refined_grid edit_densities edit_attn object_attn ids idxs
    = Ok grids ->
  gshape (graphcut_grid grids) = gshape edit_attn
  /\ forall c, gdata (graphcut_grid grids) c =
               if existsb (coord_eqb c) (edit_ids_of ids idxs) then selected
               else if non_zero_densities edit_densities c then inside_density
               else background.
Proof.
  unfold set_and_visualize_refined_grid. intros H.
  apply result_bind_ok in H as (sh & _ & H).
  destruct (negb (shape_eqb sh _)); [discriminate|].
  destruct (negb (shape_eqb (gshape edit_densities) _)); [discriminate|].
  destruct (negb (length ids =? length idxs)%nat); [discriminate|].
  apply result_bind_ok in H as (second & Hsecond & H).
  inversion H; subst grids; clear H. simpl.
  by apply index_assign_all_ok in Hsecond as [Hs Hd].
Qed.

(** X11. The grid [get_edit_region] leaves in the output model reproduces
    the labelling voxel by voxel: the voxel of node i holds the selected
    sentinel when the solver puts i on the source side and the intermediate
    sentinel otherwise, and a voxel that is not active holds the background
    sentinel; in particular no inactive voxel is ever marked as edited. *)
Theorem output_grid_follows_labelling solver randperm vol_mod_edit
    vol_mod_object K sigma g grids :
  get_edit_region solver randperm vol_mod_edit vol_mod_object K sigma
    = (g, Ok grids) ->
  (forall i c, nth_error (idx_values_of (_densities vol_mod_edit)) i = Some c ->
     gdata (graphcut_grid grids) c =
     match solver g i with SOURCE => selected | SINK => inside_density end)
  /\ (forall c, non_zero_densities (_densities vol_mod_edit) c = false ->
        gdata (graphcut_grid grids) c = background)
  /\ gshape (graphcut_grid grids) = gshape (_densities vol_mod_edit).
Proof.
  intros Hrun. apply get_edit_region_ok in Hrun as (ids & idxs & Hrun & Hgrids).
  apply graphcut_grid_data in Hgrids as [Hshape Hdata].
  apply build_graph_ok in Hrun as (edit & obj & ess & Hseeds & -> & _ & _ & _ & _ & ->).
  apply seeds_of_inv in Hseeds as (He & _ & _).
  set (idx_values := idx_values_of (_densities vol_mod_edit)) in *.
  assert (Hseg : forall j, (j < length idx_values)%nat ->
            nth_error (map (solver g) (seq 0 (length idx_values))) j
            = Some (solver g j)).
  { intros j Hj. rewrite nth_error_map, nth_error_seq.
    by destruct (Nat.ltb_spec j (length idx_values)); [|lia]. }
  split; [|split].
  - intros i c Hi. rewrite Hdata.
    assert (Hlt : (i < length idx_values)%nat) by (apply nth_error_Some; congruence).
    assert (Hactive : non_zero_densities (_densities vol_mod_edit) c = true).
    { apply nth_error_In in Hi. by apply In_idx_values in Hi as [_ ?]. }
    destruct (existsb _ _) eqn:Hex.
    + apply existsb_coord_eqb, In_edit_ids_of in Hex as (j & Hj & Hc).
      assert (j = i) as -> by (by apply (nth_error_idx_values_inj (_densities vol_mod_edit) j i c)).
      rewrite Hseg in Hj by done. inversion Hj as [Hs]. by rewrite Hs.
    + rewrite Hactive. destruct (solver g i) eqn:Hs; [|done].
      assert (Hin : In c (edit_ids_of (map (solver g) (seq 0 (length idx_values)))
                                      idx_values)).
      { apply In_edit_ids_of. exists i. split; [|done]. by rewrite Hseg, Hs. }
      apply existsb_coord_eqb in Hin. congruence.
  - intros c Hc. rewrite Hdata, Hc.
    destruct (existsb _ _) eqn:Hex; [|done].
    apply existsb_coord_eqb, In_edit_ids_of in Hex as (j & _ & Hj).
    apply nth_error_In, In_idx_values in Hj as [_ Hj]. congruence.
  - by rewrite Hshape.
Qed.

Lemma bget_in_bounds {A} (t : Grid A) c :
  in_bounds (gshape t) c = true -> bget t c = gdata t c.
Proof.
  unfold bget. destruct (gshape t) as [[x y] z], c as [[a b] d].
  intros (Ha & Hb & Hd)%in_bounds_spec.
  destruct (Nat.eqb_spec x 1), (Nat.eqb_spec y 1), (Nat.eqb_spec z 1);
    repeat f_equal; lia.
Qed.

Lemma torch_eq_all_scalar s (t1 t2 : Grid num) :
  gshape t1 = gshape t2 ->
  torch_eq_all scalar_eq s t1 t2
  = Ok (forallb (fun c => feqb (gdata t1 c) (gdata t2 c)) (idx_grid (gshape t1))).
Proof.
  intros Hsh. unfold torch_eq_all. rewrite <- Hsh, broadcast_shape_refl.
  assert (G : forall l b0,
            (forall c, In c l -> in_bounds (gshape t1) c = true) ->
            fold_left (fun acc c => b ← acc; e ← scalar_eq (bget t1 c) (bget t2 c);
                                    Ok (b && e)) l (Ok b0)
            = Ok (b0 && forallb (fun c => feqb (gdata t1 c) (gdata t2 c)) l)).
  { induction l as [|c l IH]; intros b0 Hb; simpl; [by rewrite andb_true_r|].
    rewrite !bget_in_bounds; [| rewrite <- Hsh; apply Hb; by left | apply Hb; by left].
    unfold scalar_eq; simpl. rewrite IH; [by rewrite andb_assoc|].
    intros c' Hc'. apply Hb. by right. }
  rewrite G; [done|]. intros c. apply In_idx_grid.
Qed.

(** X12. The first assertion of [get_edit_region] compares density values:
    when the two density grids have the same shape and differ at a voxel,
    the call raises an AssertionError before any graph exists. *)
Theorem density_values_must_match solver randperm vol_mod_edit vol_mod_object
    K sigma c :
  gshape (_densities vol_mod_edit) = gshape (_densities vol_mod_object) ->
  in_bounds (gshape (_densities vol_mod_edit)) c = true ->
  feqb (gdata (_densities vol_mod_edit) c) (gdata (_densities vol_mod_object) c)
    = false ->
  get_edit_region solver randperm vol_mod_edit vol_mod_object K sigma
    = (empty_graph, Raise (AssertionError DensityAssert)).
Proof.
  intros Hsh Hb Hne. unfold get_edit_region.
  rewrite torch_eq_all_scalar by done.
  assert (Hall : forallb (fun c => feqb (gdata (_densities vol_mod_edit) c)
                                        (gdata (_densities vol_mod_object) c))
                         (idx_grid (gshape (_densities vol_mod_edit))) = false).
  { apply not_true_is_false. intros Hall. rewrite forallb_forall in Hall.
    apply In_idx_grid in Hb. apply Hall in Hb. congruence. }
  by rewrite Hall.
Qed.

End MoreFacts.

(** ** The attention loss and the logging schedule *)

(** X13. The three logging functions share one schedule.  A logging
    frequency of 0 raises ZeroDivisionError at every step, step 0 included
    (the modulo is evaluated before the test [global_step == 0]); for any
    other frequency, positive or negative, logging happens exactly at the
    steps the frequency divides, so the second test never adds a step. *)
Theorem log_schedule (global_step log_freq : Z) :
  (log_due global_step log_freq = None <-> log_freq = 0)
  /\ (log_due global_step log_freq = Some true <->
      log_freq <> 0 /\ (log_freq | global_step)).
Proof.
  unfold log_due. destruct (Z.eqb_spec log_freq 0) as [->|Hf].
  - split; [done|]. split; [done | by intros [? _]].
  - split; [done|]. rewrite <- (Z.mod_divide _ _ Hf). split.
    + intros H. inversion H as [Hor]. split; [done|].
      apply orb_prop in Hor as [Hm | Hz]; [lia|].
      apply Z.eqb_eq in Hz. subst. apply Z.mod_0_l. done.
    + intros [_ Hm]. by rewrite Hm.
Qed.

Section LossFacts.
Context {S : Scalar}.

Lemma diff_masked_cons x r y m :
  diff_masked (x :: r) (y :: m)
  = fmul (fabs (fsub x y)) (if fltb (lit 0) x then lit 1 else lit 0)
    :: diff_masked r m.
Proof. done. Qed.

Lemma diff_masked_ext r : forall m m',
  length m = length r -> length m' = length r ->
  (forall i a b, nth_error r i = Some a -> fltb (lit 0) a = true ->
     nth_error m i = Some b -> nth_error m' i = Some b) ->
  (forall i a b, nth_error r i = Some a -> fltb (lit 0) a = false ->
     nth_error m i = Some b \/ nth_error m' i = Some b ->
     fmul (fabs (fsub a b)) (lit 0) = lit 0) ->
  diff_masked r m = diff_masked r m'.
Proof.
  induction r as [|x r IH]; intros [|y m] [|y' m'] Hm Hm' Hsame Hfin;
    try discriminate; [done|].
  rewrite !diff_masked_cons. f_equal.
  - destruct (fltb (lit 0) x) eqn:Hx.
    + specialize (Hsame 0%nat x y eq_refl Hx eq_refl). simpl in Hsame. congruence.
    + rewrite (Hfin 0%nat x y eq_refl Hx) by (by left).
      by rewrite (Hfin 0%nat x y' eq_refl Hx) by (by right).
  - apply IH; [simpl in *; lia | simpl in *; lia | |].
    + intros i a b Ha Hpos Hb. by apply (Hsame (Datatypes.S i) a b).
    + intros i a b Ha Hpos Hb. by apply (Hfin (Datatypes.S i) a b).
Qed.

(** X14. The loss reads the target map only where the render is positive,
    as long as the differences it masks out are finite.  Lines 50-53 compute
    abs(render - map) * mask on every pixel; where the render is not
    positive the mask is 0.  Two maps of the shape of the render that agree
    where the render is positive give the same result, provided that at
    every other pixel abs(render - map) * 0 is 0 for both maps.  This holds
    of finite values; in float32 an infinite or NaN difference times 0 is
    NaN and reaches the sum. *)
Theorem loss_ignores_unrendered_pixels (attn_render attn_map attn_map' : list num)
    (global_step log_freq : Z) :
  length attn_map = length attn_render ->
  length attn_map' = length attn_render ->
  (forall i a b, nth_error attn_render i = Some a -> fltb (lit 0) a = true ->
     nth_error attn_map i = Some b -> nth_error attn_map' i = Some b) ->
  (forall i a b, nth_error attn_render i = Some a -> fltb (lit 0) a = false ->
     nth_error attn_map i = Some b \/ nth_error attn_map' i = Some b ->
     fmul (fabs (fsub a b)) (lit 0) = lit 0) ->
  calc_loss_on_attn_grid attn_render attn_map global_step log_freq
  = calc_loss_on_attn_grid attn_render attn_map' global_step log_freq.
Proof.
  intros Hm Hm' Hsame Hfin. unfold calc_loss_on_attn_grid.
  by rewrite (diff_masked_ext _ _ _ Hm Hm' Hsame Hfin), Hm, Hm'.
Qed.

End LossFacts.

Lemma fold_left_Rplus (l : list R) (a : R) :
  fold_left Rplus l a = (a + fold_left Rplus l 0)%R.
Proof.
  revert a. induction l as [|x l IH]; intros a; simpl; [lra|].
  rewrite (IH (a + x)%R), (IH (0 + x)%R). lra.
Qed.

Lemma fsum_R_cons (x : R) (l : list R) :
  fsum (S := R_scalar) (x :: l) = (x + fsum (S := R_scalar) l)%R.
Proof.
  unfold fsum. simpl. rewrite Q2R_0, fold_left_Rplus. lra.
Qed.

Lemma fsum_R_nil : fsum (S := R_scalar) [] = 0%R.
Proof. unfold fsum. simpl. apply Q2R_0. Qed.

Lemma fsum_R_nonneg (l : list R) :
  Forall (fun x => (0 <= x)%R) l -> (0 <= fsum (S := R_scalar) l)%R.
Proof.
  induction 1 as [|x l Hx _ IH]; [unfold fsum; simpl; rewrite Q2R_0; lra|].
  rewrite fsum_R_cons. lra.
Qed.

Lemma fsum_R_zero (l : list R) :
  Forall (fun x => (0 <= x)%R) l ->
  fsum (S := R_scalar) l = 0%R <-> Forall (fun x => x = 0%R) l.
Proof.
  induction 1 as [|x l Hx Hl IH]; [split; [constructor | intros _; unfold fsum; simpl; apply Q2R_0]|].
  rewrite fsum_R_cons. pose proof (fsum_R_nonneg l Hl) as Hs. split.
  - intros H. constructor; [lra | apply IH; lra].
  - intros H. inversion H as [|? ? H0 Hl0]; subst.
    apply IH in Hl0. lra.
Qed.

Lemma render_mask_R_cons (x : R) (l : list R) :
  render_mask (S := R_scalar) (x :: l)
  = (if Rlt_dec 0 x then 1%R else 0%R) :: render_mask (S := R_scalar) l.
Proof.
  unfold render_mask. simpl. rewrite Q2R_0, Q2R_1. by destruct (Rlt_dec 0 x).
Qed.

Lemma render_mask_R_nonneg (l : list R) :
  Forall (fun x => (0 <= x)%R) (render_mask (S := R_scalar) l).
Proof.
  induction l as [|x l IH]; [constructor|].
  rewrite render_mask_R_cons. constructor; [|exact IH].
  destruct (Rlt_dec 0 x); lra.
Qed.

Lemma render_mask_R_sum (r : list R) :
  Exists (fun x => (0 < x)%R) r ->
  (0 < fsum (S := R_scalar) (render_mask (S := R_scalar) r))%R.
Proof.
  induction 1 as [x l Hx | x l _ IH]; rewrite render_mask_R_cons, fsum_R_cons.
  - pose proof (fsum_R_nonneg _ (render_mask_R_nonneg l)).
    destruct (Rlt_dec 0 x); lra.
  - destruct (Rlt_dec 0 x); lra.
Qed.

Lemma fabs_R (a : R) : fabs (S := R_scalar) a = Rabs a.
Proof.
  unfold fabs. simpl. rewrite Q2R_0. unfold Rabs.
  destruct (Rlt_dec a 0), (Rcase_abs a); lra.
Qed.

Lemma diff_masked_R_cons (x y : R) (r m : list R) :
  diff_masked (S := R_scalar) (x :: r) (y :: m)
  = (Rabs (x - y) * (if Rlt_dec 0 x then 1 else 0))%R
    :: diff_masked (S := R_scalar) r m.
Proof.
  unfold diff_masked. simpl. rewrite Q2R_0, Q2R_1.
  change (Rminus x y) with (fsub (Scalar := R_scalar) x y).
  rewrite fabs_R. by destruct (Rlt_dec 0 x).
Qed.

Lemma diff_masked_R (r : list R) : forall m : list R, length r = length m ->
  Forall (fun x => (0 <= x)%R) (diff_masked (S := R_scalar) r m)
  /\ (Forall (fun x => x = 0%R) (diff_masked (S := R_scalar) r m) <->
      Forall (fun p => (0 < fst p)%R -> fst p = snd p) (combine r m)).
Proof.
  induction r as [|x r IH]; intros [|y m] Hl; try discriminate.
  - split; [constructor | split; constructor].
  - injection Hl as Hl'.
    destruct (IH m Hl') as [Hnn Hz].
    rewrite diff_masked_R_cons. simpl combine.
    assert (Hhd : (0 <= Rabs (x - y) * (if Rlt_dec 0 x then 1 else 0))%R
                  /\ ((Rabs (x - y) * (if Rlt_dec 0 x then 1 else 0))%R = 0%R
                      <-> ((0 < x)%R -> x = y))).
    { pose proof (Rabs_pos (x - y)) as Hp.
      destruct (Rlt_dec 0 x) as [Hx | Hx].
      - split; [lra|]. split.
        + intros H _. assert (Rabs (x - y) = 0%R) as Ha by lra.
          destruct (Req_dec (x - y) 0) as [|Hne]; [lra|].
          apply Rabs_no_R0 in Hne. done.
        + intros H. rewrite (H Hx). replace (y - y)%R with 0%R by lra.
          rewrite Rabs_R0. lra.
      - split; [lra|]. split; [done | intros _; lra]. }
    destruct Hhd as [Hh0 Hhz]. split; [by constructor|].
    rewrite !Forall_cons. simpl. by rewrite Hhz, Hz.
Qed.

(** X15. Over the reals, when some pixel of the render is positive the loss
    is a non-negative number, and it is zero exactly when the render equals
    the target map on every pixel where the render is positive. *)
Theorem attention_loss_zero_iff (attn_render attn_map : list R)
    (global_step log_freq : Z) (loss : R) :
  calc_loss_on_attn_grid (S := R_scalar) attn_render attn_map global_step log_freq
    = inr loss ->
  Exists (fun r => (0 < r)%R) attn_render ->
  (0 <= loss)%R
  /\ (loss = 0%R <->
      Forall (fun p => (0 < fst p)%R -> fst p = snd p)
             (combine attn_render attn_map)).
Proof.
  unfold calc_loss_on_attn_grid. intros Hrun Hpos.
  match type of Hrun with
  | (if negb ?b then _ else _) = _ => destruct b eqn:Hl; [|discriminate]
  end.
  apply Nat.eqb_eq in Hl. simpl in Hrun.
  destruct (log_due global_step log_freq) as [due|]; [|discriminate].
  destruct (due && _); [discriminate|]. inversion Hrun as [Hloss]. clear Hrun.
  destruct (diff_masked_R attn_render attn_map Hl) as [Hnn Hz].
  pose proof (render_mask_R_sum attn_render Hpos) as Hmask.
  pose proof (fsum_R_nonneg _ Hnn) as Hsum.
  pose proof (Rinv_0_lt_compat _ Hmask) as Hinv.
  rewrite <- Hz, <- (fsum_R_zero _ Hnn).
  change (@fdiv R_scalar) with Rdiv. unfold Rdiv. split; [nra|]. split.
  - intros H. apply Rmult_integral in H as [H | H]; [done | lra].
  - intros ->. lra.
Qed.

(** ** Runs of the further properties on the concrete grids *)

Lemma nth_edge_In {A} (l : list (nat * nat * A * A)) k d a b :
  (k <? length l)%nat
  && Nat.eqb (fst (fst (fst (nth k l d)))) a
  && Nat.eqb (snd (fst (fst (nth k l d)))) b = true ->
  In (a, b, snd (fst (nth k l d)), snd (nth k l d)) l.
Proof.
  intros [[Hk Ha%Nat.eqb_eq]%andb_prop Hb%Nat.eqb_eq]%andb_prop.
  apply Nat.ltb_lt in Hk. pose proof (nth_In l d Hk) as Hin.
  destruct (nth k l d) as [[[a' b'] w] rw]. simpl in *. by subst.
Qed.

Lemma ex_region_run_ok :
  build_graph (S := Qc_scalar) follow_seeds id_perm
              (sigmoid_features ex_raw_features) ex_densities ex_edit_attn
              ex_obj_attn ex_K ex_sigma
  = (ex_region_graph, Ok (ex_region_ids, ex_region_idxs)).
Proof.
  unfold ex_region_graph, ex_region_ids, ex_region_idxs.
  rewrite <- (is_ok_pair (snd ex_region_run)); [by destruct ex_region_run|].
  vm_compute. reflexivity.
Qed.

(** Witness of X1: the run on the first 7x7x7 grid. *)
Lemma seed_counts_witness :
  exists edit obj,
    seeds_of (S := Qc_scalar) id_perm ex_densities ex_edit_attn ex_obj_attn
      = Ok (edit, obj)
    /\ (300 <= length edit)%nat
    /\ (length edit <= length (idx_values_of (S := Qc_scalar) ex_densities))%nat
    /\ (length obj <= 5000)%nat.
Proof.
  exact (seed_counts (S := Qc_scalar) follow_seeds id_perm ex_features
           ex_densities ex_edit_attn ex_obj_attn ex_K ex_sigma ex_graph
           (ex_segments, ex_idxs) ex_run_ok).
Defined.

(** Witness of X2: the seeds of the first run. *)
Lemma seeds_are_nodes_witness :
  List.NoDup ex_edit
  /\ (forall i, In i ex_edit -> (i < g_nodes ex_graph)%nat)
  /\ (forall i, In i ex_obj -> (i < g_nodes ex_graph)%nat).
Proof.
  exact (seeds_are_nodes (S := Qc_scalar) follow_seeds id_perm ex_features
           ex_densities ex_edit_attn ex_obj_attn ex_K ex_sigma ex_graph
           (ex_segments, ex_idxs) ex_edit ex_obj ex_run_ok ex_seeds_ok).
Defined.

(** Witness of X3: node 294 of the first run, an object seed that is not an
    edit seed. *)
Lemma terminal_edge_per_node_witness :
  List.filter (fun t => Nat.eqb (tedge_node t) 294) (g_tedges ex_graph)
  = [(294%nat, Fin (lit (Scalar := Qc_scalar) 0), Inf)].
Proof.
  destruct ex_seed_membership as (_ & Ho & He).
  destruct (terminal_edge_per_node (S := Qc_scalar) follow_seeds id_perm
              ex_features ex_densities ex_edit_attn ex_obj_attn ex_K ex_sigma
              ex_graph (ex_segments, ex_idxs) ex_edit ex_obj 294%nat
              ex_run_ok ex_seeds_ok) as (_ & H & _).
  apply (H He Ho). apply Nat.ltb_lt. vm_compute. reflexivity.
Defined.

(** Witness of X4: the labelling of the first run. *)
Lemma labelling_covers_active_voxels_witness :
  length ex_segments = length ex_idxs
  /\ g_nodes ex_graph = length ex_idxs
  /\ List.NoDup ex_idxs
  /\ (forall c, In c ex_idxs <->
                in_bounds (gshape ex_densities) c = true
                /\ non_zero_densities (S := Qc_scalar) ex_densities c = true)
  /\ (forall i, (i < length ex_idxs)%nat ->
                nth_error ex_segments i = Some (follow_seeds ex_graph i)).
Proof.
  exact (labelling_covers_active_voxels (S := Qc_scalar) follow_seeds id_perm
           ex_features ex_densities ex_edit_attn ex_obj_attn ex_K ex_sigma
           ex_graph ex_segments ex_idxs ex_run_ok).
Defined.

(** Witness of X5: node 342 of the first run, the voxel (6, 6, 6), and its
    neighbour (5, 6, 6). *)
Lemma node_coordinates_index_probs_witness :
  6 < Z.of_nat (g_nodes ex_graph) /\ 6 < Z.of_nat (g_nodes ex_graph)
  /\ 6 < Z.of_nat (g_nodes ex_graph).
Proof.
  refine (node_coordinates_index_probs (S := Qc_scalar) follow_seeds id_perm
            ex_features ex_densities ex_edit_attn ex_obj_attn ex_K ex_sigma
            ex_graph (ex_segments, ex_idxs) 342%nat (6, 6, 6) (-1, 0, 0)
            ex_run_ok _ _ _ _).
  - vm_compute. reflexivity.
  - left. reflexivity.
  - vm_compute. reflexivity.
  - vm_compute. reflexivity.
Defined.

(** Witness of X6: the first run. *)
Lemma at_most_six_edges_per_node_witness :
  (length (g_edges ex_graph) <= 6 * g_nodes ex_graph)%nat.
Proof.
  exact (at_most_six_edges_per_node (S := Qc_scalar) follow_seeds id_perm
           ex_features ex_densities ex_edit_attn ex_obj_attn ex_K ex_sigma
           ex_graph (ex_segments, ex_idxs) ex_run_ok).
Defined.

Lemma In_ex_edge_fwd :
  In (1%nat, 2%nat, snd (fst ex_edge_fwd), snd ex_edge_fwd) (g_edges ex_graph).
Proof. unfold ex_edge_fwd. apply nth_edge_In. vm_compute. reflexivity. Qed.

Lemma In_ex_edge_bwd :
  In (2%nat, 1%nat, snd (fst ex_edge_bwd), snd ex_edge_bwd) (g_edges ex_graph).
Proof. unfold ex_edge_bwd. apply nth_edge_In. vm_compute. reflexivity. Qed.

(** Witness of X7: the two calls between the nodes 1 and 2 of the first
    run. *)
Lemma weight_same_in_both_calls_witness :
  snd (fst ex_edge_bwd) = snd (fst ex_edge_fwd).
Proof.
  apply (weight_same_in_both_calls (S := Qc_scalar) follow_seeds id_perm
           ex_features ex_densities ex_edit_attn ex_obj_attn ex_K ex_sigma
           ex_graph (ex_segments, ex_idxs) 1%nat 2%nat
           (snd (fst ex_edge_fwd)) (snd ex_edge_fwd)
           (snd (fst ex_edge_bwd)) (snd ex_edge_bwd)).
  - intros x y. unfold fsq. simpl. ring.
  - exact ex_run_ok.
  - exact In_ex_edge_fwd.
  - exact In_ex_edge_bwd.
Defined.

(** Witness of X8: the first edge of the first run, whose target is the
    voxel (1, 0, 0). *)
Lemma edge_targets_below_shortest_axis_witness :
  let m := Z.of_nat (Nat.min 7 (Nat.min 7 7)) in
  0 <= 1 < m /\ 0 <= 0 < m /\ 0 <= 0 < m.
Proof.
  refine (edge_targets_below_shortest_axis (S := Qc_scalar) follow_seeds
            id_perm ex_features ex_densities ex_edit_attn ex_obj_attn ex_K
            ex_sigma ex_graph (ex_segments, ex_idxs) _ _ _ _ (1, 0, 0)
            ex_run_ok In_ex_edge _).
  vm_compute. reflexivity.
Defined.

(** Witness of X9: the first grid, on which the primary rule is kept. *)
Lemma object_seeds_subsample_witness :
  List.NoDup ex_obj
  /\ (forall i, In i ex_obj ->
        nth_error (map (fun p => fltb (Scalar := Qc_scalar) (fst p) (snd p)) ex_probs) i
        = Some true)
  /\ length ex_obj
     = Nat.min num_obj_voxels_thresh
         (mask_sum (map (fun p => fltb (Scalar := Qc_scalar) (fst p) (snd p)) ex_probs)).
Proof.
  destruct (seeds_of_inv (S := Qc_scalar) _ _ _ _ _ _ ex_seeds_ok) as (_ & _ & Hsel).
  refine (object_seeds_subsample (S := Qc_scalar) id_perm _ _ _ ex_edit ex_obj
            ex_top id_perm_perm Hsel _ _).
  - unfold ex_top. apply is_ok_eq. vm_compute. reflexivity.
  - apply Nat.leb_le. vm_compute. reflexivity.
Defined.

(** Witness of X10: the pipeline on the first grid. *)
Lemma get_edit_region_returns_witness :
  exists grids,
    get_edit_region (S := Qc_scalar) follow_seeds id_perm ex_vol_edit
                    ex_vol_object ex_K ex_sigma
    = (ex_region_graph, Ok grids).
Proof.
  refine (get_edit_region_returns (S := Qc_scalar) follow_seeds id_perm
            ex_vol_edit ex_vol_object ex_K ex_sigma ex_region_graph
            ex_region_ids ex_region_idxs _ _ ex_region_run_ok).
  - vm_compute. reflexivity.
  - vm_compute. reflexivity.
Defined.

(** Witness of X11: the output of the pipeline on the first grid. *)
Lemma output_grid_follows_labelling_witness :
  (forall i c,
     nth_error (idx_values_of (S := Qc_scalar) (_densities ex_vol_edit)) i = Some c ->
     gdata (graphcut_grid (ok_or no_grids (snd ex_region))) c =
     match follow_seeds (fst ex_region) i return qnum with
     | SOURCE => selected (S := Qc_scalar)
     | SINK => inside_density (S := Qc_scalar)
     end)
  /\ (forall c, non_zero_densities (S := Qc_scalar) (_densities ex_vol_edit) c = false ->
        gdata (graphcut_grid (ok_or no_grids (snd ex_region))) c
        = background (S := Qc_scalar))
  /\ gshape (graphcut_grid (ok_or no_grids (snd ex_region)))
     = gshape (_densities ex_vol_edit).
Proof.
  exact (output_grid_follows_labelling (S := Qc_scalar) follow_seeds id_perm
           ex_vol_edit ex_vol_object ex_K ex_sigma (fst ex_region)
           (ok_or no_grids (snd ex_region)) ex_region_ok).
Defined.

(** Witness of X12: the dense and the empty 2x2x2 density grids differ at
    the origin. *)
Lemma density_values_must_match_witness :
  get_edit_region (S := Qc_scalar) follow_seeds id_perm small_model zero_model
                  ex_K ex_sigma
  = (empty_graph, Raise (AssertionError DensityAssert)).
Proof.
  refine (density_values_must_match (S := Qc_scalar) follow_seeds id_perm
            small_model zero_model ex_K ex_sigma (0, 0, 0) _ _ _).
  - reflexivity.
  - reflexivity.
  - vm_compute. reflexivity.
Defined.

(** Witness of X14: two target maps that differ only where the render is
    not positive. *)
Lemma loss_ignores_unrendered_pixels_witness :
  calc_loss_on_attn_grid (S := Qc_scalar) px_render px_map 10 50
  = calc_loss_on_attn_grid (S := Qc_scalar) px_render px_map_alt 10 50.
Proof.
  refine (loss_ignores_unrendered_pixels (S := Qc_scalar) px_render px_map
            px_map_alt 10 50 _ _ _ _).
  - reflexivity.
  - reflexivity.
  - intros [|[|[|i]]] a b Ha Hpos Hb.
    + exact Hb.
    + injection Ha as <-. vm_compute in Hpos. discriminate.
    + injection Ha as <-. vm_compute in Hpos. discriminate.
    + destruct i; discriminate.
  - intros i a b _ _ _. apply (@fmul_zero Qc_scalar Qc_laws).
Defined.

(** Witness of X15: a render that matches the target on its positive
    pixel. *)
Lemma attention_loss_zero_iff_witness :
  (0 <= fdiv (Scalar := R_scalar) (fsum (diff_masked re_render re_map))
                                   (fsum (render_mask re_render)))%R
  /\ (fdiv (Scalar := R_scalar) (fsum (diff_masked re_render re_map))
                                (fsum (render_mask re_render)) = 0%R <->
      Forall (fun p => (0 < fst p)%R -> fst p = snd p)
             (combine re_render re_map)).
Proof.
  refine (attention_loss_zero_iff re_render re_map 10 50 _ _ _).
  - reflexivity.
  - apply Exists_cons_hd. lra.
Defined.

(** ** Over the reals: activity, dominance and the range of the weights *)

Lemma fmax_R (a b : R) : fmax (S := R_scalar) a b = Rmax a b.
Proof.
  unfold fmax, Rmax. simpl. destruct (Rlt_dec a b), (Rle_dec a b); lra.
Qed.

Lemma fold_fmax_R_pos (vs : list R) (v : R) :
  (0 < fold_left (fmax (S := R_scalar)) vs v)%R <->
  (0 < v)%R \/ Exists (fun e => (0 < e)%R) vs.
Proof.
  revert v. induction vs as [|e vs IH]; intros v; simpl.
  - split; [by left | intros [H | H]; [done | inversion H]].
  - rewrite IH, fmax_R, Exists_cons. unfold Rmax.
    destruct (Rle_dec v e); intuition lra.
Qed.

Lemma In_window n i j :
  In j (window n i) <-> (i - 1 <= j <= i + 1) /\ in_range n j = true.
Proof.
  unfold window. rewrite filter_In. simpl. split.
  - intros [[<- | [<- | [<- | []]]] H]; split; try done; lia.
  - intros [H1 H2]. split; [|done].
    destruct (Z.eq_dec j (i - 1)) as [->|]; [by left|].
    destruct (Z.eq_dec j i) as [->|]; [right; by left|].
    right; right; left. lia.
Qed.

Lemma In_pool_window x y z a b d c :
  In c (pool_window (x, y, z) (a, b, d)) <->
  exists b' d', c = (a, b', d')
    /\ (b - 1 <= b' <= b + 1) /\ in_range y b' = true
    /\ (d - 1 <= d' <= d + 1) /\ in_range z d' = true.
Proof.
  unfold pool_window. rewrite in_flat_map. split.
  - intros (b' & [Hb1 Hb2]%In_window & (d' & <- & [Hd1 Hd2]%In_window)%in_map_iff).
    by exists b', d'.
  - intros (b' & d' & -> & Hb1 & Hb2 & Hd1 & Hd2).
    exists b'. split; [by apply In_window|].
    apply in_map_iff. exists d'. split; [done | by apply In_window].
Qed.

(** X16. Which voxels become nodes, over the reals.  The max-pooling of line
    182 works on a tensor of shape (X, Y, Z, 1), whose first axis it reads
    as the channel axis: a voxel of the grid is active exactly when a voxel
    with the same first coordinate, at most one step away along the second
    and the third axis, has positive density.  The dilation never looks
    along the first axis. *)
Theorem dilation_stays_in_slab (densities : Grid R) (a b d : Z) :
  in_bounds (gshape densities) (a, b, d) = true ->
  non_zero_densities (S := R_scalar) densities (a, b, d) = true <->
  exists b' d',
    (b - 1 <= b' <= b + 1) /\ (d - 1 <= d' <= d + 1)
    /\ in_bounds (gshape densities) (a, b', d') = true
    /\ (0 < gdata densities (a, b', d'))%R.
Proof.
  destruct densities as [[[x y] z] f]. simpl gshape. simpl gdata.
  intros Hin. pose proof Hin as Hin'.
  apply andb_prop in Hin' as [[Ha Hb]%andb_prop Hd].
  assert (Hpos : (0 < max_pool3d (S := R_scalar) {| gshape := (x, y, z); gdata := f |} (a, b, d))%R
                 <-> Exists (fun e => (0 < e)%R)
                            (map f (pool_window (x, y, z) (a, b, d)))).
  { unfold max_pool3d. simpl gshape. simpl gdata.
    assert (Hne : In (a, b, d) (pool_window (x, y, z) (a, b, d))).
    { apply In_pool_window. exists b, d. repeat split; try done; lia. }
    apply (in_map f) in Hne.
    match goal with
    | |- context [match ?m with [] => _ | _ :: _ => _ end] =>
        change (map f (pool_window (x, y, z) (a, b, d))) with m in *;
        destruct m as [|v vs]
    end.
    - inversion Hne.
    - rewrite Exists_cons. exact (fold_fmax_R_pos vs v). }
  unfold non_zero_densities.
  change (fltb (Scalar := R_scalar) (lit 0) ?m) with (if Rlt_dec (Q2R 0) m then true else false).
  rewrite Q2R_0. split.
  - intros H. destruct (Rlt_dec 0 _) as [Hlt|]; [|discriminate].
    apply Hpos in Hlt. apply List.Exists_exists in Hlt as (e & He & Hgt).
    apply in_map_iff in He as (c & <- & Hc).
    apply In_pool_window in Hc as (b' & d' & -> & Hb1 & Hb2 & Hd1 & Hd2).
    exists b', d'. repeat split; try done; try lia.
    simpl. by rewrite Ha, Hb2, Hd2.
  - intros (b' & d' & Hb1 & Hd1 & Hin2 & Hgt).
    apply andb_prop in Hin2 as [[_ Hb2]%andb_prop Hd2].
    destruct (Rlt_dec 0 _) as [|Hn]; [done|]. exfalso. apply Hn, Hpos.
    apply List.Exists_exists. exists (f (a, b', d')). split; [|done].
    apply in_map, In_pool_window. by exists b', d'.
Qed.

(** X17. Over the reals the softmax of line 209 keeps the order of the two
    attention values: the object-dominant voxels of line 216, those with
    p_object > p_edit, are the voxels whose raw object attention exceeds
    their raw edit attention. *)
Theorem object_dominance_is_raw_order (edit_attn_vals obj_attn_vals : list R) :
  map (fun p => fltb (Scalar := R_scalar) (fst p) (snd p))
      (attention_probs (S := R_scalar) edit_attn_vals obj_attn_vals)
  = map (fun p => fltb (Scalar := R_scalar) (fst p) (snd p))
        (combine edit_attn_vals obj_attn_vals).
Proof.
  unfold attention_probs. rewrite map_map. apply map_ext. intros [e o].
  unfold softmax_fn. simpl.
  pose proof (exp_pos e) as He. pose proof (exp_pos o) as Ho.
  assert (Hs : (0 < / (exp e + exp o))%R) by (apply Rinv_0_lt_compat; lra).
  unfold Rdiv.
  destruct (Rlt_dec (exp e * _) (exp o * _)) as [H | H], (Rlt_dec e o) as [H' | H'];
    try done; exfalso.
  - apply H'. apply exp_lt_inv. nra.
  - apply H. apply exp_increasing in H'. nra.
Qed.

Lemma l2_R_same (fv : list R) : l2 (S := R_scalar) fv fv = 0%R.
Proof.
  unfold l2.
  assert (H : fsum (S := R_scalar)
                (map (fun p => fsq (S := R_scalar) (fsub (fst p) (snd p)))
                     (combine fv fv)) = 0%R).
  { induction fv as [|x fv IH]; [apply fsum_R_nil|].
    simpl combine. simpl map. rewrite fsum_R_cons.
    etransitivity; [apply f_equal; exact IH|].
    unfold fsq. simpl. lra. }
  rewrite <- sqrt_0. change (@fsqrt R_scalar) with sqrt. f_equal. exact H.
Qed.

(** X18. Over the reals, with K > 0 and sigma > 0, the weight of line 297
    lies in (0, K]: no edge gets a zero or negative capacity, and none more
    than K, which is the weight between two voxels with the same
    features. *)
Theorem affinity_range (K sigma : R) (fv fn : list R) (p : R) :
  (0 < K)%R -> (0 < sigma)%R ->
  (0 < affinity (S := R_scalar) K sigma (l2 (S := R_scalar) fv fn) p <= K)%R
  /\ affinity (S := R_scalar) K sigma (l2 (S := R_scalar) fv fv) p = K.
Proof.
  intros HK Hs. rewrite !affinity_real, l2_R_same. split.
  - assert (Hd : (0 <= l2 (S := R_scalar) fv fn)%R) by apply sqrt_pos.
    set (d := l2 (S := R_scalar) fv fn) in *.
    pose proof (exp_pos (- d / sigma)) as Hpos.
    assert (Hle : (exp (- d / sigma) <= 1)%R).
    { rewrite <- exp_0. destruct (Req_dec d 0) as [-> | Hne].
      - right. f_equal. unfold Rdiv. lra.
      - left. apply exp_increasing. unfold Rdiv.
        assert (0 < / sigma)%R by (by apply Rinv_0_lt_compat). nra. }
    nra.
  - replace (- 0 / sigma)%R with 0%R by (unfold Rdiv; lra).
    rewrite exp_0. lra.
Qed.

(** Witness of X16: the origin of a dense 2x2x2 grid over the reals. *)
Lemma dilation_stays_in_slab_witness :
  non_zero_densities (S := R_scalar) re_densities (0, 0, 0) = true <->
  exists b' d',
    (0 - 1 <= b' <= 0 + 1) /\ (0 - 1 <= d' <= 0 + 1)
    /\ in_bounds (gshape re_densities) (0, b', d') = true
    /\ (0 < gdata re_densities (0%Z, b', d'))%R.
Proof.
  refine (dilation_stays_in_slab re_densities 0 0 0 _). reflexivity.
Defined.

(** Witness of X18: K = 5, sigma = 1/10, features at distance 1. *)
Lemma affinity_range_witness :
  (0 < affinity (S := R_scalar) 5 (1 / 10) (l2 (S := R_scalar) [0; 0] [1; 0]) 0 <= 5)%R
  /\ (affinity (S := R_scalar) 5 (1 / 10) (l2 (S := R_scalar) [0; 0] [0; 0]) 0 = 5)%R.
Proof.
  refine (affinity_range 5 (1 / 10) [0; 0]%R [1; 0]%R 0 _ _); lra.
Defined.
